(** * Stock distribution: the two SQL statements of [distribute_products.py]

    The script [distribute_products.py] recreates the table [shipments] and
    runs two PostgreSQL statements against the tables created by
    [populate_db.py]:

    - [distribution_sql] (deficit, proportional first pass, remainder by rank,
      [INSERT ... WHERE shipment_qty > 0]);
    - [adjustment_sql] (pruning of branches below [min_shipment], leftover
      pool per product, reallocation of one unit per ranked branch).

    The embedding below follows the statements one common table expression at
    a time.  Tables are lists of records (bags of rows), [JOIN] is a nested
    loop, [GROUP BY] collects the rows of each distinct key.

    Column types are those of [create_tables]: [stock], [reserve] and
    [transit] are [NUMERIC], modelled by rationals [Q]; [need], [priority],
    [min_shipment] and [shipment_qty] are [INT], modelled by [Z].  The casts
    written in the statements ([::BIGINT], [::int]) and the assignment cast of
    the [INSERT] into the [INT] column [shipment_qty] round a [NUMERIC] to the
    nearest integer, ties away from zero, and raise "out of range" outside the
    target type; a raised error aborts the statement, which is modelled by
    [option].

    What is left out of the model: [NUMERIC] division is taken to be exact
    (PostgreSQL rounds a quotient at a scale of at least 16 significant
    digits); [SUM] over [INT] (a [BIGINT]) is taken unbounded; the special
    values [NaN] and [Infinity] of [NUMERIC] are no values of [Q]; every row
    of every common table expression is computed, so any cast out of range
    raises, whatever plan the engine picks.  The quotients of the examples
    below are exact decimals or far from an integer, so that rounding them
    changes no floor.  The primary keys of
    [create_tables] are not built into the tables: the theorems that need
    them assume [primary_keys].

    [ROW_NUMBER() OVER (PARTITION BY .. ORDER BY priority DESC)] leaves the
    order of rows of equal priority to the engine.  The class [RowOrder]
    stands for the engine's choice: any function returning a permutation of
    its argument sorted by descending key.  Theorems hold for every such
    choice; [stable_order] is one of them.

    The tables are built by [populate_db.py], which is modelled after the
    statements: [copy_csv], [populate_products], [populate_auxiliary],
    [populate_needs] and [main].  What is left out there is said where the
    model starts. *)

From Stdlib Require Import ZArith QArith Qround Qminmax List Lia Lqa.
From Stdlib Require Import Permutation Sorted Bool.
From Stdlib Require String.
Import ListNotations.
Import String.StringSyntax.
Delimit Scope string_scope with string.

(** ** Values and casts *)

(** [UUID] columns: opaque 128-bit identifiers. *)
Definition uuid := N.
Bind Scope N_scope with uuid.

Definition int4_min : Z := - 2 ^ 31.
Definition int4_max : Z := 2 ^ 31 - 1.
Definition int8_min : Z := - 2 ^ 63.
Definition int8_max : Z := 2 ^ 63 - 1.

(** Rounding of a [NUMERIC] to an integer: nearest, ties away from zero. *)
Definition numeric_round (q : Q) : Z :=
  if Qle_bool 0 q then Qfloor (q + (1 # 2)) else Qceiling (q - (1 # 2)).

(** [q::int] and the assignment cast to an [INT] column. *)
Definition numeric_to_int4 (q : Q) : option Z :=
  let z := numeric_round q in
  if ((int4_min <=? z) && (z <=? int4_max))%Z then Some z else None.

(** [q::BIGINT]. *)
Definition numeric_to_int8 (q : Q) : option Z :=
  let z := numeric_round q in
  if ((int8_min <=? z) && (z <=? int8_max))%Z then Some z else None.

(** [SUM] over a [NUMERIC] and over an [INT] column. *)
Definition Qsum (l : list Q) : Q := fold_right Qplus 0 l.
Definition Zsum (l : list Z) : Z := fold_right Z.add 0%Z l.

(** [x > 0] on [NUMERIC]. *)
Definition Qpositive (q : Q) : bool := negb (Qle_bool q 0).

(** ** Relational operators *)

(** An error in any row aborts the statement. *)
Fixpoint mapM {A B} (f : A -> option B) (l : list A) : option (list B) :=
  match l with
  | [] => Some []
  | x :: l' =>
      match f x with
      | None => None
      | Some y =>
          match mapM f l' with
          | None => None
          | Some ys => Some (y :: ys)
          end
      end
  end.

(** [l JOIN r ON on]. *)
Definition join {A B} (on : A -> B -> bool) (l : list A) (r : list B)
  : list (A * B) :=
  flat_map (fun a => map (pair a) (filter (on a) r)) l.

Definition eqb_of {K} (dec : forall x y : K, {x = y} + {x <> y}) (x y : K)
  : bool :=
  if dec x y then true else false.

(** [GROUP BY key]: each distinct key with the rows that carry it. *)
Definition group_by {K A} (dec : forall x y : K, {x = y} + {x <> y})
    (key : A -> K) (l : list A) : list (K * list A) :=
  map (fun k => (k, filter (fun x => eqb_of dec (key x) k) l))
      (nodup dec (map key l)).

(** The engine's choice of an order for [ORDER BY key DESC]. *)
Class RowOrder := {
  order_by_desc : forall A : Type, (A -> Z) -> list A -> list A;
  order_by_desc_perm :
    forall (A : Type) (key : A -> Z) (l : list A),
      Permutation l (order_by_desc A key l);
  order_by_desc_sorted :
    forall (A : Type) (key : A -> Z) (l : list A),
      StronglySorted (fun x y => (key y <= key x)%Z) (order_by_desc A key l)
}.

Arguments order_by_desc {_} {A} key l.

(** Rows numbered 1, 2, ... in the order given. *)
Definition number {A} (l : list A) : list (Z * A) :=
  combine (map Z.of_nat (seq 1 (length l))) l.

(** [ROW_NUMBER() OVER (PARTITION BY part ORDER BY key DESC)]: every row with
    its number. *)
Definition row_number `{RowOrder} {A} (part : A -> uuid) (key : A -> Z)
    (l : list A) : list (Z * A) :=
  flat_map (fun g => number (order_by_desc key (snd g)))
           (group_by N.eq_dec part l).

(** ** Tables ([create_tables] in populate_db.py, [shipments] in
    distribute_products.py) *)

Record BranchProduct := {
  bp_product_id : uuid;
  bp_branch_id : uuid;
  bp_stock : Q;
  bp_reserve : Q;
  bp_transit : Q
}.

Record RcProduct := {
  rcp_product_id : uuid;
  rcp_branch_id : uuid;
  rcp_stock : Q;
  rcp_reserve : Q;
  rcp_transit : Q
}.

Record Store := {
  s_branch_id : uuid;
  s_priority : Z;
  s_min_shipment : Z
}.

Record Need := {
  n_branch_id : uuid;
  n_product_id : uuid;
  n_need : Z
}.

Record Shipment := {
  sh_branch_id : uuid;
  sh_product_id : uuid;
  sh_shipment_qty : Z
}.

Record Database := {
  branch_products : list BranchProduct;
  rc_products : list RcProduct;
  stores : list Store;
  needs : list Need
}.

(** ** [distribution_sql] *)

(** [GREATEST(0, n.need - (bp.stock + bp.transit - bp.reserve))]. *)
Definition deficit (bp : BranchProduct) (n : Need) : Q :=
  Qmax 0 (inject_Z (n_need n) - (bp_stock bp + bp_transit bp - bp_reserve bp)).

Record available_row := {
  a_product_id : uuid;
  a_branch_id : uuid;
  a_deficit : Q;
  a_priority : Z
}.

(** [FROM branch_products bp JOIN needs n ON bp.branch_id = n.branch_id AND
    bp.product_id = n.product_id JOIN stores s ON bp.branch_id = s.branch_id]:
    no [WHERE] clause, rows of deficit 0 are kept. *)
Definition available (db : Database) : list available_row :=
  map (fun x : BranchProduct * Need * Store =>
         let '(bp, n, s) := x in
         {| a_product_id := bp_product_id bp;
            a_branch_id := bp_branch_id bp;
            a_deficit := deficit bp n;
            a_priority := s_priority s |})
      (join (fun (x : BranchProduct * Need) s =>
               (bp_branch_id (fst x) =? s_branch_id s)%N)
            (join (fun bp n =>
                     (bp_branch_id bp =? n_branch_id n)%N
                     && (bp_product_id bp =? n_product_id n)%N)
                  (branch_products db) (needs db))
            (stores db)).

Record rc_row := {
  rc_product_id : uuid;
  rc_total_stock : Z
}.

(** [SELECT product_id, SUM(stock)::BIGINT FROM rc_products GROUP BY
    product_id]. *)
Definition rc (db : Database) : option (list rc_row) :=
  mapM (fun g : uuid * list RcProduct =>
          option_map
            (fun t => {| rc_product_id := fst g; rc_total_stock := t |})
            (numeric_to_int8 (Qsum (map rcp_stock (snd g)))))
       (group_by N.eq_dec rcp_product_id (rc_products db)).

Record sum_weights_row := {
  sw_product_id : uuid;
  sw_total_weight : Q
}.

(** [SELECT product_id, SUM(deficit * priority) FROM available GROUP BY
    product_id]. *)
Definition weight (a : available_row) : Q :=
  a_deficit a * inject_Z (a_priority a).

Definition sum_weights (av : list available_row) : list sum_weights_row :=
  map (fun g : uuid * list available_row =>
         {| sw_product_id := fst g;
            sw_total_weight := Qsum (map weight (snd g)) |})
      (group_by N.eq_dec a_product_id av).

Record first_alloc_row := {
  fa_product_id : uuid;
  fa_branch_id : uuid;
  fa_deficit : Q;
  fa_priority : Z;
  fa_total_stock : Z;
  fa_total_weight : Q
}.

Definition first_alloc (av : list available_row) (rcs : list rc_row)
  : list first_alloc_row :=
  map (fun x : available_row * rc_row * sum_weights_row =>
         let '(a, r, sw) := x in
         {| fa_product_id := a_product_id a;
            fa_branch_id := a_branch_id a;
            fa_deficit := a_deficit a;
            fa_priority := a_priority a;
            fa_total_stock := rc_total_stock r;
            fa_total_weight := sw_total_weight sw |})
      (join (fun (x : available_row * rc_row) sw =>
               (sw_product_id sw =? a_product_id (fst x))%N)
            (join (fun a r => (rc_product_id r =? a_product_id a)%N) av rcs)
            (sum_weights av)).

Record first_pass_row := {
  fp_product_id : uuid;
  fp_branch_id : uuid;
  fp_deficit : Q;
  fp_priority : Z;
  fp_shipped : Q
}.

(** [COALESCE(FLOOR(total_stock * (deficit * priority)::numeric
    / NULLIF(total_weight, 0))::int, 0)]: a zero [total_weight] makes the
    quotient [NULL], which [COALESCE] replaces by 0. *)
Definition floor_share (fa : first_alloc_row) : option Z :=
  if Qeq_bool (fa_total_weight fa) 0 then Some 0%Z
  else
    numeric_to_int4
      (inject_Z
         (Qfloor (inject_Z (fa_total_stock fa)
                  * (fa_deficit fa * inject_Z (fa_priority fa))
                  / fa_total_weight fa))).

(** [LEAST(.., deficit) AS shipped]. *)
Definition first_pass_of (fa : first_alloc_row) : option first_pass_row :=
  option_map
    (fun share =>
       {| fp_product_id := fa_product_id fa;
          fp_branch_id := fa_branch_id fa;
          fp_deficit := fa_deficit fa;
          fp_priority := fa_priority fa;
          fp_shipped := Qmin (inject_Z share) (fa_deficit fa) |})
    (floor_share fa).

Definition first_pass (fas : list first_alloc_row)
  : option (list first_pass_row) :=
  mapM first_pass_of fas.

Record remaining_row := {
  rem_product_id : uuid;
  rem_remaining : Q
}.

Definition uuid_Z_dec (x y : uuid * Z) : {x = y} + {x <> y}.
Proof. decide equality; [apply Z.eq_dec | apply N.eq_dec]. Defined.

(** [SELECT fp.product_id, rc.total_stock - SUM(fp.shipped) FROM first_pass fp
    JOIN rc ON rc.product_id = fp.product_id
    GROUP BY fp.product_id, rc.total_stock]. *)
Definition remaining (fps : list first_pass_row) (rcs : list rc_row)
  : list remaining_row :=
  map (fun g : (uuid * Z) * list (first_pass_row * rc_row) =>
         {| rem_product_id := fst (fst g);
            rem_remaining :=
              inject_Z (snd (fst g))
              - Qsum (map (fun x => fp_shipped (fst x)) (snd g)) |})
      (group_by uuid_Z_dec
         (fun x : first_pass_row * rc_row =>
            (fp_product_id (fst x), rc_total_stock (snd x)))
         (join (fun fp r => (rc_product_id r =? fp_product_id fp)%N) fps rcs)).

Record pass1_row := {
  p1_product_id : uuid;
  p1_branch_id : uuid;
  p1_deficit : Q;
  p1_priority : Z;
  p1_shipped : Q;
  p1_remaining : Q
}.

Definition pass1 (fps : list first_pass_row) (rems : list remaining_row)
  : list pass1_row :=
  map (fun x : first_pass_row * remaining_row =>
         let '(fp, rem) := x in
         {| p1_product_id := fp_product_id fp;
            p1_branch_id := fp_branch_id fp;
            p1_deficit := fp_deficit fp - fp_shipped fp;
            p1_priority := fp_priority fp;
            p1_shipped := fp_shipped fp;
            p1_remaining := rem_remaining rem |})
      (join (fun fp rem => (rem_product_id rem =? fp_product_id fp)%N)
            fps rems).

Record second_pass_row := {
  sp_branch_id : uuid;
  sp_product_id : uuid;
  sp_shipment_qty : Q
}.

(** [CASE WHEN ROW_NUMBER() OVER (..) <= remaining THEN 1 ELSE 0 END]. *)
Definition bonus (rn : Z) (limit : Q) : Z :=
  if Qle_bool (inject_Z rn) limit then 1%Z else 0%Z.

Definition second_pass `{RowOrder} (p1 : list pass1_row)
  : list second_pass_row :=
  map (fun x : Z * pass1_row =>
         {| sp_branch_id := p1_branch_id (snd x);
            sp_product_id := p1_product_id (snd x);
            sp_shipment_qty :=
              p1_shipped (snd x)
              + inject_Z (bonus (fst x) (p1_remaining (snd x))) |})
      (row_number p1_product_id p1_priority p1).

(** [INSERT INTO shipments(..) SELECT .. FROM second_pass
    WHERE shipment_qty > 0]: the quantity is stored in an [INT] column. *)
Definition insert_shipment (sp : second_pass_row) : option Shipment :=
  option_map
    (fun q =>
       {| sh_branch_id := sp_branch_id sp;
          sh_product_id := sp_product_id sp;
          sh_shipment_qty := q |})
    (numeric_to_int4 (sp_shipment_qty sp)).

Definition insert_second_pass (sps : list second_pass_row)
  : option (list Shipment) :=
  mapM insert_shipment (filter (fun sp => Qpositive (sp_shipment_qty sp)) sps).

(** The rows of [first_pass], or [None] when a cast raises. *)
Definition first_pass_rows (db : Database) : option (list first_pass_row) :=
  match rc db with
  | None => None
  | Some rcs => first_pass (first_alloc (available db) rcs)
  end.

(** The rows of [second_pass]. *)
Definition second_pass_rows `{RowOrder} (db : Database)
  : option (list second_pass_row) :=
  match rc db with
  | None => None
  | Some rcs =>
      match first_pass (first_alloc (available db) rcs) with
      | None => None
      | Some fps => Some (second_pass (pass1 fps (remaining fps rcs)))
      end
  end.

(** The whole first statement, run on the empty table [shipments]: the rows
    it inserts, or [None] when it raises. *)
Definition distribution_sql `{RowOrder} (db : Database)
  : option (list Shipment) :=
  match second_pass_rows db with
  | None => None
  | Some sps => insert_second_pass sps
  end.

(** ** [adjustment_sql] *)

Record branch_sums_row := {
  bs_branch_id : uuid;
  bs_total_shipment : Z
}.

(** [SELECT branch_id, SUM(shipment_qty) FROM shipments GROUP BY branch_id]. *)
Definition branch_sums (shs : list Shipment) : list branch_sums_row :=
  map (fun g : uuid * list Shipment =>
         {| bs_branch_id := fst g;
            bs_total_shipment := Zsum (map sh_shipment_qty (snd g)) |})
      (group_by N.eq_dec sh_branch_id shs).

(** [SELECT bs.branch_id FROM branch_sums bs JOIN stores s
    ON bs.branch_id = s.branch_id WHERE bs.total_shipment < s.min_shipment]. *)
Definition to_zero (db : Database) (shs : list Shipment) : list uuid :=
  map (fun x : branch_sums_row * Store => bs_branch_id (fst x))
      (filter (fun x : branch_sums_row * Store =>
                 (bs_total_shipment (fst x) <? s_min_shipment (snd x))%Z)
              (join (fun bs s => (bs_branch_id bs =? s_branch_id s)%N)
                    (branch_sums shs) (stores db))).

(** [DELETE FROM shipments sh USING to_zero tz
    WHERE sh.branch_id = tz.branch_id]: the rows that go. *)
Definition deleted (tz : list uuid) (sh : Shipment) : bool :=
  existsb (fun b => (sh_branch_id sh =? b)%N) tz.

Record zeroed_row := {
  z_product_id : uuid;
  z_shipment_qty : Z
}.

(** [RETURNING sh.product_id, sh.shipment_qty]. *)
Definition zeroed (tz : list uuid) (shs : list Shipment) : list zeroed_row :=
  map (fun sh =>
         {| z_product_id := sh_product_id sh;
            z_shipment_qty := sh_shipment_qty sh |})
      (filter (deleted tz) shs).

(** The table once the [DELETE] has run. *)
Definition after_delete (tz : list uuid) (shs : list Shipment)
  : list Shipment :=
  filter (fun sh => negb (deleted tz sh)) shs.

Record leftovers_row := {
  l_product_id : uuid;
  l_leftover : Z
}.

(** [SELECT product_id, SUM(shipment_qty) FROM zeroed GROUP BY product_id]. *)
Definition leftovers (zs : list zeroed_row) : list leftovers_row :=
  map (fun g : uuid * list zeroed_row =>
         {| l_product_id := fst g;
            l_leftover := Zsum (map z_shipment_qty (snd g)) |})
      (group_by N.eq_dec z_product_id zs).

Record avail_row := {
  av_branch_id : uuid;
  av_product_id : uuid;
  av_priority : Z
}.

(** [FROM branch_products bp JOIN stores s ON bp.branch_id = s.branch_id
    JOIN needs n ON bp.branch_id = n.branch_id AND
    bp.product_id = n.product_id WHERE GREATEST(0, ..) > 0]. *)
Definition avail (db : Database) : list avail_row :=
  map (fun x : BranchProduct * Store * Need =>
         let '(bp, s, _) := x in
         {| av_branch_id := bp_branch_id bp;
            av_product_id := bp_product_id bp;
            av_priority := s_priority s |})
      (filter (fun x : BranchProduct * Store * Need =>
                 let '(bp, _, n) := x in Qpositive (deficit bp n))
              (join (fun (x : BranchProduct * Store) n =>
                       (bp_branch_id (fst x) =? n_branch_id n)%N
                       && (bp_product_id (fst x) =? n_product_id n)%N)
                    (join (fun bp s => (bp_branch_id bp =? s_branch_id s)%N)
                          (branch_products db) (stores db))
                    (needs db))).

Record alloc_row := {
  al_branch_id : uuid;
  al_product_id : uuid;
  al_add_qty : Z
}.

(** [SELECT a.branch_id, l.product_id, CASE WHEN ROW_NUMBER() OVER
    (PARTITION BY l.product_id ORDER BY a.priority DESC) <= l.leftover
    THEN 1 ELSE 0 END FROM leftovers l JOIN avail a
    ON a.product_id = l.product_id]. *)
Definition alloc_of (x : Z * (leftovers_row * avail_row)) : alloc_row :=
  {| al_branch_id := av_branch_id (snd (snd x));
     al_product_id := l_product_id (fst (snd x));
     al_add_qty :=
       if (fst x <=? l_leftover (fst (snd x)))%Z then 1%Z else 0%Z |}.

Definition alloc `{RowOrder} (ls : list leftovers_row) (avs : list avail_row)
  : list alloc_row :=
  map alloc_of
      (row_number (fun x : leftovers_row * avail_row => l_product_id (fst x))
                  (fun x : leftovers_row * avail_row => av_priority (snd x))
                  (join (fun l a => (av_product_id a =? l_product_id l)%N)
                        ls avs)).

(** [INSERT INTO shipments(..) SELECT branch_id, product_id, add_qty
    FROM alloc WHERE add_qty > 0]: the rows appended. *)
Definition insert_alloc (als : list alloc_row) : list Shipment :=
  map (fun al =>
         {| sh_branch_id := al_branch_id al;
            sh_product_id := al_product_id al;
            sh_shipment_qty := al_add_qty al |})
      (filter (fun al => (0 <? al_add_qty al)%Z) als).

(** The rows the second statement appends to [shipments]. *)
Definition reallocated `{RowOrder} (db : Database) (shs : list Shipment)
  : list Shipment :=
  insert_alloc (alloc (leftovers (zeroed (to_zero db shs) shs)) (avail db)).

(** The whole second statement on the table [shs]: the table it leaves.  The
    [DELETE] and the [INSERT] read the table as it was before the statement. *)
Definition adjustment_sql `{RowOrder} (db : Database) (shs : list Shipment)
  : list Shipment :=
  after_delete (to_zero db shs) shs ++ reallocated db shs.

(** ** [distribute] *)

(** The table [shipments] when the script ends.  It is created empty and
    committed before the first statement; a statement that raises ends the
    script and leaves the table as it was. *)
Definition distribute `{RowOrder} (db : Database) : list Shipment :=
  match distribution_sql db with
  | None => []
  | Some shs => adjustment_sql db shs
  end.

(** ** A row order: insertion sort, rows of equal priority in scan order *)

Fixpoint insert_desc {A} (key : A -> Z) (x : A) (l : list A) : list A :=
  match l with
  | [] => [x]
  | y :: l' =>
      if (key y <=? key x)%Z then x :: l else y :: insert_desc key x l'
  end.

Definition sort_desc {A} (key : A -> Z) (l : list A) : list A :=
  fold_right (insert_desc key) [] l.

Definition stable_order : RowOrder.
Proof.
  assert (Hins : forall (A : Type) (key : A -> Z) (x : A) (l : list A),
             Permutation (x :: l) (insert_desc key x l)).
  { intros A key x l. induction l as [|y l IH]; simpl; [reflexivity|].
    destruct (key y <=? key x)%Z; [reflexivity|].
    rewrite perm_swap. now constructor. }
  refine {| order_by_desc := @sort_desc |}.
  - intros A key l. induction l as [|x l IH]; simpl; [constructor|].
    rewrite <- Hins. now constructor.
  - intros A key l. induction l as [|x l IH]; simpl; [constructor|].
    revert IH. generalize (sort_desc key l). clear l.
    induction 1 as [|y l Hs IH Hy]; simpl.
    + repeat constructor.
    + destruct (key y <=? key x)%Z eqn:E.
      * apply Z.leb_le in E. constructor.
        -- now constructor.
        -- constructor; [exact E|].
           rewrite Forall_forall in *. intros z Hz. specialize (Hy z Hz). lia.
      * apply Z.leb_gt in E. constructor; [exact IH|].
        rewrite Forall_forall in *. intros z Hz.
        apply (Permutation_in _ (Permutation_sym (Hins A key x l))) in Hz.
        destruct Hz as [<-|Hz]; [lia|now apply Hy].
Defined.

(** ** Quantities the specification speaks of *)

(** Total central stock of a product: the sum of [stock] over its rows of
    [rc_products]. *)
Definition total_central_stock (db : Database) (P : uuid) : Q :=
  Qsum (map rcp_stock
            (filter (fun r => (rcp_product_id r =? P)%N) (rc_products db))).

(** The rows of a table of shipments for one product, and their sum. *)
Definition of_product (P : uuid) (shs : list Shipment) : list Shipment :=
  filter (fun sh => (sh_product_id sh =? P)%N) shs.

Definition product_shipment (shs : list Shipment) (P : uuid) : Z :=
  Zsum (map sh_shipment_qty (of_product P shs)).

(** The rows of a table of shipments for one branch, and their sum
    ([total_shipment] of [branch_sums]). *)
Definition of_branch (b : uuid) (shs : list Shipment) : list Shipment :=
  filter (fun sh => (sh_branch_id sh =? b)%N) shs.

Definition total_shipment (shs : list Shipment) (b : uuid) : Z :=
  Zsum (map sh_shipment_qty (of_branch b shs)).

(** A [NUMERIC] that is a whole number. *)
Definition whole (q : Q) : bool := Qeq_bool q (inject_Z (Qfloor q)).

(** Every [stock], [reserve] and [transit] of [branch_products] is whole. *)
Definition whole_branch_stock (db : Database) : bool :=
  forallb (fun bp =>
             whole (bp_stock bp) && whole (bp_reserve bp)
             && whole (bp_transit bp))
          (branch_products db).

(** The rows of [available] for one product and their total weight
    ([total_weight] of [sum_weights]). *)
Definition available_of (db : Database) (P : uuid) : list available_row :=
  filter (fun a => (a_product_id a =? P)%N) (available db).

Definition total_weight (db : Database) (P : uuid) : Q :=
  Qsum (map weight (available_of db P)).

(** The row of [first_alloc] made of a row of [available], a total stock and
    a total weight. *)
Definition first_alloc_of (T : Z) (W : Q) (a : available_row)
  : first_alloc_row :=
  {| fa_product_id := a_product_id a;
     fa_branch_id := a_branch_id a;
     fa_deficit := a_deficit a;
     fa_priority := a_priority a;
     fa_total_stock := T;
     fa_total_weight := W |}.


(** The rows of [first_pass] for one product. *)
Definition first_pass_product (P : uuid) (fps : list first_pass_row)
  : list first_pass_row :=
  filter (fun fp => (fp_product_id fp =? P)%N) fps.

(** The row of [pass1] made of a row of [first_pass] and of what remains of
    its product. *)
Definition pass1_of (rem : Q) (fp : first_pass_row) : pass1_row :=
  {| p1_product_id := fp_product_id fp;
     p1_branch_id := fp_branch_id fp;
     p1_deficit := fp_deficit fp - fp_shipped fp;
     p1_priority := fp_priority fp;
     p1_shipped := fp_shipped fp;
     p1_remaining := rem |}.

(** The leftover pool of a product: the quantities of its deleted rows. *)
Definition leftover_of (zs : list zeroed_row) (P : uuid) : Z :=
  Zsum (map z_shipment_qty (filter (fun z => (z_product_id z =? P)%N) zs)).

(** The branches eligible for a leftover unit of a product: its rows of
    [avail]. *)
Definition eligible (db : Database) (P : uuid) : list avail_row :=
  filter (fun a => (av_product_id a =? P)%N) (avail db).

(** One reallocated unit. *)
Definition unit_shipment (P : uuid) (a : avail_row) : Shipment :=
  {| sh_branch_id := av_branch_id a;
     sh_product_id := P;
     sh_shipment_qty := 1 |}.

(** The eligible rows of the product of a leftover row, in the order of the
    window of [alloc]. *)
Definition ranked `{RowOrder} (db : Database) (l : leftovers_row)
  : list avail_row :=
  map snd
      (order_by_desc (fun x : leftovers_row * avail_row => av_priority (snd x))
                     (map (pair l) (eligible db (l_product_id l)))).


(** What the first pass leaves of the stock of the product of a row of
    [rc]. *)
Definition remaining_of_product (fps : list first_pass_row) (P : uuid)
    (r : rc_row) : Q :=
  inject_Z (rc_total_stock r)
  - Qsum (map fp_shipped (first_pass_product P fps)).

(** ** Conditions on the input *)

(** Central stock and priorities that are not negative. *)
Definition nonneg_central_stock (db : Database) : bool :=
  forallb (fun r => Qle_bool 0 (rcp_stock r)) (rc_products db).

Definition nonneg_priority (db : Database) : bool :=
  forallb (fun s => (0 <=? s_priority s)%Z) (stores db).

Definition positive_priority (db : Database) : bool :=
  forallb (fun s => (0 <? s_priority s)%Z) (stores db).

(** Every stock, reserve, transit and need is non-negative. *)
Definition nonneg_quantities (db : Database) : bool :=
  forallb (fun bp =>
             Qle_bool 0 (bp_stock bp) && Qle_bool 0 (bp_reserve bp)
             && Qle_bool 0 (bp_transit bp))
          (branch_products db)
  && nonneg_central_stock db
  && forallb (fun n => (0 <=? n_need n)%Z) (needs db).

(** Some stock, need or priority is negative. *)
Definition has_negative (db : Database) : bool :=
  negb (nonneg_quantities db && nonneg_priority db).

Fixpoint unique {K} (eqb : K -> K -> bool) (l : list K) : bool :=
  match l with
  | [] => true
  | k :: l' => negb (existsb (eqb k) l') && unique eqb l'
  end.

Definition pair_eqb (x y : uuid * uuid) : bool :=
  ((fst x =? fst y)%N && (snd x =? snd y)%N).

(** The primary keys declared by [create_tables]. *)
Definition primary_keys (db : Database) : bool :=
  unique pair_eqb
         (map (fun bp => (bp_product_id bp, bp_branch_id bp))
              (branch_products db))
  && unique pair_eqb
            (map (fun r => (rcp_product_id r, rcp_branch_id r))
                 (rc_products db))
  && unique N.eqb (map s_branch_id (stores db))
  && unique pair_eqb
            (map (fun n => (n_branch_id n, n_product_id n)) (needs db)).

(** The key of the specification's output relation. *)
Definition shipment_key (sh : Shipment) : uuid * uuid :=
  (sh_branch_id sh, sh_product_id sh).

(** Every partition of a window has pairwise distinct priorities: the window
    then leaves the engine no choice. *)
Definition distinct_in_partitions {A} (part : A -> uuid) (key : A -> Z)
    (l : list A) : bool :=
  forallb (fun g : uuid * list A => unique Z.eqb (map key (snd g)))
          (group_by N.eq_dec part l).

Definition distribution_order_free (db : Database) : bool :=
  match rc db with
  | None => true
  | Some rcs =>
      match first_pass (first_alloc (available db) rcs) with
      | None => true
      | Some fps =>
          distinct_in_partitions p1_product_id p1_priority
                                 (pass1 fps (remaining fps rcs))
      end
  end.

Definition order_free (db : Database) : bool :=
  distribution_order_free db
  && match @distribution_sql stable_order db with
     | None => true
     | Some shs =>
         distinct_in_partitions
           (fun x : leftovers_row * avail_row => l_product_id (fst x))
           (fun x : leftovers_row * avail_row => av_priority (snd x))
           (join (fun l a => (av_product_id a =? l_product_id l)%N)
                 (leftovers (zeroed (to_zero db shs) shs))
                 (avail db))
     end.

(** ** Inputs used as examples *)

Definition branch_product (P b : uuid) (stock : Q) : BranchProduct :=
  {| bp_product_id := P; bp_branch_id := b;
     bp_stock := stock; bp_reserve := 0; bp_transit := 0 |}.

Definition rc_product (P loc : uuid) (stock : Q) : RcProduct :=
  {| rcp_product_id := P; rcp_branch_id := loc;
     rcp_stock := stock; rcp_reserve := 0; rcp_transit := 0 |}.

Definition store (b : uuid) (priority min_shipment : Z) : Store :=
  {| s_branch_id := b; s_priority := priority;
     s_min_shipment := min_shipment |}.

Definition need (b P : uuid) (n : Z) : Need :=
  {| n_branch_id := b; n_product_id := P; n_need := n |}.

Definition shipment (b P : uuid) (q : Z) : Shipment :=
  {| sh_branch_id := b; sh_product_id := P; sh_shipment_qty := q |}.

(** Scenario B: one product with central stock 11, two branches of deficit 5
    and priority 2 and 3, with their [min_shipment]. *)
Definition scenario_B_with (min1 min2 : Z) : Database :=
  {| branch_products := [branch_product 1 1 0; branch_product 1 2 0];
     rc_products := [rc_product 1 9 11];
     stores := [store 1 2 min1; store 2 3 min2];
     needs := [need 1 1 5; need 2 1 5] |}.

Definition scenario_B : Database := scenario_B_with 1 1.

(** Branch 1 needs nothing (deficit 0) and has the higher priority; branch 2
    has deficit 1; central stock 5. *)
Definition zero_deficit_input : Database :=
  {| branch_products := [branch_product 1 1 0; branch_product 1 2 0];
     rc_products := [rc_product 1 9 5];
     stores := [store 1 5 1; store 2 1 1];
     needs := [need 1 1 0; need 2 1 1] |}.

(** Scenario D: the only branch is fully stocked; central stock 3. *)
Definition zero_weight_input : Database :=
  {| branch_products := [branch_product 1 1 0];
     rc_products := [rc_product 1 9 3];
     stores := [store 1 1 1];
     needs := [need 1 1 0] |}.

(** One branch, two products: stock 0.6 against a need of 1 for product 1
    (deficit 0.4, central stock 1), and a deficit of 5 for product 2. *)
Definition fractional_deficit_input : Database :=
  {| branch_products := [branch_product 1 1 (6 # 10); branch_product 2 1 0];
     rc_products := [rc_product 1 9 1; rc_product 2 9 5];
     stores := [store 1 1 1];
     needs := [need 1 1 1; need 1 2 5] |}.


(** Branch 1 (priority 1, [min_shipment] 100, deficit 3) is pruned; branch 2
    (priority 5, deficit 5) survives; central stock 8. *)
Definition pruned_branch_input : Database :=
  {| branch_products := [branch_product 1 1 0; branch_product 1 2 0];
     rc_products := [rc_product 1 9 8];
     stores := [store 1 1 100; store 2 5 1];
     needs := [need 1 1 3; need 2 1 5] |}.

(** Three branches of deficit 0.5 and priority 3, 2 and 1; central stock 3. *)
Definition half_deficit_input : Database :=
  {| branch_products :=
       [branch_product 1 1 (1 # 2); branch_product 1 2 (1 # 2);
        branch_product 1 3 (1 # 2)];
     rc_products := [rc_product 1 9 3];
     stores := [store 1 3 1; store 2 2 1; store 3 1 1];
     needs := [need 1 1 1; need 2 1 1; need 3 1 1] |}.

(** Branch 1 has a negative need. *)
Definition negative_need_input : Database :=
  {| branch_products := [branch_product 1 1 0; branch_product 1 2 0];
     rc_products := [rc_product 1 9 4];
     stores := [store 1 1 1; store 2 2 1];
     needs := [need 1 1 (-3); need 2 1 5] |}.

(** The branch and product of a row have a row in each of the four input
    tables. *)
Definition has_input_rows (db : Database) (sh : Shipment) : Prop :=
  exists bp n s r,
    In bp (branch_products db) /\ In n (needs db) /\ In s (stores db)
    /\ In r (rc_products db)
    /\ bp_branch_id bp = sh_branch_id sh
    /\ bp_product_id bp = sh_product_id sh
    /\ n_branch_id n = sh_branch_id sh /\ n_product_id n = sh_product_id sh
    /\ s_branch_id s = sh_branch_id sh
    /\ rcp_product_id r = sh_product_id sh.

(** No two stores have the same priority. *)
Definition distinct_priorities (db : Database) : bool :=
  unique Z.eqb (map s_priority (stores db)).

(** No central stock at all. *)
Definition no_central_stock_input : Database :=
  {| branch_products := [branch_product 1 1 0];
     rc_products := [];
     stores := [store 1 1 1];
     needs := [need 1 1 5] |}.

(** A single branch of deficit 3 whose [min_shipment] is out of reach;
    central stock 8. *)
Definition lone_branch_input : Database :=
  {| branch_products := [branch_product 1 1 0];
     rc_products := [rc_product 1 9 8];
     stores := [store 1 1 100];
     needs := [need 1 1 3] |}.

(** Scenario B with 4 units reserved and 2 in transit at the central
    location. *)
Definition central_reserve_input : Database :=
  {| branch_products := [branch_product 1 1 0; branch_product 1 2 0];
     rc_products :=
       [{| rcp_product_id := 1; rcp_branch_id := 9; rcp_stock := 11;
           rcp_reserve := 4; rcp_transit := 2 |}];
     stores := [store 1 2 1; store 2 3 1];
     needs := [need 1 1 5; need 2 1 5] |}.

(** Another row order: insertion sort of the reversed scan, so that rows of
    equal priority come in the opposite order of [stable_order]. *)
Definition reverse_scan_order : RowOrder.
Proof.
  refine {| order_by_desc := fun A key l => sort_desc key (rev l) |}.
  - intros A key l. apply (Permutation_trans (Permutation_rev l)).
    exact (@order_by_desc_perm stable_order A key (rev l)).
  - intros A key l.
    exact (@order_by_desc_sorted stable_order A key (rev l)).
Defined.

(** ** [populate_db.py] *)

(** The script loads [rc_products] and [branch_products] from two files and
    derives the other tables.  A file is the list of its lines; what
    PostgreSQL makes of a line of [COPY .. WITH CSV] is a parameter
    ([None]: the line is rejected and the statement raises); records that
    span several lines are left out.  The draws of [random()] and of
    [random.random()] are parameters too, the [i]-th call returning the
    value at [i]; double precision arithmetic is taken to be exact.  A row
    source without [ORDER BY] is read in the order of the list. *)

Record Product := {
  pr_product_id : uuid;
  pr_category_id : uuid
}.

Record Logday := {
  ld_branch_id : uuid;
  ld_category_id : uuid;
  ld_logdays : Z
}.

Record Tables := {
  t_rc_products : list RcProduct;
  t_branch_products : list BranchProduct;
  t_products : list Product;
  t_logdays : list Logday;
  t_stores : list Store;
  t_needs : list Need
}.

(** [create_tables]: the six tables are dropped and created empty. *)
Definition create_tables : Tables :=
  {| t_rc_products := []; t_branch_products := []; t_products := [];
     t_logdays := []; t_stores := []; t_needs := [] |}.

(** The tables [distribute_products.py] reads. *)
Definition database (t : Tables) : Database :=
  {| branch_products := t_branch_products t;
     rc_products := t_rc_products t;
     stores := t_stores t;
     needs := t_needs t |}.

(** [INSERT .. ON CONFLICT DO NOTHING]: a row whose key is already in the
    table, or was inserted earlier by the same statement, is skipped. *)
Definition insert_do_nothing {A K} (eqb : K -> K -> bool) (key : A -> K)
    (rows table : list A) : list A :=
  fold_left (fun t x =>
               if existsb (fun y => eqb (key y) (key x)) t then t
               else t ++ [x])
            rows table.

Section Copy.
Context {A K : Type}.
Variable parse : String.string -> option A.
Variable eqb : K -> K -> bool.
Variable key : A -> K.

(** The data lines of a [COPY]: a line that is rejected or repeats a key of
    the table raises. *)
Fixpoint copy_rows (lines : list String.string) (table : list A)
  : option (list A) :=
  match lines with
  | [] => Some table
  | line :: lines' =>
      match parse line with
      | None => None
      | Some x =>
          if existsb (fun y => eqb (key y) (key x)) table then None
          else copy_rows lines' (table ++ [x])
      end
  end.

(** [COPY t FROM STDIN WITH CSV HEADER]: the first line received is
    discarded. *)
Definition copy_with_header (lines : list String.string) (table : list A)
  : option (list A) :=
  copy_rows (tl lines) table.

(** [copy_csv]: [next(f)] consumes one line (and raises on an empty file),
    the rest of the file is sent to the [COPY]. *)
Definition copy_csv (file : list String.string) (table : list A)
  : option (list A) :=
  match file with
  | [] => None
  | _ :: rest => copy_with_header rest table
  end.
End Copy.

(** [EXISTS(SELECT 1 FROM rc_products rp WHERE rp.product_id = p.product_id)
    OR EXISTS(SELECT 1 FROM branch_products bp WHERE ..)]. *)
Definition has_stock (rcs : list RcProduct) (bps : list BranchProduct)
    (p : Product) : bool :=
  existsb (fun rp => (rcp_product_id rp =? pr_product_id p)%N) rcs
  || existsb (fun bp => (bp_product_id bp =? pr_product_id p)%N) bps.

(** [INSERT INTO products SELECT .. FROM tmp_products p WHERE EXISTS ..
    ON CONFLICT DO NOTHING]. *)
Definition insert_products (rcs : list RcProduct) (bps : list BranchProduct)
    (tmp products : list Product) : list Product :=
  insert_do_nothing N.eqb pr_product_id (filter (has_stock rcs bps) tmp)
                    products.

(** [populate_products]: the file is copied into the temporary table
    [tmp_products], which has no key. *)
Definition populate_products (parse : String.string -> option Product)
    (prod_csv : list String.string) (t : Tables) : option Tables :=
  match copy_csv parse (fun _ _ : unit => false) (fun _ => tt) prod_csv []
  with
  | None => None
  | Some tmp =>
      Some {| t_rc_products := t_rc_products t;
              t_branch_products := t_branch_products t;
              t_products :=
                insert_products (t_rc_products t) (t_branch_products t)
                                tmp (t_products t);
              t_logdays := t_logdays t;
              t_stores := t_stores t;
              t_needs := t_needs t |}
  end.

(** [SELECT b.branch_id, c.category_id, 7 FROM (SELECT DISTINCT branch_id
    FROM branch_products) b CROSS JOIN (SELECT DISTINCT category_id FROM
    products) c]. *)
Definition logday_rows (bps : list BranchProduct) (products : list Product)
  : list Logday :=
  flat_map (fun b =>
              map (fun c =>
                     {| ld_branch_id := b; ld_category_id := c;
                        ld_logdays := 7 |})
                  (nodup N.eq_dec (map pr_category_id products)))
           (nodup N.eq_dec (map bp_branch_id bps)).

Definition logday_key (l : Logday) : uuid * uuid :=
  (ld_branch_id l, ld_category_id l).

(** [(FLOOR(random() * k) + 1)::int] for a draw [r] of [random()]. *)
Definition random_int (k : Z) (r : Q) : Z :=
  (Qfloor (r * inject_Z k) + 1)%Z.

Definition Store_eq_dec (x y : Store) : {x = y} + {x <> y}.
Proof. decide equality; (apply Z.eq_dec || apply N.eq_dec). Defined.

(** [SELECT DISTINCT bp.branch_id, (FLOOR(random()*5)+1)::int,
    (FLOOR(random()*20)+1)::int FROM branch_products bp]: two draws for
    each row of [branch_products]. *)
Definition store_rows (random : nat -> Q) (bps : list BranchProduct)
  : list Store :=
  nodup Store_eq_dec
        (map (fun x : nat * BranchProduct =>
                {| s_branch_id := bp_branch_id (snd x);
                   s_priority := random_int 5 (random (2 * fst x)%nat);
                   s_min_shipment :=
                     random_int 20 (random (2 * fst x + 1)%nat) |})
             (combine (seq 0 (length bps)) bps)).

(** [populate_auxiliary]: both statements end in [ON CONFLICT DO NOTHING]. *)
Definition populate_auxiliary (random : nat -> Q) (t : Tables) : Tables :=
  {| t_rc_products := t_rc_products t;
     t_branch_products := t_branch_products t;
     t_products := t_products t;
     t_logdays :=
       insert_do_nothing pair_eqb logday_key
                         (logday_rows (t_branch_products t) (t_products t))
                         (t_logdays t);
     t_stores :=
       insert_do_nothing N.eqb s_branch_id
                         (store_rows random (t_branch_products t))
                         (t_stores t);
     t_needs := t_needs t |}.

(** [{key(r): val(r) for r in rows}.get(k)]: the last row of a key wins. *)
Definition dict_get {A K V} (eqb : K -> K -> bool) (key : A -> K)
    (val : A -> V) (rows : list A) (k : K) : option V :=
  fold_left (fun found r => if eqb (key r) k then Some (val r) else found)
            rows None.

(** [log_map.get((b, prod2cat.get(p)), 7)]: a product that is not in
    [products] gives the key [(b, None)], which no row of [logdays] has. *)
Definition logdays_of (products : list Product) (logdays : list Logday)
    (b p : uuid) : Z :=
  match dict_get N.eqb pr_product_id pr_category_id products p with
  | None => 7%Z
  | Some c =>
      match dict_get pair_eqb logday_key ld_logdays logdays (b, c) with
      | None => 7%Z
      | Some d => d
      end
  end.

(** [math.floor(random.random() * max(150.0, stock) * ld) + 1]. *)
Definition need_calc (r stock : Q) (ld : Z) : Z :=
  (Qfloor (r * Qmax 150 stock * inject_Z ld) + 1)%Z.

(** [max(need_calc, min_ship_map.get(b, 1))]. *)
Definition need_val (r stock : Q) (ld : Z) (min_ship : option Z) : Z :=
  Z.max (need_calc r stock ld)
        (match min_ship with Some m => m | None => 1%Z end).

(** The tuple appended to [batch] for the [i]-th row of the cursor. *)
Definition need_row (random : nat -> Q) (t : Tables)
    (x : nat * BranchProduct) : Need :=
  let b := bp_branch_id (snd x) in
  let p := bp_product_id (snd x) in
  {| n_branch_id := b;
     n_product_id := p;
     n_need :=
       need_val (random (fst x)) (bp_stock (snd x))
                (logdays_of (t_products t) (t_logdays t) b p)
                (dict_get N.eqb s_branch_id s_min_shipment (t_stores t) b) |}.

Definition need_key (n : Need) : uuid * uuid :=
  (n_branch_id n, n_product_id n).

(** [execute_values(write_cur, "INSERT INTO needs .. VALUES %s ON CONFLICT
    DO NOTHING", batch)]: a value outside [INT] raises. *)
Definition execute_values (batch needs : list Need) : option (list Need) :=
  if forallb (fun n => (int4_min <=? n_need n)%Z && (n_need n <=? int4_max)%Z)
             batch
  then Some (insert_do_nothing pair_eqb need_key batch needs)
  else None.

(** The loop of [populate_needs]: a batch is written when it holds 10000
    tuples, and what is left of it after the last row. *)
Fixpoint needs_loop (random : nat -> Q) (t : Tables)
    (rows : list (nat * BranchProduct)) (batch needs : list Need)
  : option (list Need) :=
  match rows with
  | [] =>
      match batch with
      | [] => Some needs
      | _ :: _ => execute_values batch needs
      end
  | x :: rows' =>
      let batch' := batch ++ [need_row random t x] in
      if (10000 <=? N.of_nat (length batch'))%N then
        match execute_values batch' needs with
        | None => None
        | Some needs' => needs_loop random t rows' [] needs'
        end
      else needs_loop random t rows' batch' needs
  end.

Definition populate_needs (random : nat -> Q) (t : Tables) : option Tables :=
  match needs_loop random t
          (combine (seq 0 (length (t_branch_products t)))
                   (t_branch_products t))
          [] (t_needs t)
  with
  | None => None
  | Some needs' =>
      Some {| t_rc_products := t_rc_products t;
              t_branch_products := t_branch_products t;
              t_products := t_products t;
              t_logdays := t_logdays t;
              t_stores := t_stores t;
              t_needs := needs' |}
  end.

Definition rc_key (r : RcProduct) : uuid * uuid :=
  (rcp_product_id r, rcp_branch_id r).

Definition bp_key (bp : BranchProduct) : uuid * uuid :=
  (bp_product_id bp, bp_branch_id bp).

(** [copy_csv(cur, 'rc_products', rc_csv)] and
    [copy_csv(cur, 'branch_products', bp_csv)]. *)
Definition load_rc_products (parse : String.string -> option RcProduct)
    (rc_csv : list String.string) (t : Tables) : option Tables :=
  option_map
    (fun rcs =>
       {| t_rc_products := rcs;
          t_branch_products := t_branch_products t;
          t_products := t_products t;
          t_logdays := t_logdays t;
          t_stores := t_stores t;
          t_needs := t_needs t |})
    (copy_csv parse pair_eqb rc_key rc_csv (t_rc_products t)).

Definition load_branch_products
    (parse : String.string -> option BranchProduct)
    (bp_csv : list String.string) (t : Tables) : option Tables :=
  option_map
    (fun bps =>
       {| t_rc_products := t_rc_products t;
          t_branch_products := bps;
          t_products := t_products t;
          t_logdays := t_logdays t;
          t_stores := t_stores t;
          t_needs := t_needs t |})
    (copy_csv parse pair_eqb bp_key bp_csv (t_branch_products t)).

(** [main]: the steps in order; a step that raises ends the script. *)
Definition main (parse_rc : String.string -> option RcProduct)
    (parse_bp : String.string -> option BranchProduct)
    (parse_prod : String.string -> option Product)
    (rc_csv bp_csv prod_csv : list String.string)
    (sql_random py_random : nat -> Q) : option Tables :=
  match load_rc_products parse_rc rc_csv create_tables with
  | None => None
  | Some t1 =>
      match load_branch_products parse_bp bp_csv t1 with
      | None => None
      | Some t2 =>
          match populate_products parse_prod prod_csv t2 with
          | None => None
          | Some t3 =>
              populate_needs py_random (populate_auxiliary sql_random t3)
          end
      end
  end.

(** ** Files used as examples *)

(** A reading of lines given by a table. *)
Definition reading {A} (rows : list (String.string * A))
    (line : String.string) : option A :=
  option_map snd (find (fun x => String.eqb (fst x) line) rows).

Definition rc_csv_example : list String.string :=
  ["product_id,branch_id,stock,reserve,transit"%string;
   "1,8,4,0,0"%string; "1,9,11,0,0"%string].

Definition parse_rc_example : String.string -> option RcProduct :=
  reading [("1,8,4,0,0"%string, rc_product 1 8 4);
           ("1,9,11,0,0"%string, rc_product 1 9 11)].

Definition bp_csv_example : list String.string :=
  ["product_id,branch_id,stock,reserve,transit"%string;
   "1,3,7,0,0"%string; "1,1,0,0,0"%string; "1,2,0,0,0"%string].

Definition parse_bp_example : String.string -> option BranchProduct :=
  reading [("1,3,7,0,0"%string, branch_product 1 3 7);
           ("1,1,0,0,0"%string, branch_product 1 1 0);
           ("1,2,0,0,0"%string, branch_product 1 2 0)].

Definition prod_csv_example : list String.string :=
  ["product_id,category_id"%string; "2,7"%string; "1,7"%string;
   "5,7"%string].

Definition parse_prod_example : String.string -> option Product :=
  reading [("2,7"%string, {| pr_product_id := 2; pr_category_id := 7 |});
           ("1,7"%string, {| pr_product_id := 1; pr_category_id := 7 |});
           ("5,7"%string, {| pr_product_id := 5; pr_category_id := 7 |})].

(** Every draw is one half. *)
Definition half_random (i : nat) : Q := 1 # 2.

(** * Properties of the relational operators *)

Section Lists.
Context {A B : Type}.

Lemma mapM_Forall2 (f : A -> option B) (l : list A) (l' : list B) :
  mapM f l = Some l' -> Forall2 (fun x y => f x = Some y) l l'.
Proof.
  revert l'. induction l as [|x l IH]; simpl; intros l' E.
  - injection E as <-. constructor.
  - destruct (f x) as [y|] eqn:Ex; [|discriminate].
    destruct (mapM f l) as [ys|]; [|discriminate].
    injection E as <-. constructor; auto.
Qed.

Lemma mapM_defined (f : A -> option B) (l : list A) :
  (forall x, In x l -> f x <> None) -> mapM f l <> None.
Proof.
  induction l as [|x l IH]; simpl; intros Hf; [discriminate|].
  destruct (f x) eqn:Ex; [|exfalso; apply (Hf x); auto].
  destruct (mapM f l); [discriminate|]. exfalso. apply IH; auto.
Qed.

Lemma Forall2_filter (R : A -> B -> Prop) (p : A -> bool) (q : B -> bool)
    (l : list A) (l' : list B) :
  Forall2 R l l' -> (forall x y, R x y -> p x = q y) ->
  Forall2 R (filter p l) (filter q l').
Proof.
  intros H Hpq. induction H as [|x y l l' Hxy _ IH]; simpl; [constructor|].
  rewrite (Hpq _ _ Hxy). destruct (q y); auto.
Qed.

Lemma Forall2_map_eq {C} (R : A -> B -> Prop) (f : A -> C) (g : B -> C)
    (l : list A) (l' : list B) :
  Forall2 R l l' -> (forall x y, R x y -> f x = g y) -> map f l = map g l'.
Proof.
  intros H Hfg. induction H as [|x y l l' Hxy _ IH]; simpl; [reflexivity|].
  now rewrite (Hfg _ _ Hxy), IH.
Qed.

Lemma Forall2_in_r (R : A -> B -> Prop) (l : list A) (l' : list B) (y : B) :
  Forall2 R l l' -> In y l' -> exists x, In x l /\ R x y.
Proof.
  induction 1 as [|x y' l l' Hxy _ IH]; simpl; [tauto|].
  intros [<-|Hy]; [now exists x; auto|].
  destruct (IH Hy) as [x' [? ?]]. exists x'; auto.
Qed.

Lemma in_join (on : A -> B -> bool) (l : list A) (r : list B) a b :
  In (a, b) (join on l r) <-> In a l /\ In b r /\ on a b = true.
Proof.
  unfold join. rewrite in_flat_map. split.
  - intros [a' [Ha Hb]]. apply in_map_iff in Hb as [b' [E Hb']].
    injection E as -> ->. apply filter_In in Hb'. tauto.
  - intros [Ha [Hb Hon]]. exists a. split; [exact Ha|].
    apply in_map. apply filter_In. tauto.
Qed.

Lemma filter_join (q : A * B -> bool) (p : A -> bool)
    (on : A -> B -> bool) l r :
  (forall a b, q (a, b) = p a) ->
  filter q (join on l r) = join on (filter p l) r.
Proof.
  intros Hq. unfold join. induction l as [|a l IH]; simpl; [reflexivity|].
  rewrite filter_app, IH.
  destruct (p a) eqn:Ep; simpl; f_equal.
  - induction (filter (on a) r) as [|b bs IHb]; simpl; [reflexivity|].
    now rewrite Hq, Ep, IHb.
  - induction (filter (on a) r) as [|b bs IHb]; simpl; [reflexivity|].
    now rewrite Hq, Ep, IHb.
Qed.

Lemma filter_map_join {C} (F : A * B -> C) (q : C -> bool) (p : A -> bool)
    (on : A -> B -> bool) l r :
  (forall a b, q (F (a, b)) = p a) ->
  filter q (map F (join on l r)) = map F (join on (filter p l) r).
Proof.
  intros Hq. rewrite filter_map_swap. f_equal. now apply filter_join.
Qed.

Lemma join_single (on : A -> B -> bool) (g : A -> B) l r :
  (forall a, In a l -> filter (on a) r = [g a]) ->
  join on l r = map (fun a => (a, g a)) l.
Proof.
  unfold join. induction l as [|a l IH]; simpl; intros H; [reflexivity|].
  rewrite (H a) by auto. simpl. f_equal. apply IH. auto.
Qed.

Lemma join_none (on : A -> B -> bool) l r :
  (forall a, In a l -> filter (on a) r = []) -> join on l r = [].
Proof.
  unfold join. induction l as [|a l IH]; simpl; intros H; [reflexivity|].
  rewrite (H a) by auto. simpl. apply IH. auto.
Qed.

Lemma flat_map_ext_in (f g : A -> list B) l :
  (forall a, In a l -> f a = g a) -> flat_map f l = flat_map g l.
Proof.
  induction l as [|a l IH]; simpl; intros H; [reflexivity|].
  rewrite (H a) by auto. f_equal. apply IH. auto.
Qed.

Lemma filter_all (p : A -> bool) l :
  (forall x, In x l -> p x = true) -> filter p l = l.
Proof.
  induction l as [|x l IH]; simpl; intros H; [reflexivity|].
  rewrite (H x) by auto. f_equal. apply IH. auto.
Qed.

Lemma filter_none (p : A -> bool) l :
  (forall x, In x l -> p x = false) -> filter p l = [].
Proof.
  induction l as [|x l IH]; simpl; intros H; [reflexivity|].
  rewrite (H x) by auto. apply IH. auto.
Qed.

Lemma filter_filter (p q : A -> bool) l :
  filter p (filter q l) = filter (fun x => q x && p x) l.
Proof.
  induction l as [|x l IH]; simpl; [reflexivity|].
  destruct (q x); simpl; [destruct (p x)|]; now rewrite IH.
Qed.

(** In a list without duplicates a predicate that pins its argument down
    selects that one element. *)
Lemma filter_NoDup_single (p : A -> bool) (x : A) l :
  NoDup l -> In x l -> p x = true ->
  (forall y, In y l -> p y = true -> y = x) ->
  filter p l = [x].
Proof.
  induction 1 as [|z l Hz Hnd IH]; simpl; [tauto|].
  intros [->|Hx] Hpx Hu.
  - rewrite Hpx. f_equal. apply filter_none. intros y Hy.
    destruct (p y) eqn:Ey; [|reflexivity].
    exfalso. apply Hz. now rewrite <- (Hu y) by auto.
  - destruct (p z) eqn:Ez.
    + exfalso. apply Hz. now rewrite (Hu z) by auto.
    + apply IH; auto.
Qed.

(** The same for a table whose key column has no duplicates. *)
Lemma filter_key_single {K} (key : A -> K) (p : A -> bool) (b : A) r :
  NoDup (map key r) -> In b r -> p b = true ->
  (forall y, In y r -> p y = true -> key y = key b) ->
  filter p r = [b].
Proof.
  induction r as [|z r IH]; simpl; [tauto|].
  intros Hnd [->|Hb] Hpb Hu; inversion Hnd as [|? ? Hz Hnd']; subst.
  - rewrite Hpb. f_equal. apply filter_none. intros y Hy.
    destruct (p y) eqn:Ey; [|reflexivity].
    exfalso. apply Hz. rewrite <- (Hu y) by auto. now apply in_map.
  - destruct (p z) eqn:Ez.
    + exfalso. apply Hz. rewrite (Hu z) by auto. now apply in_map.
    + apply IH; auto.
Qed.
End Lists.

Lemma eqb_of_true {K} (dec : forall x y : K, {x = y} + {x <> y}) x y :
  eqb_of dec x y = true <-> x = y.
Proof. unfold eqb_of. destruct (dec x y); split; congruence. Qed.

Section GroupBy.
Context {K A : Type} (dec : forall x y : K, {x = y} + {x <> y}).
Variable key : A -> K.

Lemma group_by_keys (l : list A) :
  map fst (group_by dec key l) = nodup dec (map key l).
Proof.
  unfold group_by. rewrite map_map. simpl. apply map_id.
Qed.

Lemma group_by_NoDup (l : list A) : NoDup (map fst (group_by dec key l)).
Proof. rewrite group_by_keys. apply NoDup_nodup. Qed.

Lemma in_group_by (l : list A) k g :
  In (k, g) (group_by dec key l) <->
  In k (map key l) /\ g = filter (fun x => eqb_of dec (key x) k) l.
Proof.
  unfold group_by. rewrite in_map_iff. split.
  - intros [k' [E Hk]]. injection E as -> <-.
    apply nodup_In in Hk. auto.
  - intros [Hk ->]. exists k. split; [reflexivity|]. now apply nodup_In.
Qed.

(** The groups partition the table. *)
Lemma group_by_perm (l : list A) :
  Permutation (flat_map snd (group_by dec key l)) l.
Proof.
  unfold group_by. rewrite flat_map_concat_map, map_map. simpl.
  rewrite <- flat_map_concat_map.
  assert (G : forall ks (l : list A), NoDup ks ->
              (forall x, In x l -> In (key x) ks) ->
              Permutation
                (flat_map (fun k => filter (fun x => eqb_of dec (key x) k) l)
                          ks) l).
  { clear l. induction ks as [|k ks IH]; intros l Hnd Hin; simpl.
    - destruct l as [|x l]; [constructor|]. destruct (Hin x); simpl; auto.
    - inversion Hnd as [|? ? Hk Hnd']; subst.
      set (rest := filter (fun x => negb (eqb_of dec (key x) k)) l).
      assert (E : flat_map
                    (fun k' => filter (fun x => eqb_of dec (key x) k') l) ks
                  = flat_map
                      (fun k' => filter (fun x => eqb_of dec (key x) k') rest)
                      ks).
      { apply flat_map_ext_in. intros k' Hk'. unfold rest.
        rewrite filter_filter. apply filter_ext. intros x.
        destruct (eqb_of dec (key x) k') eqn:E1; [|now rewrite andb_false_r].
        apply eqb_of_true in E1. rewrite andb_true_r.
        destruct (eqb_of dec (key x) k) eqn:E2; [|reflexivity].
        apply eqb_of_true in E2. congruence. }
      rewrite E, (IH rest Hnd').
      + clear. induction l as [|x l IHl]; simpl; [constructor|].
        unfold rest in *. simpl.
        destruct (eqb_of dec (key x) k); simpl.
        * now constructor.
        * rewrite <- Permutation_middle. now constructor.
      + intros x Hx. apply filter_In in Hx as [Hx Hne].
        destruct (Hin x Hx) as [E'|?]; [|assumption].
        rewrite (proj2 (eqb_of_true dec (key x) k) (eq_sym E')) in Hne.
        discriminate. }
  apply G; [apply NoDup_nodup|]. intros x Hx. apply nodup_In. now apply in_map.
Qed.
End GroupBy.

(** ** Sums *)

Lemma Qsum_app (l l' : list Q) : Qsum (l ++ l') == Qsum l + Qsum l'.
Proof.
  induction l as [|x l IH]; simpl; [lra|]. rewrite IH. lra.
Qed.



Lemma Qsum_map_le {A} (f g : A -> Q) (l : list A) :
  (forall x, In x l -> f x <= g x) -> Qsum (map f l) <= Qsum (map g l).
Proof.
  induction l as [|x l IH]; simpl; intros H; [lra|].
  specialize (H x (or_introl eq_refl)) as Hx.
  assert (Qsum (map f l) <= Qsum (map g l)) by (apply IH; auto). lra.
Qed.



Lemma Qsum_map_plus {A} (f g : A -> Q) (l : list A) :
  Qsum (map (fun x => f x + g x) l) == Qsum (map f l) + Qsum (map g l).
Proof.
  induction l as [|x l IH]; simpl; [lra|]. rewrite IH. lra.
Qed.



Lemma Zsum_app (l l' : list Z) : Zsum (l ++ l') = (Zsum l + Zsum l')%Z.
Proof.
  induction l as [|x l IH]; simpl; [reflexivity|]. rewrite IH. lia.
Qed.

Lemma Zsum_perm (l l' : list Z) : Permutation l l' -> Zsum l = Zsum l'.
Proof.
  induction 1; simpl; lia.
Qed.

Lemma Zsum_nonneg (l : list Z) :
  Forall (fun z => 0 <= z)%Z l -> (0 <= Zsum l)%Z.
Proof.
  induction 1; simpl; lia.
Qed.

Lemma Zsum_filter_split {A} (p : A -> bool) (f : A -> Z) (l : list A) :
  Zsum (map f l)
  = (Zsum (map f (filter p l))
     + Zsum (map f (filter (fun x => negb (p x)) l)))%Z.
Proof.
  induction l as [|x l IH]; simpl; [reflexivity|].
  destruct (p x); simpl; lia.
Qed.


(** ** Row numbers *)

Lemma eqb_of_N (x y : N) : eqb_of N.eq_dec x y = (x =? y)%N.
Proof.
  unfold eqb_of. destruct (N.eq_dec x y) as [->|Hne].
  - now rewrite N.eqb_refl.
  - symmetry. now apply N.eqb_neq.
Qed.

Lemma number_snd {A} (l : list A) : map snd (number l) = l.
Proof.
  unfold number. generalize 1%nat.
  induction l as [|x l IH]; intros s; simpl; [reflexivity|].
  now rewrite IH.
Qed.

Lemma number_length {A} (l : list A) : length (number l) = length l.
Proof. rewrite <- (number_snd l) at 2. now rewrite length_map. Qed.

Lemma in_number {A} (l : list A) i x :
  In (i, x) (number l) -> (1 <= i <= Z.of_nat (length l))%Z /\ In x l.
Proof.
  intros H. split.
  - apply in_combine_l in H. apply in_map_iff in H as [n [<- Hn]].
    apply in_seq in Hn. lia.
  - now apply in_combine_r in H.
Qed.

Lemma flat_map_select {K C} (dec : forall x y : K, {x = y} + {x <> y})
    (F : K -> list C) (P : K) (ks : list K) :
  NoDup ks ->
  flat_map (fun k => if dec k P then F k else []) ks
  = if in_dec dec P ks then F P else [].
Proof.
  induction 1 as [|k ks Hk Hnd IH]; simpl; [reflexivity|].
  rewrite IH. destruct (dec k P) as [->|Hne].
  - destruct (in_dec dec P ks); [contradiction|]. apply app_nil_r.
  - destruct (in_dec dec P ks); reflexivity.
Qed.

Lemma filter_flat_map {A B} (p : B -> bool) (F : A -> list B) (l : list A) :
  filter p (flat_map F l) = flat_map (fun a => filter p (F a)) l.
Proof.
  induction l as [|a l IH]; simpl; [reflexivity|].
  now rewrite filter_app, IH.
Qed.

Section RowNumber.
Context `{RowOrder} {A : Type}.
Variables (part : A -> uuid) (key : A -> Z).

Lemma order_by_desc_nil : order_by_desc key (@nil A) = [].
Proof.
  apply Permutation_nil. apply order_by_desc_perm.
Qed.

Lemma order_by_desc_in (l : list A) x :
  In x (order_by_desc key l) <-> In x l.
Proof.
  split; apply Permutation_in;
    [apply Permutation_sym|]; apply order_by_desc_perm.
Qed.

(** Numbering neither drops nor repeats a row. *)
Lemma row_number_perm (l : list A) :
  Permutation (map snd (row_number part key l)) l.
Proof.
  unfold row_number.
  rewrite <- (group_by_perm N.eq_dec part l) at 2.
  induction (group_by N.eq_dec part l) as [|g gs IH]; simpl; [constructor|].
  rewrite map_app, number_snd. apply Permutation_app; [|exact IH].
  apply Permutation_sym, order_by_desc_perm.
Qed.

(** The rows of one partition are numbered on their own. *)
Lemma row_number_partition (l : list A) (P : uuid) :
  filter (fun x => (part (snd x) =? P)%N) (row_number part key l)
  = number (order_by_desc key (filter (fun a => (part a =? P)%N) l)).
Proof.
  unfold row_number, group_by.
  rewrite flat_map_concat_map, map_map, <- flat_map_concat_map. simpl.
  rewrite filter_flat_map.
  set (F := fun k =>
              number (order_by_desc key
                        (filter (fun x => eqb_of N.eq_dec (part x) k) l))).
  rewrite (flat_map_ext_in _ (fun k => if N.eq_dec k P then F k else [])).
  - rewrite flat_map_select by apply NoDup_nodup.
    destruct (in_dec _ _ _) as [Hin|Hout].
    + unfold F. do 2 f_equal. apply filter_ext. intros a. apply eqb_of_N.
    + rewrite (filter_none (fun a => (part a =? P)%N) l).
      * now rewrite order_by_desc_nil.
      * intros a Ha. apply N.eqb_neq. intros E. apply Hout.
        apply nodup_In. rewrite <- E. now apply in_map.
  - intros k _. fold (F k).
    assert (Hk : forall x, In x (F k) -> part (snd x) = k).
    { intros [i x] Hx. apply in_number in Hx as [_ Hx].
      apply order_by_desc_in, filter_In in Hx as [_ Hx].
      now apply eqb_of_true in Hx. }
    destruct (N.eq_dec k P) as [->|Hne].
    + apply filter_all. intros x Hx. apply N.eqb_eq. auto.
    + apply filter_none. intros x Hx. apply N.eqb_neq.
      now rewrite (Hk x Hx).
Qed.
End RowNumber.

(** ** The one-unit bonus of the windows *)

Lemma bonus_floor (i : Z) (L : Q) :
  bonus i L = if (i <=? Qfloor L)%Z then 1%Z else 0%Z.
Proof.
  unfold bonus. destruct (Qle_bool (inject_Z i) L) eqn:E.
  - apply Qle_bool_iff in E. apply Qfloor_resp_le in E. rewrite Qfloor_Z in E.
    now rewrite (proj2 (Z.leb_le _ _) E).
  - destruct (i <=? Qfloor L)%Z eqn:E'; [|reflexivity].
    apply Z.leb_le in E'. exfalso.
    assert (inject_Z i <= L).
    { apply Qle_trans with (inject_Z (Qfloor L)); [|apply Qfloor_le].
      now rewrite <- Zle_Qle. }
    apply Qle_bool_iff in H. congruence.
Qed.




(** * The first statement, one product at a time *)

Lemma numeric_round_inject_Z (z : Z) : numeric_round (inject_Z z) = z.
Proof.
  unfold numeric_round. destruct (Qle_bool 0 (inject_Z z)) eqn:E.
  - apply Qle_bool_iff in E. rewrite <- (Qfloor_Z 0) in E.
    assert (H1 : inject_Z z <= inject_Z z + (1 # 2)) by lra.
    assert (H2 : inject_Z z + (1 # 2) < inject_Z (z + 1))
      by (rewrite inject_Z_plus; change (inject_Z 1) with 1; lra).
    apply Qfloor_resp_le in H1. rewrite Qfloor_Z in H1.
    assert (H3 := Qfloor_le (inject_Z z + (1 # 2))).
    assert (inject_Z (Qfloor (inject_Z z + (1 # 2))) < inject_Z (z + 1))
      by lra.
    rewrite <- Zlt_Qlt in H. lia.
  - unfold Qceiling.
    assert (H1 : - (inject_Z z - (1 # 2)) < inject_Z (- z + 1))
      by (rewrite inject_Z_plus, inject_Z_opp; change (inject_Z 1) with 1; lra).
    assert (H2 : inject_Z (- z) <= - (inject_Z z - (1 # 2)))
      by (rewrite inject_Z_opp; lra).
    apply Qfloor_resp_le in H2. rewrite Qfloor_Z in H2.
    assert (H3 := Qfloor_le (- (inject_Z z - (1 # 2)))).
    assert (inject_Z (Qfloor (- (inject_Z z - (1 # 2)))) < inject_Z (- z + 1))
      by lra.
    rewrite <- Zlt_Qlt in H. lia.
Qed.


Lemma NoDup_map_in_inj {A B} (f : A -> B) (l : list A) x y :
  NoDup (map f l) -> In x l -> In y l -> f x = f y -> x = y.
Proof.
  induction l as [|z l IH]; simpl; [tauto|].
  intros Hnd Hx Hy E. inversion Hnd as [|? ? Hz Hnd']; subst.
  destruct Hx as [->|Hx], Hy as [->|Hy]; auto.
  - exfalso. apply Hz. rewrite E. now apply in_map.
  - exfalso. apply Hz. rewrite <- E. now apply in_map.
Qed.

Lemma NoDup_map_of_inj {A B} (f : A -> B) (l : list A) :
  NoDup l -> (forall x y, In x l -> In y l -> f x = f y -> x = y) ->
  NoDup (map f l).
Proof.
  induction 1 as [|z l Hz Hnd IH]; simpl; intros Hinj; constructor.
  - intros Hin. apply in_map_iff in Hin as [y [E Hy]].
    apply Hz. rewrite <- (Hinj y z); auto.
  - apply IH. auto.
Qed.

(** [rc]: one row per product of [rc_products], carrying the rounded sum of
    its stock. *)
Lemma rc_keys (db : Database) rcs :
  rc db = Some rcs ->
  map rc_product_id rcs = nodup N.eq_dec (map rcp_product_id (rc_products db)).
Proof.
  intros E. apply mapM_Forall2 in E.
  rewrite <- group_by_keys.
  symmetry. apply (Forall2_map_eq _ _ _ _ _ E).
  intros g r Hg. destruct (numeric_to_int8 _); [|discriminate].
  simpl in Hg. now injection Hg as <-.
Qed.

Lemma rc_NoDup (db : Database) rcs :
  rc db = Some rcs -> NoDup (map rc_product_id rcs).
Proof. intros E. rewrite (rc_keys _ _ E). apply NoDup_nodup. Qed.

Lemma rc_total (db : Database) rcs r :
  rc db = Some rcs -> In r rcs ->
  numeric_to_int8 (total_central_stock db (rc_product_id r))
  = Some (rc_total_stock r).
Proof.
  intros E Hr. apply mapM_Forall2 in E.
  destruct (Forall2_in_r _ _ _ _ E Hr) as [[k g] [Hg Hkr]].
  apply in_group_by in Hg as [_ ->]. simpl in Hkr.
  unfold total_central_stock.
  destruct (numeric_to_int8 _) as [t|] eqn:Et; [|discriminate].
  simpl in Hkr. injection Hkr as <-. simpl.
  rewrite <- Et. do 3 f_equal. apply filter_ext. intros x.
  symmetry. apply eqb_of_N.
Qed.

Lemma rc_absent (db : Database) rcs P :
  rc db = Some rcs -> ~ In P (map rc_product_id rcs) ->
  filter (fun r => (rcp_product_id r =? P)%N) (rc_products db) = [].
Proof.
  intros E Hout. apply filter_none. intros x Hx.
  apply N.eqb_neq. intros <-. apply Hout.
  rewrite (rc_keys _ _ E). apply nodup_In. now apply in_map.
Qed.

Lemma sum_weights_NoDup (av : list available_row) :
  NoDup (map sw_product_id (sum_weights av)).
Proof.
  unfold sum_weights. rewrite map_map. simpl.
  change (NoDup (map fst (group_by N.eq_dec a_product_id av))).
  apply group_by_NoDup.
Qed.

Lemma sum_weights_in (av : list available_row) (a : available_row) :
  In a av ->
  In {| sw_product_id := a_product_id a;
        sw_total_weight :=
          Qsum (map weight
                    (filter (fun a' => (a_product_id a' =? a_product_id a)%N)
                            av)) |}
     (sum_weights av).
Proof.
  intros Ha. unfold sum_weights. apply in_map_iff.
  exists (a_product_id a,
          filter (fun x => eqb_of N.eq_dec (a_product_id x) (a_product_id a))
                 av).
  split.
  - simpl. do 3 f_equal. apply filter_ext. intros x. apply eqb_of_N.
  - apply in_group_by. split; [now apply in_map|reflexivity].
Qed.

Section FirstAllocOfProduct.
Variables (db : Database) (rcs : list rc_row) (P : uuid).
Hypothesis Hrc : rc db = Some rcs.

(** A product of [rc] meets each of its rows of [available] once, with the
    product's total stock and total weight. *)
Lemma first_alloc_of_product (r : rc_row) :
  In r rcs -> rc_product_id r = P ->
  filter (fun fa => (fa_product_id fa =? P)%N)
         (first_alloc (available db) rcs)
  = map (first_alloc_of (rc_total_stock r) (total_weight db P))
        (available_of db P).
Proof.
  intros Hr HrP. unfold first_alloc.
  rewrite (filter_map_join _ _
             (fun y : available_row * rc_row =>
                (a_product_id (fst y) =? P)%N))
    by (intros [a r'] sw; reflexivity).
  rewrite (filter_join _ (fun a => (a_product_id a =? P)%N))
    by (intros a r'; reflexivity).
  fold (available_of db P).
  rewrite (join_single _ (fun _ => r)).
  - rewrite (join_single _
               (fun _ => {| sw_product_id := P;
                            sw_total_weight := total_weight db P |})).
    + rewrite !map_map. reflexivity.
    + intros [a r'] Hx. apply in_map_iff in Hx as [a' [E Ha]].
      injection E as -> ->. apply filter_In in Ha as [Ha HaP].
      apply N.eqb_eq in HaP. simpl.
      apply (filter_key_single sw_product_id).
      * apply sum_weights_NoDup.
      * generalize (sum_weights_in _ _ Ha). now rewrite HaP.
      * simpl. rewrite HaP. apply N.eqb_refl.
      * intros y _ Hy. apply N.eqb_eq in Hy. simpl. congruence.
  - intros a Ha. apply filter_In in Ha as [Ha HaP]. apply N.eqb_eq in HaP.
    apply (filter_key_single rc_product_id).
    + apply (rc_NoDup _ _ Hrc).
    + exact Hr.
    + rewrite HrP, HaP. apply N.eqb_refl.
    + intros y _ Hy. apply N.eqb_eq in Hy. congruence.
Qed.

(** A product without central stock has no row in [first_alloc]. *)
Lemma first_alloc_no_stock :
  ~ In P (map rc_product_id rcs) ->
  filter (fun fa => (fa_product_id fa =? P)%N)
         (first_alloc (available db) rcs) = [].
Proof.
  intros Hout. unfold first_alloc.
  rewrite (filter_map_join _ _
             (fun y : available_row * rc_row =>
                (a_product_id (fst y) =? P)%N))
    by (intros [a r'] sw; reflexivity).
  rewrite (filter_join _ (fun a => (a_product_id a =? P)%N))
    by (intros a r'; reflexivity).
  rewrite (join_none _ (filter _ (available db)) rcs); [reflexivity|].
  intros a Ha. apply filter_In in Ha as [Ha HaP]. apply N.eqb_eq in HaP.
  apply filter_none. intros y Hy. apply N.eqb_neq. intros E.
  apply Hout. rewrite <- HaP, <- E. now apply in_map.
Qed.
End FirstAllocOfProduct.

(** ** [available] and [first_pass] row by row *)

Lemma in_available (db : Database) (a : available_row) :
  In a (available db) <->
  exists bp n s,
    In bp (branch_products db) /\ In n (needs db) /\ In s (stores db)
    /\ bp_branch_id bp = n_branch_id n /\ bp_product_id bp = n_product_id n
    /\ bp_branch_id bp = s_branch_id s
    /\ a = {| a_product_id := bp_product_id bp;
              a_branch_id := bp_branch_id bp;
              a_deficit := deficit bp n;
              a_priority := s_priority s |}.
Proof.
  unfold available. rewrite in_map_iff. split.
  - intros [[[bp n] s] [<- Hx]].
    apply in_join in Hx as [Hx [Hs Es]]. apply in_join in Hx as [Hbp [Hn En]].
    apply andb_true_iff in En as [En1 En2].
    apply N.eqb_eq in En1, En2, Es. simpl in Es.
    exists bp, n, s. tauto.
  - intros [bp [n [s [Hbp [Hn [Hs [E1 [E2 [E3 ->]]]]]]]]].
    exists (bp, n, s). split; [reflexivity|].
    apply in_join. split; [|split; [exact Hs|now apply N.eqb_eq]].
    apply in_join. split; [exact Hbp|split; [exact Hn|]].
    apply andb_true_iff. split; now apply N.eqb_eq.
Qed.

Lemma deficit_nonneg (bp : BranchProduct) (n : Need) : 0 <= deficit bp n.
Proof. apply Q.le_max_l. Qed.

Lemma available_deficit_nonneg (db : Database) (a : available_row) :
  In a (available db) -> 0 <= a_deficit a.
Proof.
  intros Ha.
  apply in_available in Ha as [bp [n [s [_ [_ [_ [_ [_ [_ ->]]]]]]]]].
  apply deficit_nonneg.
Qed.

Lemma available_priority (db : Database) (a : available_row) :
  In a (available db) ->
  exists s, In s (stores db) /\ s_branch_id s = a_branch_id a
            /\ s_priority s = a_priority a.
Proof.
  intros Ha.
  apply in_available in Ha as [bp [n [s [_ [_ [Hs [_ [_ [E ->]]]]]]]]].
  exists s. simpl. auto.
Qed.



Lemma first_pass_of_fields (fa : first_alloc_row) (fp : first_pass_row) :
  first_pass_of fa = Some fp ->
  fp_product_id fp = fa_product_id fa /\ fp_branch_id fp = fa_branch_id fa
  /\ fp_deficit fp = fa_deficit fa /\ fp_priority fp = fa_priority fa
  /\ exists z, floor_share fa = Some z
               /\ fp_shipped fp = Qmin (inject_Z z) (fa_deficit fa).
Proof.
  unfold first_pass_of. destruct (floor_share fa) as [z|]; [|discriminate].
  simpl. intros E. injection E as <-. simpl. repeat split. now exists z.
Qed.




Lemma Forall2_map_l {A B C} (R : B -> C -> Prop) (f : A -> B) l l' :
  Forall2 R (map f l) l' -> Forall2 (fun x y => R (f x) y) l l'.
Proof.
  revert l'. induction l as [|x l IH]; simpl; intros l' H;
    inversion H; subst; constructor; auto.
Qed.

Lemma Forall2_nil_l {A B} (R : A -> B -> Prop) l' : Forall2 R [] l' -> l' = [].
Proof. now inversion 1. Qed.

Section FirstPassOfProduct.
Variables (db : Database) (rcs : list rc_row) (fps : list first_pass_row).
Hypothesis Hrc : rc db = Some rcs.
Hypothesis Hfp : first_pass (first_alloc (available db) rcs) = Some fps.
Variable P : uuid.

Lemma first_pass_rows_Forall2 :
  Forall2 (fun fa fp => first_pass_of fa = Some fp)
          (filter (fun fa => (fa_product_id fa =? P)%N)
                  (first_alloc (available db) rcs))
          (first_pass_product P fps).
Proof.
  apply Forall2_filter; [now apply mapM_Forall2|].
  intros fa fp E. apply first_pass_of_fields in E as [-> _]. reflexivity.
Qed.

Lemma first_pass_no_stock :
  ~ In P (map rc_product_id rcs) -> first_pass_product P fps = [].
Proof.
  intros Hout. generalize first_pass_rows_Forall2.
  rewrite (first_alloc_no_stock db _ _ Hout). apply Forall2_nil_l.
Qed.

Variable r : rc_row.
Hypothesis Hr : In r rcs.
Hypothesis HrP : rc_product_id r = P.

Lemma first_pass_of_product :
  Forall2 (fun a fp =>
             first_pass_of
               (first_alloc_of (rc_total_stock r) (total_weight db P) a)
             = Some fp)
          (available_of db P) (first_pass_product P fps).
Proof.
  apply (@Forall2_map_l _ _ _ (fun fa fp => first_pass_of fa = Some fp)).
  rewrite <- (first_alloc_of_product db rcs P Hrc r Hr HrP).
  apply first_pass_rows_Forall2.
Qed.



End FirstPassOfProduct.

(** ** [remaining], [pass1] and [second_pass] of one product *)

Section RemainderOfProduct.
Variables (rcs : list rc_row) (fps : list first_pass_row) (P : uuid).
Hypothesis Hnd : NoDup (map rc_product_id rcs).
Variable r : rc_row.
Hypothesis Hr : In r rcs.
Hypothesis HrP : rc_product_id r = P.

Lemma join_rc_of_product :
  join (fun fp r' => (rc_product_id r' =? fp_product_id fp)%N)
       (first_pass_product P fps) rcs
  = map (fun fp => (fp, r)) (first_pass_product P fps).
Proof.
  apply (join_single _ (fun _ => r)).
  intros fp Hin. apply filter_In in Hin as [_ HfpP].
  apply N.eqb_eq in HfpP.
  apply (filter_key_single rc_product_id); auto.
  - rewrite HrP, HfpP. apply N.eqb_refl.
  - intros y _ Hy. apply N.eqb_eq in Hy. congruence.
Qed.

Lemma remaining_NoDup : NoDup (map rem_product_id (remaining fps rcs)).
Proof.
  unfold remaining. rewrite map_map. simpl.
  rewrite <- (map_map fst fst), group_by_keys.
  apply NoDup_map_of_inj; [apply NoDup_nodup|].
  intros k1 k2 H1 H2 E.
  apply nodup_In, in_map_iff in H1 as [[fp1 r1] [<- H1]].
  apply nodup_In, in_map_iff in H2 as [[fp2 r2] [<- H2]].
  apply in_join in H1 as [_ [Hr1 E1]]. apply in_join in H2 as [_ [Hr2 E2]].
  apply N.eqb_eq in E1, E2. simpl in *.
  assert (r1 = r2)
    by (apply (NoDup_map_in_inj rc_product_id rcs); auto; congruence).
  subst r2. now rewrite E.
Qed.

Lemma remaining_in (fp : first_pass_row) :
  In fp (first_pass_product P fps) ->
  In {| rem_product_id := P; rem_remaining := remaining_of_product fps P r |}
     (remaining fps rcs).
Proof.
  intros Hin. unfold remaining. apply in_map_iff.
  set (jn := join (fun fp r' => (rc_product_id r' =? fp_product_id fp)%N)
                  fps rcs).
  set (keyfn := fun x : first_pass_row * rc_row =>
                  (fp_product_id (fst x), rc_total_stock (snd x))).
  exists ((P, rc_total_stock r),
          filter (fun x => eqb_of uuid_Z_dec (keyfn x) (P, rc_total_stock r))
                 jn).
  assert (Hfilter :
            filter (fun x => eqb_of uuid_Z_dec (keyfn x) (P, rc_total_stock r))
                   jn
            = map (fun fp => (fp, r)) (first_pass_product P fps)).
  { rewrite (filter_ext_in _ (fun x => (fp_product_id (fst x) =? P)%N)).
    - unfold jn.
      rewrite (filter_join _ (fun fp => (fp_product_id fp =? P)%N))
        by reflexivity.
      apply join_rc_of_product.
    - intros [fp' r'] Hx. apply in_join in Hx as [_ [Hr' E']].
      apply N.eqb_eq in E'. unfold keyfn. simpl.
      destruct (fp_product_id fp' =? P)%N eqn:EP.
      + apply N.eqb_eq in EP. apply eqb_of_true.
        assert (r' = r)
          by (apply (NoDup_map_in_inj rc_product_id rcs); auto; congruence).
        subst r'. now rewrite EP.
      + apply N.eqb_neq in EP.
        destruct (eqb_of uuid_Z_dec _ _) eqn:Ek; [|reflexivity].
        apply eqb_of_true in Ek. congruence. }
  split.
  - simpl. unfold remaining_of_product. rewrite Hfilter, map_map. reflexivity.
  - apply in_group_by. split; [|reflexivity].
    apply in_map_iff. exists (fp, r). apply filter_In in Hin as [Hin HfpP].
    apply N.eqb_eq in HfpP. split; [unfold keyfn; simpl; now rewrite HfpP|].
    apply in_join. split; [exact Hin|split; [exact Hr|]].
    apply N.eqb_eq. congruence.
Qed.

Lemma pass1_of_product :
  filter (fun p1 => (p1_product_id p1 =? P)%N)
         (pass1 fps (remaining fps rcs))
  = map (pass1_of (remaining_of_product fps P r)) (first_pass_product P fps).
Proof.
  unfold pass1.
  rewrite (filter_map_join _ _ (fun fp => (fp_product_id fp =? P)%N))
    by reflexivity.
  fold (first_pass_product P fps).
  rewrite (join_single _
             (fun _ => {| rem_product_id := P;
                          rem_remaining := remaining_of_product fps P r |})).
  - rewrite map_map. reflexivity.
  - intros fp Hin. apply (filter_key_single rem_product_id).
    + apply remaining_NoDup.
    + now apply (remaining_in fp).
    + apply filter_In in Hin as [_ HfpP]. apply N.eqb_eq in HfpP.
      simpl. rewrite HfpP. apply N.eqb_refl.
    + intros y _ Hy. apply N.eqb_eq in Hy.
      apply filter_In in Hin as [_ HfpP]. apply N.eqb_eq in HfpP.
      simpl. congruence.
Qed.
End RemainderOfProduct.

Lemma pass1_no_rows (fps : list first_pass_row) rems (P : uuid) :
  first_pass_product P fps = [] ->
  filter (fun p1 => (p1_product_id p1 =? P)%N) (pass1 fps rems) = [].
Proof.
  intros E. unfold pass1.
  rewrite (filter_map_join _ _ (fun fp => (fp_product_id fp =? P)%N))
    by reflexivity.
  fold (first_pass_product P fps). now rewrite E.
Qed.

(** The row of [second_pass] made of a numbered row of [pass1]. *)
Lemma second_pass_of_product `{RowOrder} (p1 : list pass1_row) (P : uuid) :
  filter (fun sp => (sp_product_id sp =? P)%N) (second_pass p1)
  = map (fun x : Z * pass1_row =>
           {| sp_branch_id := p1_branch_id (snd x);
              sp_product_id := p1_product_id (snd x);
              sp_shipment_qty :=
                p1_shipped (snd x)
                + inject_Z (bonus (fst x) (p1_remaining (snd x))) |})
        (number (order_by_desc p1_priority
                   (filter (fun p1 => (p1_product_id p1 =? P)%N) p1))).
Proof.
  unfold second_pass. rewrite filter_map_swap. simpl.
  now rewrite (row_number_partition p1_product_id p1_priority p1 P).
Qed.


Section SecondPassOfProduct.
Context `{RowOrder}.
Variables (db : Database) (rcs : list rc_row) (fps : list first_pass_row).
Hypothesis Hrc : rc db = Some rcs.
Hypothesis Hfp : first_pass (first_alloc (available db) rcs) = Some fps.
Variable P : uuid.

Local Abbreviation sps := (second_pass (pass1 fps (remaining fps rcs))).

Lemma second_pass_no_stock :
  ~ In P (map rc_product_id rcs) ->
  filter (fun sp => (sp_product_id sp =? P)%N) sps = [].
Proof.
  intros Hout.
  rewrite second_pass_of_product, pass1_no_rows.
  - now rewrite order_by_desc_nil.
  - now apply (first_pass_no_stock db rcs fps Hfp).
Qed.

Variable r : rc_row.
Hypothesis Hr : In r rcs.
Hypothesis HrP : rc_product_id r = P.
Hypothesis HT : (0 <= rc_total_stock r)%Z.



End SecondPassOfProduct.

(** ** Whole quantities and the cast of the [INSERT] *)

Lemma numeric_round_comp (q q' : Q) :
  q == q' -> numeric_round q = numeric_round q'.
Proof.
  intros E. unfold numeric_round, Qceiling.
  rewrite (Qleb_comp 0 0 (Qeq_refl 0) q q' E).
  destruct (Qle_bool 0 q').
  - apply Qfloor_comp. now rewrite E.
  - f_equal. apply Qfloor_comp. now rewrite E.
Qed.

Lemma numeric_round_nonneg (q : Q) : 0 <= q -> (0 <= numeric_round q)%Z.
Proof.
  intros Hq. unfold numeric_round.
  rewrite (proj2 (Qle_bool_iff 0 q) Hq).
  rewrite <- (Qfloor_Z 0). apply Qfloor_resp_le.
  change (inject_Z 0) with 0. lra.
Qed.

Lemma whole_iff (q : Q) : whole q = true <-> exists z, q == inject_Z z.
Proof.
  unfold whole. rewrite Qeq_bool_iff. split.
  - intros E. now exists (Qfloor q).
  - intros [z E]. rewrite (Qfloor_comp _ _ E), Qfloor_Z. exact E.
Qed.

Lemma deficit_whole (bp : BranchProduct) (n : Need) :
  whole (bp_stock bp) = true -> whole (bp_reserve bp) = true ->
  whole (bp_transit bp) = true ->
  exists z, deficit bp n == inject_Z z.
Proof.
  intros Hs Hr Ht.
  apply whole_iff in Hs as [zs Hs], Hr as [zr Hr], Ht as [zt Ht].
  unfold deficit.
  set (x := inject_Z (n_need n)
            - (bp_stock bp + bp_transit bp - bp_reserve bp)).
  assert (Hx : x == inject_Z (n_need n - (zs + zt - zr))).
  { unfold x. unfold Zminus.
    rewrite !inject_Z_plus, !inject_Z_opp, !inject_Z_plus, inject_Z_opp,
      Hs, Hr, Ht. ring. }
  destruct (Q.max_dec 0 x) as [E|E].
  - exists 0%Z. exact E.
  - eexists. rewrite E. exact Hx.
Qed.

Lemma available_whole (db : Database) (a : available_row) :
  whole_branch_stock db = true -> In a (available db) ->
  exists z, a_deficit a == inject_Z z.
Proof.
  intros Hw Ha.
  apply in_available in Ha as [bp [n [s [Hbp [_ [_ [_ [_ [_ ->]]]]]]]]].
  unfold whole_branch_stock in Hw. rewrite forallb_forall in Hw.
  specialize (Hw bp Hbp). apply andb_true_iff in Hw as [Hw Ht].
  apply andb_true_iff in Hw as [Hs Hr]. simpl. now apply deficit_whole.
Qed.

Lemma in_first_alloc (av : list available_row) (rcs : list rc_row) fa :
  In fa (first_alloc av rcs) ->
  exists a r, In a av /\ In r rcs /\ rc_product_id r = a_product_id a
              /\ fa = first_alloc_of (rc_total_stock r) (fa_total_weight fa) a.
Proof.
  unfold first_alloc. intros Hfa.
  apply in_map_iff in Hfa as [[[a r] sw] [<- Hx]].
  apply in_join in Hx as [Hx _]. apply in_join in Hx as [Ha [Hr E]].
  apply N.eqb_eq in E. exists a, r. auto.
Qed.

Lemma in_pass1 (fps : list first_pass_row) rems p1 :
  In p1 (pass1 fps rems) ->
  exists fp, In fp fps /\ p1_product_id p1 = fp_product_id fp
             /\ p1_shipped p1 = fp_shipped fp
             /\ p1_branch_id p1 = fp_branch_id fp.
Proof.
  unfold pass1. intros Hp. apply in_map_iff in Hp as [[fp rem] [<- Hx]].
  apply in_join in Hx as [Hfp _]. exists fp. auto.
Qed.

Lemma in_second_pass `{RowOrder} (p1s : list pass1_row) sp :
  In sp (second_pass p1s) ->
  exists i p1, In p1 p1s /\ sp_product_id sp = p1_product_id p1
               /\ sp_branch_id sp = p1_branch_id p1
               /\ sp_shipment_qty sp
                  = p1_shipped p1 + inject_Z (bonus i (p1_remaining p1)).
Proof.
  unfold second_pass. intros Hsp. apply in_map_iff in Hsp as [[i p1] [<- Hx]].
  exists i, p1. simpl. repeat split.
  apply (Permutation_in _ (row_number_perm p1_product_id p1_priority p1s)).
  apply in_map_iff. now exists (i, p1).
Qed.

Lemma first_pass_whole (db : Database) rcs fps fp :
  whole_branch_stock db = true ->
  first_pass (first_alloc (available db) rcs) = Some fps -> In fp fps ->
  exists z, fp_shipped fp == inject_Z z.
Proof.
  intros Hw Hfp Hin. apply mapM_Forall2 in Hfp.
  destruct (Forall2_in_r _ _ _ _ Hfp Hin) as [fa [Hfa E]].
  apply first_pass_of_fields in E as [_ [_ [_ [_ [z [_ ->]]]]]].
  apply in_first_alloc in Hfa as [a [r [Ha [_ [_ ->]]]]]. simpl.
  destruct (available_whole db a Hw Ha) as [d Hd].
  destruct (Q.min_dec (inject_Z z) (a_deficit a)) as [E|E].
  - exists z. exact E.
  - exists d. rewrite E. exact Hd.
Qed.

Lemma second_pass_whole `{RowOrder} (db : Database) rcs fps rems sp :
  whole_branch_stock db = true ->
  first_pass (first_alloc (available db) rcs) = Some fps ->
  In sp (second_pass (pass1 fps rems)) ->
  exists z, sp_shipment_qty sp == inject_Z z.
Proof.
  intros Hw Hfp Hsp.
  apply in_second_pass in Hsp as [i [p1 [Hp1 [_ [_ ->]]]]].
  apply in_pass1 in Hp1 as [fp [Hin [_ [-> _]]]].
  destruct (first_pass_whole db rcs fps fp Hw Hfp Hin) as [z Hz].
  exists (z + bonus i (p1_remaining p1))%Z.
  rewrite inject_Z_plus, Hz. reflexivity.
Qed.

Lemma insert_shipment_fields (sp : second_pass_row) (sh : Shipment) :
  insert_shipment sp = Some sh ->
  sh_branch_id sh = sp_branch_id sp /\ sh_product_id sh = sp_product_id sp
  /\ sh_shipment_qty sh = numeric_round (sp_shipment_qty sp).
Proof.
  unfold insert_shipment, numeric_to_int4.
  destruct (_ && _); [|discriminate]. simpl.
  intros E. injection E as <-. simpl. auto.
Qed.

Lemma Qpositive_iff (q : Q) : Qpositive q = true <-> 0 < q.
Proof.
  unfold Qpositive. rewrite negb_true_iff. split.
  - intros E. apply Qnot_le_lt. intros Hle.
    apply Qle_bool_iff in Hle. congruence.
  - intros Hlt. destruct (Qle_bool q 0) eqn:E; [|reflexivity].
    apply Qle_bool_iff in E. lra.
Qed.

(** The rows a successful [INSERT] of [second_pass] writes. *)
Lemma insert_second_pass_Forall2 (sps : list second_pass_row) shs :
  insert_second_pass sps = Some shs ->
  Forall2 (fun sp sh => insert_shipment sp = Some sh)
          (filter (fun sp => Qpositive (sp_shipment_qty sp)) sps) shs.
Proof. apply mapM_Forall2. Qed.

Lemma insert_second_pass_of_product (sps : list second_pass_row) shs P :
  insert_second_pass sps = Some shs ->
  Forall2 (fun sp sh => insert_shipment sp = Some sh)
          (filter (fun sp => Qpositive (sp_shipment_qty sp))
                  (filter (fun sp => (sp_product_id sp =? P)%N) sps))
          (of_product P shs).
Proof.
  intros E. apply insert_second_pass_Forall2 in E.
  rewrite filter_filter.
  rewrite (filter_ext _ (fun sp => Qpositive (sp_shipment_qty sp)
                                   && (sp_product_id sp =? P)%N))
    by (intros; apply andb_comm).
  rewrite <- filter_filter. apply Forall2_filter; [exact E|].
  intros sp sh Hi. apply insert_shipment_fields in Hi as [_ [-> _]].
  reflexivity.
Qed.

(** No row of the first statement has a negative quantity. *)
Lemma insert_second_pass_nonneg (sps : list second_pass_row) shs sh :
  insert_second_pass sps = Some shs -> In sh shs ->
  (0 <= sh_shipment_qty sh)%Z.
Proof.
  intros E Hsh. apply insert_second_pass_Forall2 in E.
  destruct (Forall2_in_r _ _ _ _ E Hsh) as [sp [Hsp Hi]].
  apply filter_In in Hsp as [_ Hpos]. apply Qpositive_iff in Hpos.
  apply insert_shipment_fields in Hi as [_ [_ ->]].
  apply numeric_round_nonneg. lra.
Qed.

Lemma numeric_to_int8_round (q : Q) (z : Z) :
  numeric_to_int8 q = Some z -> z = numeric_round q.
Proof.
  unfold numeric_to_int8. destruct (_ && _); congruence.
Qed.


(** ** The first statement within the central stock *)

Section DistributionBound.
Context `{RowOrder}.
Variables (db : Database) (shs : list Shipment) (P : uuid).
Hypothesis Hrun : distribution_sql db = Some shs.
Hypothesis Hwhole : whole_branch_stock db = true.
Hypothesis Hprio : forall s, In s (stores db) -> (0 <= s_priority s)%Z.
Hypothesis Hstock :
  forall r, In r (rc_products db) -> rcp_product_id r = P ->
            0 <= rcp_stock r.

End DistributionBound.

(** * The second statement *)

Lemma number_filter_le {A} (l : list A) (L : Z) :
  filter (fun x : Z * A => (fst x <=? L)%Z) (number l)
  = number (firstn (Z.to_nat L) l).
Proof.
  unfold number.
  assert (G : forall s,
             filter (fun x : Z * A => (fst x <=? L)%Z)
                    (combine (map Z.of_nat (seq (S s) (length l))) l)
             = combine
                 (map Z.of_nat
                      (seq (S s)
                           (length (firstn (Z.to_nat (L - Z.of_nat s)) l))))
                 (firstn (Z.to_nat (L - Z.of_nat s)) l)).
  { induction l as [|x l IH]; intros s.
    - now rewrite firstn_nil.
    - cbn [length seq map combine filter fst].
      destruct (Z.of_nat (S s) <=? L)%Z eqn:E.
      + apply Z.leb_le in E.
        replace (Z.to_nat (L - Z.of_nat s))
          with (S (Z.to_nat (L - Z.of_nat (S s)))) by lia.
        cbn [firstn length seq map combine]. f_equal. apply IH.
      + apply Z.leb_gt in E.
        replace (Z.to_nat (L - Z.of_nat s)) with 0%nat by lia.
        cbn [firstn length seq map combine].
        apply filter_none. intros [i y] Hy. apply in_combine_l in Hy.
        apply in_map_iff in Hy as [n [<- Hn]]. apply in_seq in Hn.
        apply Z.leb_gt. simpl. lia. }
  specialize (G 0%nat). now rewrite Z.sub_0_r in G.
Qed.

Lemma leftovers_NoDup (zs : list zeroed_row) :
  NoDup (map l_product_id (leftovers zs)).
Proof.
  unfold leftovers. rewrite map_map. simpl.
  change (NoDup (map fst (group_by N.eq_dec z_product_id zs))).
  apply group_by_NoDup.
Qed.

Lemma in_leftovers (zs : list zeroed_row) (l : leftovers_row) :
  In l (leftovers zs) <->
  In (l_product_id l) (map z_product_id zs)
  /\ l = {| l_product_id := l_product_id l;
            l_leftover := leftover_of zs (l_product_id l) |}.
Proof.
  unfold leftovers, leftover_of. rewrite in_map_iff. split.
  - intros [[k g] [<- Hg]]. apply in_group_by in Hg as [Hk ->]. simpl.
    split; [exact Hk|]. do 3 f_equal. apply filter_ext. intros z.
    apply eqb_of_N.
  - intros [Hk ->]. simpl.
    exists (l_product_id l,
            filter (fun x => eqb_of N.eq_dec (z_product_id x) (l_product_id l))
                   zs).
    split.
    + simpl. do 3 f_equal. apply filter_ext. intros z. apply eqb_of_N.
    + apply in_group_by. auto.
Qed.

Section AllocOfProduct.
Context `{RowOrder}.
Variables (ls : list leftovers_row) (avs : list avail_row).
Hypothesis Hnd : NoDup (map l_product_id ls).

Lemma alloc_partition (P : uuid) :
  filter (fun al => (al_product_id al =? P)%N) (alloc ls avs)
  = map alloc_of
      (number
         (order_by_desc
            (fun x : leftovers_row * avail_row => av_priority (snd x))
            (join (fun l a => (av_product_id a =? l_product_id l)%N)
                  (filter (fun l => (l_product_id l =? P)%N) ls) avs))).
Proof.
  unfold alloc. rewrite filter_map_swap. cbn [alloc_of al_product_id].
  rewrite (row_number_partition
             (fun x : leftovers_row * avail_row => l_product_id (fst x))).
  now rewrite (filter_join _ (fun l => (l_product_id l =? P)%N))
    by reflexivity.
Qed.

Lemma alloc_of_product (l : leftovers_row) :
  In l ls ->
  filter (fun al => (al_product_id al =? l_product_id l)%N) (alloc ls avs)
  = map alloc_of
      (number
         (order_by_desc
            (fun x : leftovers_row * avail_row => av_priority (snd x))
            (map (pair l)
                 (filter (fun a => (av_product_id a =? l_product_id l)%N)
                         avs)))).
Proof.
  intros Hl. rewrite alloc_partition.
  rewrite (filter_key_single l_product_id _ l ls Hnd Hl).
  - unfold join. simpl. now rewrite app_nil_r.
  - apply N.eqb_refl.
  - intros y _ Hy. now apply N.eqb_eq in Hy.
Qed.

Lemma alloc_no_leftover (P : uuid) :
  ~ In P (map l_product_id ls) ->
  filter (fun al => (al_product_id al =? P)%N) (alloc ls avs) = [].
Proof.
  intros Hout. rewrite alloc_partition.
  rewrite (filter_none (fun l => (l_product_id l =? P)%N) ls).
  - unfold join. simpl. now rewrite order_by_desc_nil.
  - intros l Hl. apply N.eqb_neq. intros E. apply Hout.
    rewrite <- E. now apply in_map.
Qed.
End AllocOfProduct.

Lemma insert_alloc_of_product (als : list alloc_row) (P : uuid) :
  of_product P (insert_alloc als)
  = insert_alloc (filter (fun al => (al_product_id al =? P)%N) als).
Proof.
  unfold of_product, insert_alloc. rewrite filter_map_swap. simpl.
  f_equal. rewrite !filter_filter. apply filter_ext. intros al.
  apply andb_comm.
Qed.

Lemma Zsum_units (P : uuid) (avs : list avail_row) :
  Zsum (map sh_shipment_qty (map (unit_shipment P) avs))
  = Z.of_nat (length avs).
Proof.
  induction avs as [|a avs IH]; [reflexivity|].
  cbn [map Zsum fold_right length unit_shipment sh_shipment_qty].
  fold (Zsum (map sh_shipment_qty (map (unit_shipment P) avs))). lia.
Qed.

Section Reallocation.
Context `{RowOrder}.
Variables (db : Database) (shs : list Shipment).

Local Abbreviation zs := (zeroed (to_zero db shs) shs).

Lemma ranked_perm (l : leftovers_row) :
  Permutation (eligible db (l_product_id l)) (ranked db l).
Proof.
  unfold ranked.
  rewrite <- (order_by_desc_perm _
                (fun x : leftovers_row * avail_row => av_priority (snd x))).
  rewrite map_map. simpl. now rewrite map_id.
Qed.

Lemma ranked_sorted (l : leftovers_row) :
  StronglySorted (fun a b => (av_priority b <= av_priority a)%Z)
                 (ranked db l).
Proof.
  unfold ranked.
  generalize (order_by_desc_sorted _
                (fun x : leftovers_row * avail_row => av_priority (snd x))
                (map (pair l) (eligible db (l_product_id l)))).
  induction 1 as [|x xs _ IH Hx]; simpl; constructor; [exact IH|].
  rewrite Forall_forall in *. intros b Hb.
  apply in_map_iff in Hb as [y [<- Hy]]. now apply Hx.
Qed.

(** The units appended for the product of a leftover row: one for each of
    the first [leftover] ranked rows. *)
Lemma reallocated_of_product (l : leftovers_row) :
  In l (leftovers zs) ->
  of_product (l_product_id l) (reallocated db shs)
  = map (unit_shipment (l_product_id l))
        (firstn (Z.to_nat (l_leftover l)) (ranked db l)).
Proof.
  intros Hl. unfold reallocated.
  rewrite insert_alloc_of_product,
    (alloc_of_product _ _ (leftovers_NoDup zs) l Hl).
  fold (eligible db (l_product_id l)).
  set (ord := order_by_desc
                (fun x : leftovers_row * avail_row => av_priority (snd x))
                (map (pair l) (eligible db (l_product_id l)))).
  assert (Hord : forall i x, In (i, x) (number ord) -> fst x = l).
  { intros i x Hx. apply in_number in Hx as [_ Hx].
    apply order_by_desc_in, in_map_iff in Hx as [a [<- _]]. reflexivity. }
  unfold insert_alloc. rewrite filter_map_swap, map_map.
  cbn [alloc_of al_add_qty al_branch_id al_product_id].
  rewrite (filter_ext_in _ (fun x => (fst x <=? l_leftover l)%Z)).
  - rewrite (map_ext_in _
               (fun x => unit_shipment (l_product_id l) (snd (snd x)))).
    + rewrite number_filter_le.
      rewrite <- (map_map (fun x => snd (snd x))
                          (unit_shipment (l_product_id l))).
      rewrite <- (map_map snd snd), number_snd. unfold ranked.
      fold ord. now rewrite firstn_map.
    + intros [i x] Hx. apply filter_In in Hx as [Hx Hi].
      simpl in Hi. simpl. rewrite (Hord i x Hx), Hi. reflexivity.
  - intros [i x] Hx. simpl. rewrite (Hord i x Hx).
    now destruct (i <=? l_leftover l)%Z.
Qed.

Lemma reallocated_no_leftover (P : uuid) :
  ~ In P (map l_product_id (leftovers zs)) ->
  of_product P (reallocated db shs) = [].
Proof.
  intros Hout. unfold reallocated.
  now rewrite insert_alloc_of_product, (alloc_no_leftover _ _ P Hout).
Qed.

Lemma reallocated_sum (l : leftovers_row) :
  In l (leftovers zs) ->
  product_shipment (reallocated db shs) (l_product_id l)
  = Z.min (Z.max 0 (l_leftover l))
          (Z.of_nat (length (eligible db (l_product_id l)))).
Proof.
  intros Hl. unfold product_shipment.
  rewrite (reallocated_of_product l Hl), Zsum_units, length_firstn.
  rewrite <- (Permutation_length (ranked_perm l)). lia.
Qed.
End Reallocation.

(** ** Pruning *)

Lemma in_branch_sums (shs : list Shipment) (bs : branch_sums_row) :
  In bs (branch_sums shs) <->
  In (bs_branch_id bs) (map sh_branch_id shs)
  /\ bs_total_shipment bs = total_shipment shs (bs_branch_id bs).
Proof.
  unfold branch_sums, total_shipment, of_branch. rewrite in_map_iff. split.
  - intros [[k g] [<- Hg]]. apply in_group_by in Hg as [Hk ->]. simpl.
    split; [exact Hk|]. do 2 f_equal. apply filter_ext. intros sh.
    apply eqb_of_N.
  - intros [Hk E]. destruct bs as [b t]. simpl in *. subst t.
    exists (b, filter (fun x => eqb_of N.eq_dec (sh_branch_id x) b) shs).
    split.
    + simpl. do 3 f_equal. apply filter_ext. intros sh. apply eqb_of_N.
    + apply in_group_by. auto.
Qed.

Lemma in_to_zero (db : Database) (shs : list Shipment) (b : uuid) :
  In b (to_zero db shs) <->
  In b (map sh_branch_id shs)
  /\ exists s, In s (stores db) /\ s_branch_id s = b
               /\ (total_shipment shs b < s_min_shipment s)%Z.
Proof.
  unfold to_zero. rewrite in_map_iff. split.
  - intros [[bs s] [<- Hx]]. apply filter_In in Hx as [Hx Hlt].
    apply in_join in Hx as [Hbs [Hs E]]. apply N.eqb_eq in E.
    apply in_branch_sums in Hbs as [Hb Ht]. simpl in *.
    apply Z.ltb_lt in Hlt. rewrite Ht in Hlt.
    split; [exact Hb|]. exists s. auto.
  - intros [Hb [s [Hs [E Hlt]]]].
    exists ({| bs_branch_id := b; bs_total_shipment := total_shipment shs b |},
            s).
    split; [reflexivity|]. apply filter_In. split.
    + apply in_join. split; [|split; [exact Hs|]].
      * apply in_branch_sums. simpl. auto.
      * simpl. apply N.eqb_eq. auto.
    + simpl. now apply Z.ltb_lt.
Qed.

Lemma deleted_iff (tz : list uuid) (sh : Shipment) :
  deleted tz sh = true <-> In (sh_branch_id sh) tz.
Proof.
  unfold deleted. rewrite existsb_exists. split.
  - intros [b [Hb E]]. apply N.eqb_eq in E. now rewrite E.
  - intros Hin. exists (sh_branch_id sh). split; [exact Hin|apply N.eqb_refl].
Qed.

Lemma after_delete_pruned (tz : list uuid) (shs : list Shipment) (b : uuid) :
  In b tz -> of_branch b (after_delete tz shs) = [].
Proof.
  intros Hb. unfold of_branch, after_delete. rewrite filter_filter.
  apply filter_none. intros sh _.
  destruct (sh_branch_id sh =? b)%N eqn:E; [|apply andb_false_r].
  apply N.eqb_eq in E. rewrite <- E in Hb.
  apply deleted_iff in Hb. now rewrite Hb.
Qed.

Lemma after_delete_kept (tz : list uuid) (shs : list Shipment) (b : uuid) :
  ~ In b tz -> of_branch b (after_delete tz shs) = of_branch b shs.
Proof.
  intros Hb. unfold of_branch, after_delete. rewrite filter_filter.
  apply filter_ext. intros sh.
  destruct (sh_branch_id sh =? b)%N eqn:E; [|apply andb_false_r].
  apply N.eqb_eq in E. rewrite andb_true_r.
  destruct (deleted tz sh) eqn:D; [|reflexivity].
  apply deleted_iff in D. congruence.
Qed.

(** A product's shipments split into the rows kept and the leftover pool. *)
Lemma product_split (tz : list uuid) (shs : list Shipment) (P : uuid) :
  product_shipment shs P
  = (product_shipment (after_delete tz shs) P
     + leftover_of (zeroed tz shs) P)%Z.
Proof.
  unfold product_shipment, leftover_of, zeroed, after_delete, of_product.
  rewrite (Zsum_filter_split (deleted tz) sh_shipment_qty
             (filter (fun sh => (sh_product_id sh =? P)%N) shs)).
  rewrite filter_map_swap, map_map. simpl.
  rewrite !filter_filter.
  rewrite (filter_ext (fun x => deleted tz x && (sh_product_id x =? P)%N)
             (fun x => (sh_product_id x =? P)%N && deleted tz x))
    by (intros; apply andb_comm).
  rewrite (filter_ext
             (fun x => negb (deleted tz x) && (sh_product_id x =? P)%N)
             (fun x => (sh_product_id x =? P)%N && negb (deleted tz x)))
    by (intros; apply andb_comm).
  apply Z.add_comm.
Qed.

Lemma leftover_of_nonneg (tz : list uuid) (shs : list Shipment) (P : uuid) :
  (forall sh, In sh shs -> (0 <= sh_shipment_qty sh)%Z) ->
  (0 <= leftover_of (zeroed tz shs) P)%Z.
Proof.
  intros Hq. apply Zsum_nonneg, Forall_forall. intros q Hin.
  apply in_map_iff in Hin as [z [<- Hz]]. apply filter_In in Hz as [Hz _].
  apply in_map_iff in Hz as [sh [<- Hsh]]. apply filter_In in Hsh as [Hsh _].
  simpl. auto.
Qed.

Lemma product_shipment_app (l l' : list Shipment) (P : uuid) :
  product_shipment (l ++ l') P
  = (product_shipment l P + product_shipment l' P)%Z.
Proof.
  unfold product_shipment, of_product.
  now rewrite filter_app, map_app, Zsum_app.
Qed.


(** * Windows that leave the engine no choice *)

Lemma unique_Z_NoDup (l : list Z) : unique Z.eqb l = true -> NoDup l.
Proof.
  induction l as [|x l IH]; simpl; [constructor|].
  intros E. apply andb_true_iff in E as [E1 E2]. constructor; auto.
  intros Hin. apply negb_true_iff in E1.
  assert (existsb (Z.eqb x) l = true)
    by (apply existsb_exists; exists x; split; [auto|apply Z.eqb_refl]).
  congruence.
Qed.

Lemma sorted_perm_unique {A} (key : A -> Z) (l1 l2 : list A) :
  Permutation l1 l2 ->
  StronglySorted (fun x y => (key y <= key x)%Z) l1 ->
  StronglySorted (fun x y => (key y <= key x)%Z) l2 ->
  NoDup (map key l1) -> l1 = l2.
Proof.
  revert l2. induction l1 as [|x l1 IH]; intros l2 Hp H1 H2 Hnd.
  - now apply Permutation_nil in Hp.
  - destruct l2 as [|y l2];
      [apply Permutation_sym, Permutation_nil in Hp; discriminate|].
    inversion H1 as [|? ? H1' Hx]; inversion H2 as [|? ? H2' Hy]; subst.
    inversion Hnd as [|? ? Hxn Hnd']; subst.
    assert (x = y).
    { assert (Hyin : In y (x :: l1))
        by (apply (Permutation_in _ (Permutation_sym Hp)); simpl; auto).
      assert (Hxin : In x (y :: l2))
        by (apply (Permutation_in _ Hp); simpl; auto).
      destruct Hyin as [E|Hyin]; [exact E|].
      destruct Hxin as [E|Hxin]; [now symmetry|].
      rewrite Forall_forall in Hx, Hy.
      specialize (Hx y Hyin). specialize (Hy x Hxin).
      exfalso. apply Hxn. replace (key x) with (key y) by lia.
      now apply in_map. }
    subst y. f_equal. apply IH; auto. now apply Permutation_cons_inv in Hp.
Qed.

Lemma order_by_desc_distinct `{RowOrder} {A} (key : A -> Z) (l : list A) :
  unique Z.eqb (map key l) = true -> order_by_desc key l = sort_desc key l.
Proof.
  intros E. symmetry. apply (sorted_perm_unique key).
  - rewrite <- (@order_by_desc_perm stable_order A key l).
    apply order_by_desc_perm.
  - apply (@order_by_desc_sorted stable_order A key l).
  - apply order_by_desc_sorted.
  - apply (Permutation_NoDup
             (Permutation_map key (@order_by_desc_perm stable_order A key l))).
    now apply unique_Z_NoDup.
Qed.

Lemma row_number_distinct `{RowOrder} {A} (part : A -> uuid) (key : A -> Z)
    (l : list A) :
  distinct_in_partitions part key l = true ->
  row_number part key l = @row_number stable_order A part key l.
Proof.
  unfold distinct_in_partitions, row_number. rewrite forallb_forall.
  intros Hd. apply flat_map_ext_in. intros g Hg.
  now rewrite (order_by_desc_distinct key (snd g) (Hd g Hg)).
Qed.

Lemma second_pass_rows_order_free `{RowOrder} (db : Database) :
  distribution_order_free db = true ->
  second_pass_rows db = @second_pass_rows stable_order db.
Proof.
  unfold distribution_order_free, second_pass_rows.
  destruct (rc db) as [rcs|]; [|reflexivity].
  destruct (first_pass _) as [fps|]; [|reflexivity].
  intros E. unfold second_pass. now rewrite (row_number_distinct _ _ _ E).
Qed.

Lemma distribution_sql_order_free `{RowOrder} (db : Database) :
  distribution_order_free db = true ->
  distribution_sql db = @distribution_sql stable_order db.
Proof.
  intros E. unfold distribution_sql.
  now rewrite (second_pass_rows_order_free db E).
Qed.

(** When no window has two rows of equal priority in a partition, the table
    left by the script does not depend on the engine's row order. *)
Lemma distribute_order_free `{RowOrder} (db : Database) :
  order_free db = true -> distribute db = @distribute stable_order db.
Proof.
  unfold order_free, distribute. intros E.
  apply andb_true_iff in E as [E1 E2].
  rewrite (distribution_sql_order_free db E1).
  destruct (@distribution_sql stable_order db) as [shs|]; [|reflexivity].
  unfold adjustment_sql, reallocated, alloc.
  now rewrite (row_number_distinct _ _ _ E2).
Qed.

(** A table in which no branch is below its [min_shipment] is left as it
    is. *)
Lemma adjustment_nothing_pruned `{RowOrder} (db : Database)
    (shs : list Shipment) :
  to_zero db shs = [] -> adjustment_sql db shs = shs.
Proof.
  intros E. unfold adjustment_sql, reallocated. rewrite E.
  unfold after_delete, zeroed, deleted. simpl.
  rewrite filter_true, filter_false. simpl. apply app_nil_r.
Qed.

(** ** Rows of the first statement and their branches *)

Lemma mapM_None {A B} (f : A -> option B) (l : list A) :
  mapM f l = None -> exists x, In x l /\ f x = None.
Proof.
  induction l as [|x l IH]; simpl; [discriminate|].
  destruct (f x) eqn:Ex; [|intros _; exists x; auto].
  destruct (mapM f l); [discriminate|].
  intros _. destruct (IH eq_refl) as [y [Hy Ey]]. exists y. auto.
Qed.

Lemma distribution_branch_store `{RowOrder} (db : Database) shs sh :
  distribution_sql db = Some shs -> In sh shs ->
  exists s, In s (stores db) /\ s_branch_id s = sh_branch_id sh.
Proof.
  unfold distribution_sql, second_pass_rows.
  destruct (rc db) as [rcs|]; [|discriminate].
  destruct (first_pass _) as [fps|] eqn:Hfp; [|discriminate].
  intros Hins Hsh. apply insert_second_pass_Forall2 in Hins.
  destruct (Forall2_in_r _ _ _ _ Hins Hsh) as [sp [Hsp Hi]].
  apply insert_shipment_fields in Hi as [-> _].
  apply filter_In in Hsp as [Hsp _].
  apply in_second_pass in Hsp as [i [p1 [Hp1 [_ [-> _]]]]].
  apply in_pass1 in Hp1 as [fp [Hin [_ [_ ->]]]].
  apply mapM_Forall2 in Hfp.
  destruct (Forall2_in_r _ _ _ _ Hfp Hin) as [fa [Hfa E]].
  apply first_pass_of_fields in E as [_ [-> _]].
  apply in_first_alloc in Hfa as [a [r [Ha [_ [_ ->]]]]]. simpl.
  destruct (available_priority db a Ha) as [s [Hs [E _]]]. exists s. auto.
Qed.


Lemma in_avail (db : Database) (a : avail_row) :
  In a (avail db) <->
  exists bp s n,
    In bp (branch_products db) /\ In s (stores db) /\ In n (needs db)
    /\ bp_branch_id bp = s_branch_id s
    /\ bp_branch_id bp = n_branch_id n /\ bp_product_id bp = n_product_id n
    /\ 0 < deficit bp n
    /\ a = {| av_branch_id := bp_branch_id bp;
              av_product_id := bp_product_id bp;
              av_priority := s_priority s |}.
Proof.
  unfold avail. rewrite in_map_iff. split.
  - intros [[[bp s] n] [<- Hx]]. apply filter_In in Hx as [Hx Hpos].
    apply Qpositive_iff in Hpos.
    apply in_join in Hx as [Hx [Hn En]]. apply in_join in Hx as [Hbp [Hs Es]].
    apply andb_true_iff in En as [En1 En2].
    apply N.eqb_eq in En1, En2, Es. simpl in En1, En2.
    exists bp, s, n. tauto.
  - intros [bp [s [n [Hbp [Hs [Hn [E1 [E2 [E3 [Hpos ->]]]]]]]]]].
    exists (bp, s, n). split; [reflexivity|]. apply filter_In. split.
    + apply in_join. split; [|split; [exact Hn|]].
      * apply in_join. split; [exact Hbp|split; [exact Hs|]].
        now apply N.eqb_eq.
      * simpl. apply andb_true_iff. split; now apply N.eqb_eq.
    + now apply Qpositive_iff.
Qed.

(** * Keys *)

Lemma unique_NoDup {K} (eqb : K -> K -> bool) (l : list K) :
  (forall x y, eqb x y = true <-> x = y) ->
  unique eqb l = true -> NoDup l.
Proof.
  intros Heqb. induction l as [|x l IH]; simpl; [constructor|].
  intros E. apply andb_true_iff in E as [E1 E2]. constructor; auto.
  intros Hin. apply negb_true_iff in E1.
  assert (existsb (eqb x) l = true)
    by (apply existsb_exists; exists x; split; [auto|now apply Heqb]).
  congruence.
Qed.

Lemma pair_eqb_eq (x y : uuid * uuid) : pair_eqb x y = true <-> x = y.
Proof.
  unfold pair_eqb. rewrite andb_true_iff, !N.eqb_eq.
  destruct x, y. simpl. split; [intros [-> ->]; reflexivity|].
  intros E. injection E as -> ->. auto.
Qed.

Lemma NoDup_map_filter {K A} (key : A -> K) (keep : A -> bool)
    (rows : list A) (Hkeys : NoDup (map key rows)) :
  NoDup (map key (filter keep rows)).
Proof.
  induction rows as [|x rows IH]; simpl; [exact Hkeys|].
  simpl in Hkeys. apply NoDup_cons_iff in Hkeys as [Hx Hrest].
  destruct (keep x); simpl; [|auto]. constructor; [|auto].
  intros Hin. apply Hx. apply in_map_iff in Hin as [y [E Hy]].
  apply filter_In in Hy as [Hy _]. rewrite <- E. now apply in_map.
Qed.

Lemma firstn_NoDup {A} (k : nat) (l : list A) : NoDup l -> NoDup (firstn k l).
Proof.
  revert l. induction k as [|k IH]; intros l Hnd; simpl; [constructor|].
  destruct l as [|x l]; [constructor|].
  inversion Hnd as [|? ? Hx Hnd']; subst. constructor; [|auto].
  intros Hin. apply Hx. rewrite <- (firstn_skipn k l).
  apply in_or_app. now left.
Qed.

Lemma filter_key_le1 {A K} (key : A -> K) (p : A -> bool) (k : K)
    (r : list A) :
  NoDup (map key r) -> (forall b, In b r -> p b = true -> key b = k) ->
  (length (filter p r) <= 1)%nat.
Proof.
  induction r as [|a r IH]; simpl; [lia|].
  intros Hnd Hk. apply NoDup_cons_iff in Hnd as [Ha Hnd'].
  destruct (p a) eqn:Ea; [|apply IH; auto].
  rewrite (filter_none p r); [simpl; lia|].
  intros y Hy. destruct (p y) eqn:Ey; [|reflexivity].
  exfalso. apply Ha. rewrite (Hk a) by auto. rewrite <- (Hk y) by auto.
  now apply in_map.
Qed.

Lemma join_fst_NoDup {A B K} (f : A -> K) (on : A -> B -> bool)
    (l : list A) (r : list B) :
  NoDup (map f l) ->
  (forall a, In a l -> (length (filter (on a) r) <= 1)%nat) ->
  NoDup (map (fun x : A * B => f (fst x)) (join on l r)).
Proof.
  unfold join. induction l as [|a l IH]; simpl; intros Hnd Hone;
    [constructor|].
  apply NoDup_cons_iff in Hnd as [Ha Hnd'].
  assert (IH' := IH Hnd' (fun a' Ha' => Hone a' (or_intror Ha'))).
  rewrite map_app, map_map. simpl.
  assert (H1 := Hone a (or_introl eq_refl)).
  destruct (filter (on a) r) as [|b [|b' bs]]; simpl in *; [exact IH'| |lia].
  constructor; [|exact IH'].
  intros Hin. apply Ha. apply in_map_iff in Hin as [[a' b''] [E Hx]].
  apply in_flat_map in Hx as [a'' [Ha'' Hx]].
  apply in_map_iff in Hx as [b3 [E3 _]]. injection E3 as -> ->.
  simpl in E. rewrite <- E. now apply in_map.
Qed.

Lemma NoDup_of_fixed {A} (g f : A -> uuid) (P : uuid) (l : list A) :
  NoDup (map (fun x => (g x, f x)) l) ->
  NoDup (map f (filter (fun x => (g x =? P)%N) l)).
Proof.
  induction l as [|a l IH]; simpl; [intros; constructor|].
  intros Hnd. apply NoDup_cons_iff in Hnd as [Ha Hnd'].
  destruct (g a =? P)%N eqn:E; simpl; [|auto]. constructor; [|auto].
  intros Hin. apply Ha. apply in_map_iff in Hin as [y [Ey Hy]].
  apply filter_In in Hy as [Hy Eg]. apply N.eqb_eq in E, Eg.
  apply in_map_iff. exists y. split; [|exact Hy]. congruence.
Qed.

Section PrimaryKeys.
Variable db : Database.
Hypothesis Hpk : primary_keys db = true.

Lemma primary_key_branch_products :
  NoDup (map (fun bp => (bp_product_id bp, bp_branch_id bp))
             (branch_products db)).
Proof.
  unfold primary_keys in Hpk.
  apply andb_true_iff in Hpk as [H1 _]. apply andb_true_iff in H1 as [H1 _].
  apply andb_true_iff in H1 as [H1 _].
  exact (unique_NoDup pair_eqb _ pair_eqb_eq H1).
Qed.

Lemma primary_key_stores : NoDup (map s_branch_id (stores db)).
Proof.
  unfold primary_keys in Hpk.
  apply andb_true_iff in Hpk as [H1 _]. apply andb_true_iff in H1 as [_ H1].
  exact (unique_NoDup N.eqb _ N.eqb_eq H1).
Qed.

Lemma primary_key_needs :
  NoDup (map (fun n => (n_branch_id n, n_product_id n)) (needs db)).
Proof.
  unfold primary_keys in Hpk. apply andb_true_iff in Hpk as [_ H1].
  exact (unique_NoDup pair_eqb _ pair_eqb_eq H1).
Qed.

Lemma one_need (bp : BranchProduct) :
  (length (filter (fun n => (bp_branch_id bp =? n_branch_id n)%N
                            && (bp_product_id bp =? n_product_id n)%N)
                  (needs db)) <= 1)%nat.
Proof.
  apply (filter_key_le1 (fun n => (n_branch_id n, n_product_id n)) _
           (bp_branch_id bp, bp_product_id bp));
    [apply primary_key_needs|].
  intros n _ E. apply andb_true_iff in E as [E1 E2].
  apply N.eqb_eq in E1, E2. congruence.
Qed.

Lemma one_store (b : uuid) :
  (length (filter (fun s => (b =? s_branch_id s)%N) (stores db)) <= 1)%nat.
Proof.
  apply (filter_key_le1 s_branch_id _ b); [apply primary_key_stores|].
  intros s _ E. now apply N.eqb_eq in E.
Qed.

(** [available] has one row per (product, branch). *)
Lemma available_NoDup :
  NoDup (map (fun a => (a_product_id a, a_branch_id a)) (available db)).
Proof.
  unfold available. rewrite map_map.
  rewrite (map_ext _ (fun x : BranchProduct * Need * Store =>
                        (fun y : BranchProduct * Need =>
                           (bp_product_id (fst y), bp_branch_id (fst y)))
                          (fst x)))
    by (intros [[bp n] s]; reflexivity).
  apply (join_fst_NoDup
           (fun y : BranchProduct * Need =>
              (bp_product_id (fst y), bp_branch_id (fst y)))).
  - apply (join_fst_NoDup
             (fun bp => (bp_product_id bp, bp_branch_id bp))).
    + apply primary_key_branch_products.
    + intros bp _. apply one_need.
  - intros [bp n] _. apply one_store.
Qed.

Lemma available_of_NoDup (P : uuid) :
  NoDup (map a_branch_id (available_of db P)).
Proof. apply NoDup_of_fixed, available_NoDup. Qed.

(** [avail] has one row per (product, branch). *)
Lemma avail_NoDup :
  NoDup (map (fun a => (av_product_id a, av_branch_id a)) (avail db)).
Proof.
  unfold avail. rewrite map_map.
  rewrite (map_ext _ (fun x : BranchProduct * Store * Need =>
                        (fun y : BranchProduct * Store =>
                           (bp_product_id (fst y), bp_branch_id (fst y)))
                          (fst x)))
    by (intros [[bp s] n]; reflexivity).
  apply NoDup_map_filter.
  apply (join_fst_NoDup
           (fun y : BranchProduct * Store =>
              (bp_product_id (fst y), bp_branch_id (fst y)))).
  - apply (join_fst_NoDup
             (fun bp => (bp_product_id bp, bp_branch_id bp))).
    + apply primary_key_branch_products.
    + intros bp _. apply one_store.
  - intros [bp s] _. apply one_need.
Qed.

Lemma eligible_NoDup (P : uuid) : NoDup (map av_branch_id (eligible db P)).
Proof. apply NoDup_of_fixed, avail_NoDup. Qed.
End PrimaryKeys.

Lemma NoDup_keys_of_products (l : list Shipment) :
  (forall P, NoDup (map sh_branch_id (of_product P l))) ->
  NoDup (map shipment_key l).
Proof.
  induction l as [|x l IH]; simpl; intros Hp; [constructor|].
  constructor.
  - intros Hin. apply in_map_iff in Hin as [y [E Hy]].
    unfold shipment_key in E. injection E as Eb EP.
    specialize (Hp (sh_product_id x)). unfold of_product in Hp. simpl in Hp.
    rewrite N.eqb_refl in Hp. simpl in Hp.
    apply NoDup_cons_iff in Hp as [Hx _]. apply Hx.
    rewrite <- Eb. apply in_map. apply filter_In. split; [exact Hy|].
    now apply N.eqb_eq.
  - apply IH. intros P. specialize (Hp P). unfold of_product in *.
    simpl in Hp. destruct (sh_product_id x =? P)%N; [|exact Hp].
    simpl in Hp. now apply NoDup_cons_iff in Hp as [_ Hp].
Qed.

Lemma key_count_le1 (l : list Shipment) (k : uuid * uuid) :
  NoDup (map shipment_key l) ->
  (length (filter (fun sh => pair_eqb (shipment_key sh) k) l) <= 1)%nat.
Proof.
  intros Hnd. apply (filter_key_le1 shipment_key _ k); [exact Hnd|].
  intros sh _ E. now apply pair_eqb_eq.
Qed.

Section OneRowPerStatement.
Context `{RowOrder}.
Variables (db : Database) (shs : list Shipment).
Hypothesis Hpk : primary_keys db = true.

(** The distribution statement writes one row per branch and product. *)
Lemma distribution_branches_NoDup (P : uuid) :
  distribution_sql db = Some shs ->
  NoDup (map sh_branch_id (of_product P shs)).
Proof.
  unfold distribution_sql, second_pass_rows.
  destruct (rc db) as [rcs|] eqn:Hrc; [|discriminate].
  destruct (first_pass _) as [fps|] eqn:Hfp; [|discriminate].
  intros Hins.
  set (sps := second_pass (pass1 fps (remaining fps rcs))) in *.
  rewrite <- (Forall2_map_eq _ sp_branch_id sh_branch_id _ _
                (insert_second_pass_of_product sps shs P Hins))
    by (intros sp sh Hi; apply insert_shipment_fields in Hi as [-> _];
        reflexivity).
  apply NoDup_map_filter.
  destruct (in_dec N.eq_dec P (map rc_product_id rcs)) as [HP|HP].
  - apply in_map_iff in HP as [r [HrP Hr]]. unfold sps.
    rewrite second_pass_of_product,
      (pass1_of_product rcs fps P (rc_NoDup db rcs Hrc) r Hr HrP).
    rewrite map_map. cbn [sp_branch_id].
    rewrite <- (map_map snd p1_branch_id), number_snd.
    apply (Permutation_NoDup
             (Permutation_map p1_branch_id
                (order_by_desc_perm _ p1_priority _))).
    rewrite map_map. cbn [pass1_of p1_branch_id].
    assert (G : NoDup (map fp_branch_id (first_pass_product P fps))).
    { rewrite <- (Forall2_map_eq _ a_branch_id fp_branch_id _ _
                    (first_pass_of_product db rcs fps Hrc Hfp P r Hr HrP))
        by (intros a fp E; apply first_pass_of_fields in E as [_ [-> _]];
            reflexivity).
      now apply available_of_NoDup. }
    exact G.
  - unfold sps. rewrite (second_pass_no_stock db rcs fps Hfp P HP).
    constructor.
Qed.

(** The rows the [DELETE] leaves are rows of the distribution statement. *)
Lemma after_delete_branches_NoDup (tz : list uuid) (P : uuid) :
  distribution_sql db = Some shs ->
  NoDup (map sh_branch_id (of_product P (after_delete tz shs))).
Proof.
  intros Hrun. unfold of_product, after_delete.
  rewrite filter_filter.
  rewrite (filter_ext _ (fun sh => (sh_product_id sh =? P)%N
                                   && negb (deleted tz sh)))
    by (intros; apply andb_comm).
  rewrite <- filter_filter. apply NoDup_map_filter.
  now apply distribution_branches_NoDup.
Qed.

(** Reallocation appends one row per branch and product. *)
Lemma reallocated_branches_NoDup (P : uuid) :
  NoDup (map sh_branch_id (of_product P (reallocated db shs))).
Proof.
  destruct (in_dec N.eq_dec P
              (map l_product_id (leftovers (zeroed (to_zero db shs) shs))))
    as [Hin|Hout].
  - apply in_map_iff in Hin as [l [<- Hl]].
    rewrite (reallocated_of_product db shs l Hl), map_map.
    cbn [unit_shipment sh_branch_id]. rewrite <- firstn_map.
    apply firstn_NoDup.
    apply (Permutation_NoDup
             (Permutation_map av_branch_id (ranked_perm db l))).
    now apply eligible_NoDup.
  - rewrite (reallocated_no_leftover db shs P Hout). constructor.
Qed.

Lemma reallocated_units :
  Forall (fun sh => sh_shipment_qty sh = 1%Z) (reallocated db shs).
Proof.
  apply Forall_forall. intros sh Hsh. unfold reallocated, insert_alloc in Hsh.
  apply in_map_iff in Hsh as [al [<- Hal]]. simpl.
  apply filter_In in Hal as [Hal Hpos]. unfold alloc in Hal.
  apply in_map_iff in Hal as [x [<- _]]. unfold alloc_of in *. simpl in *.
  now destruct (fst x <=? l_leftover (fst (snd x)))%Z.
Qed.
End OneRowPerStatement.

(** * Zero weights and whole quantities *)

Lemma distribution_qty_nonneg `{RowOrder} (db : Database) shs sh :
  distribution_sql db = Some shs -> In sh shs -> (0 <= sh_shipment_qty sh)%Z.
Proof.
  unfold distribution_sql. destruct (second_pass_rows db) as [sps|];
    [|discriminate].
  apply insert_second_pass_nonneg.
Qed.

(** A zero total weight is no fault: the share is 0 and nothing is shipped
    in the first pass. *)
Lemma first_pass_of_zero_weight (fa : first_alloc_row) :
  fa_total_weight fa == 0 -> 0 <= fa_deficit fa ->
  exists fp, first_pass_of fa = Some fp /\ fp_shipped fp == 0.
Proof.
  intros HW Hd. unfold first_pass_of, floor_share.
  rewrite (Qeq_eq_bool _ _ HW). simpl. eexists. split; [reflexivity|].
  simpl. now apply Q.min_l.
Qed.

Lemma first_pass_zero_weight (db : Database) (fps : list first_pass_row)
    (P : uuid) :
  first_pass_rows db = Some fps -> total_weight db P == 0 ->
  forall fp, In fp (first_pass_product P fps) -> fp_shipped fp == 0.
Proof.
  unfold first_pass_rows. destruct (rc db) as [rcs|] eqn:Hrc; [|discriminate].
  intros Hfp HW fp Hin.
  destruct (in_dec N.eq_dec P (map rc_product_id rcs)) as [HP|HP].
  - apply in_map_iff in HP as [r [HrP Hr]].
    assert (F := first_pass_of_product db rcs fps Hrc Hfp P r Hr HrP).
    destruct (Forall2_in_r _ _ _ _ F Hin) as [a [Ha E]].
    apply filter_In in Ha as [Ha _].
    destruct (first_pass_of_zero_weight
                (first_alloc_of (rc_total_stock r) (total_weight db P) a) HW
                (available_deficit_nonneg db a Ha)) as [fp' [E' Hz]].
    rewrite E in E'. injection E' as <-. exact Hz.
  - rewrite (first_pass_no_stock db rcs fps Hfp P HP) in Hin. destruct Hin.
Qed.

(** No row of the final table has a negative quantity; with whole branch
    stock every row has a positive one. *)
Lemma final_rows_nonneg `{RowOrder} (db : Database) (sh : Shipment) :
  In sh (distribute db) -> (0 <= sh_shipment_qty sh)%Z.
Proof.
  unfold distribute. destruct (distribution_sql db) as [shs|] eqn:Hrun;
    [|intros []].
  unfold adjustment_sql. intros Hin. apply in_app_or in Hin as [Hin|Hin].
  - apply filter_In in Hin as [Hin _].
    now apply (distribution_qty_nonneg db shs).
  - assert (U := reallocated_units db shs). rewrite Forall_forall in U.
    rewrite (U sh Hin). lia.
Qed.

Lemma final_rows_positive_whole `{RowOrder} (db : Database) (sh : Shipment) :
  whole_branch_stock db = true -> In sh (distribute db) ->
  (0 < sh_shipment_qty sh)%Z.
Proof.
  intros Hw. unfold distribute, distribution_sql, second_pass_rows.
  destruct (rc db) as [rcs|]; [|intros []].
  destruct (first_pass _) as [fps|] eqn:Hfp; [|intros []].
  destruct (insert_second_pass _) as [shs|] eqn:Hins; [|intros []].
  unfold adjustment_sql. intros Hin. apply in_app_or in Hin as [Hin|Hin].
  - apply filter_In in Hin as [Hin _].
    apply insert_second_pass_Forall2 in Hins.
    destruct (Forall2_in_r _ _ _ _ Hins Hin) as [sp [Hsp Hi]].
    apply filter_In in Hsp as [Hsp Hpos]. apply Qpositive_iff in Hpos.
    destruct (second_pass_whole db rcs fps _ sp Hw Hfp Hsp) as [z Hz].
    apply insert_shipment_fields in Hi as [_ [_ ->]].
    rewrite (numeric_round_comp _ _ Hz), numeric_round_inject_Z.
    rewrite Hz in Hpos. change 0 with (inject_Z 0) in Hpos.
    now rewrite <- Zlt_Qlt in Hpos.
  - assert (U := reallocated_units db shs). rewrite Forall_forall in U.
    rewrite (U sh Hin). lia.
Qed.

(** With fractional deficits the cast of the [INSERT] rounds quantities up:
    on [half_deficit_input] the second pass gives 1.5, 1.5 and 0, stored as
    2 and 2, which is more than the central stock of 3. *)
Lemma rounded_quantities_exceed_stock `{RowOrder} :
  total_central_stock half_deficit_input 1 == 3
  /\ option_map (map sp_shipment_qty) (second_pass_rows half_deficit_input)
     = Some [3 # 2; 3 # 2; 0]
  /\ distribute half_deficit_input = [shipment 1 1 2; shipment 2 1 2].
Proof.
  split; [reflexivity|]. split.
  - now rewrite second_pass_rows_order_free by reflexivity.
  - now rewrite distribute_order_free by reflexivity.
Qed.

(** * The claims *)




(** C2 fails on [zero_deficit_input], whatever the row order: branch 1 has
    deficit 0 for product 1, is ranked first by the window of [second_pass]
    (which ranks every row of [available]) and ends with a shipment of 1. *)
Theorem zero_deficit_branch_ships `{RowOrder} :
  deficit (branch_product 1 1 0) (need 1 1 0) == 0
  /\ distribute zero_deficit_input = [shipment 1 1 1; shipment 2 1 2].
Proof.
  split; [reflexivity|].
  now rewrite distribute_order_free by reflexivity.
Qed.

(** C3: after the distribution statement, every row of the table belongs to
    a branch of [stores]; for a branch of [stores] whose total shipment is
    below its [min_shipment], the [DELETE] removes every row of the branch
    (nothing is raised to the threshold), each removed row is returned in
    [zeroed] and its product has a row in [leftovers] whose pool is the sum
    of the removed quantities of that product; what a product loses is what
    its pool holds; once the [DELETE] has run the branch has a total
    shipment of 0 or of at least its [min_shipment]. *)
Theorem pruning_below_min_shipment `{RowOrder} (db : Database)
    (shs : list Shipment) (s : Store) :
  distribution_sql db = Some shs ->
  In s (stores db) ->
  let tz := to_zero db shs in
  let kept := after_delete tz shs in
  let b := s_branch_id s in
  (forall sh, In sh shs ->
     exists s', In s' (stores db) /\ s_branch_id s' = sh_branch_id sh)
  /\ ((total_shipment shs b < s_min_shipment s)%Z ->
      of_branch b kept = []
      /\ forall sh, In sh (of_branch b shs) ->
           In {| z_product_id := sh_product_id sh;
                 z_shipment_qty := sh_shipment_qty sh |} (zeroed tz shs)
           /\ In {| l_product_id := sh_product_id sh;
                    l_leftover := leftover_of (zeroed tz shs)
                                    (sh_product_id sh) |}
                 (leftovers (zeroed tz shs)))
  /\ (forall P, product_shipment shs P
                = (product_shipment kept P + leftover_of (zeroed tz shs) P)%Z)
  /\ (total_shipment kept b = 0%Z
      \/ (s_min_shipment s <= total_shipment kept b)%Z).
Proof.
  intros Hrun Hs tz kept b. split; [|split; [|split]].
  - intros sh. now apply (distribution_branch_store db shs).
  - intros Hlt.
    destruct (of_branch b shs) as [|sh0 rest] eqn:Erows.
    + split; [|intros sh []].
      unfold kept, of_branch, after_delete. rewrite filter_filter.
      rewrite (filter_ext _ (fun sh => (sh_branch_id sh =? b)%N
                                       && negb (deleted tz sh)))
        by (intros; apply andb_comm).
      rewrite <- filter_filter. fold (of_branch b shs). now rewrite Erows.
    + assert (Hb : In b tz).
      { apply in_to_zero. split.
        - assert (Hin : In sh0 (of_branch b shs))
            by (rewrite Erows; simpl; auto).
          apply filter_In in Hin as [Hin E]. apply N.eqb_eq in E.
          rewrite <- E. now apply in_map.
        - exists s. auto. }
      rewrite <- Erows. split; [now apply after_delete_pruned|].
      intros sh Hsh. apply filter_In in Hsh as [Hsh E]. apply N.eqb_eq in E.
      assert (Hz : In {| z_product_id := sh_product_id sh;
                         z_shipment_qty := sh_shipment_qty sh |}
                      (zeroed tz shs)).
      { unfold zeroed. apply in_map_iff. exists sh. split; [reflexivity|].
        apply filter_In. split; [exact Hsh|].
        apply deleted_iff. now rewrite E. }
      split; [exact Hz|]. apply in_leftovers. simpl. split; [|reflexivity].
      apply in_map_iff. eexists. split; [|exact Hz]. reflexivity.
  - intros P. apply product_split.
  - unfold total_shipment.
    destruct (in_dec N.eq_dec b tz) as [Hb|Hb].
    + left. unfold kept. now rewrite after_delete_pruned.
    + unfold kept. rewrite (after_delete_kept tz shs b Hb).
      destruct (in_dec N.eq_dec b (map sh_branch_id shs)) as [Hin|Hout].
      * right. apply Z.nlt_ge. intros Hlt. apply Hb.
        apply in_to_zero. split; [exact Hin|]. exists s. auto.
      * left. unfold of_branch.
        rewrite (filter_none (fun sh => (sh_branch_id sh =? b)%N) shs);
          [reflexivity|].
        intros sh Hsh. apply N.eqb_neq. intros E. apply Hout.
        rewrite <- E. now apply in_map.
Qed.

Lemma pruning_below_min_shipment_witness :
  @distribution_sql stable_order pruned_branch_input
  = Some [shipment 2 1 6; shipment 1 1 1]
  /\ In (store 1 1 100) (stores pruned_branch_input)
  /\ (total_shipment [shipment 2 1 6; shipment 1 1 1] 1 < 100)%Z
  /\ of_branch 1
       (after_delete
          (to_zero pruned_branch_input [shipment 2 1 6; shipment 1 1 1])
          [shipment 2 1 6; shipment 1 1 1])
     = [].
Proof.
  split; [reflexivity|]. split; [simpl; auto|]. split; [reflexivity|].
  apply (@pruning_below_min_shipment stable_order pruned_branch_input
           [shipment 2 1 6; shipment 1 1 1] (store 1 1 100));
    [reflexivity|simpl; auto|reflexivity].
Defined.

(** C4: for a product with a positive leftover pool, the eligible rows are
    exactly the rows of [branch_products] of the product that have a store,
    a need and a positive deficit, each with the priority of its store;
    they are ranked by priority descending; the rows appended for the
    product are one unit for each of the first [leftover] ranked branches
    and nothing for the others; the units add up to the smaller of the pool
    and the number of eligible branches, hence to at most the pool, and to
    the number of eligible branches when these are fewer than the pool: the
    surplus goes to nobody.  Under the primary keys no branch gets two of
    these units. *)
Theorem leftover_reallocation `{RowOrder} (db : Database)
    (shs : list Shipment) (l : leftovers_row) :
  In l (leftovers (zeroed (to_zero db shs) shs)) ->
  (0 < l_leftover l)%Z ->
  let P := l_product_id l in
  let added := reallocated db shs in
  l_leftover l = leftover_of (zeroed (to_zero db shs) shs) P
  /\ (forall a, In a (eligible db P) <->
        exists bp s n,
          In bp (branch_products db) /\ In s (stores db) /\ In n (needs db)
          /\ bp_branch_id bp = n_branch_id n
          /\ bp_product_id bp = n_product_id n
          /\ bp_branch_id bp = s_branch_id s
          /\ bp_product_id bp = P /\ 0 < deficit bp n
          /\ a = {| av_branch_id := bp_branch_id bp;
                    av_product_id := P;
                    av_priority := s_priority s |})
  /\ Permutation (eligible db P) (ranked db l)
  /\ StronglySorted (fun a a' => (av_priority a' <= av_priority a)%Z)
                    (ranked db l)
  /\ of_product P added
     = map (unit_shipment P) (firstn (Z.to_nat (l_leftover l)) (ranked db l))
  /\ product_shipment added P
     = Z.min (l_leftover l) (Z.of_nat (length (eligible db P)))
  /\ (product_shipment added P <= l_leftover l)%Z
  /\ ((Z.of_nat (length (eligible db P)) < l_leftover l)%Z ->
      product_shipment added P = Z.of_nat (length (eligible db P)))
  /\ (primary_keys db = true ->
      NoDup (map sh_branch_id (of_product P added))).
Proof.
  intros Hl Hpos P added.
  assert (Hsum := reallocated_sum db shs l Hl). fold P added in Hsum.
  split; [|split; [|split; [|split; [|split; [|split; [|split; [|split]]]]]]];
    [| | | | | | | |intros Hpk; now apply reallocated_branches_NoDup].
  - apply in_leftovers in Hl as [_ E]. rewrite E at 1. reflexivity.
  - intros a. unfold eligible. rewrite filter_In, in_avail, N.eqb_eq. split.
    + intros [[bp [s [n [Hbp [Hs [Hn [E1 [E2 [E3 [Hd ->]]]]]]]]]] E].
      simpl in E. exists bp, s, n. rewrite <- E. repeat split; auto.
    + intros [bp [s [n [Hbp [Hs [Hn [E2 [E3 [E1 [E [Hd ->]]]]]]]]]]].
      split; [|reflexivity]. exists bp, s, n. rewrite <- E.
      repeat split; auto.
  - apply ranked_perm.
  - apply ranked_sorted.
  - now apply reallocated_of_product.
  - rewrite Hsum. lia.
  - rewrite Hsum. lia.
  - intros Hfew. rewrite Hsum. lia.
Qed.

Lemma leftover_reallocation_witness :
  In {| l_product_id := 1; l_leftover := 1 |}
     (leftovers
        (zeroed (to_zero pruned_branch_input [shipment 2 1 6; shipment 1 1 1])
                [shipment 2 1 6; shipment 1 1 1]))
  /\ (0 < 1)%Z
  /\ In {| av_branch_id := 2; av_product_id := 1; av_priority := 5 |}
        (eligible pruned_branch_input 1)
  /\ of_product 1
       (@reallocated stable_order pruned_branch_input
          [shipment 2 1 6; shipment 1 1 1])
     = [shipment 2 1 1]
  /\ product_shipment
       (@reallocated stable_order pruned_branch_input
          [shipment 2 1 6; shipment 1 1 1]) 1
     = 1%Z.
Proof.
  assert (G := @leftover_reallocation stable_order pruned_branch_input
                 [shipment 2 1 6; shipment 1 1 1]
                 {| l_product_id := 1; l_leftover := 1 |}).
  cbv zeta in G. cbn [l_product_id l_leftover] in G.
  destruct G as [_ [Helig [_ [_ [Hrows [Hsum _]]]]]];
    [simpl; auto|reflexivity|].
  split; [simpl; auto|]. split; [reflexivity|]. split; [|split].
  - apply Helig.
    exists (branch_product 1 2 0), (store 2 5 1), (need 2 1 5).
    repeat split; simpl; auto.
  - rewrite Hrows. reflexivity.
  - rewrite Hsum. reflexivity.
Defined.




(** C6 fails on [zero_weight_input], whatever the row order: the total weight
    of product 1 is zero, the first pass does not fault and ships 0, but the
    remainder window then grants the branch one unit. *)
Theorem zero_weight_product_ships `{RowOrder} :
  total_weight zero_weight_input 1 == 0
  /\ option_map (map fp_shipped) (first_pass_rows zero_weight_input)
     = Some [0]
  /\ distribute zero_weight_input = [shipment 1 1 1].
Proof.
  split; [reflexivity|]. split; [reflexivity|].
  now rewrite distribute_order_free by reflexivity.
Qed.

(** C7, as stated, fails: [negative_need_input] contains a negative need and
    the run is not rejected; it writes a shipment.  The priorities differ,
    so no row order is involved. *)
Lemma negative_need_not_rejected :
  has_negative negative_need_input = true
  /\ @distribution_sql stable_order negative_need_input
     = Some [shipment 2 1 4]
  /\ @distribute stable_order negative_need_input = [shipment 2 1 4].
Proof.
  repeat split; reflexivity.
Qed.

(** C7, amended: an input with a negative stock, need or priority is
    processed like any other.  No sign is checked: the deficit of every row
    is clamped at 0 by [GREATEST], a need that does not exceed the effective
    stock gives deficit 0, and the first statement raises only when one of
    its casts leaves the range of its integer type: the [::BIGINT] of a
    product's central stock, the [::int] of a share, or the cast of a
    positive quantity to the [INT] column. *)
Theorem negative_input_clamped `{RowOrder} (db : Database) :
  has_negative db = true ->
  (forall a, In a (available db) -> 0 <= a_deficit a)
  /\ (forall bp n,
        inject_Z (n_need n) <= bp_stock bp + bp_transit bp - bp_reserve bp ->
        deficit bp n == 0)
  /\ (distribution_sql db = None ->
      (exists P,
          In P (map rcp_product_id (rc_products db))
          /\ numeric_to_int8 (total_central_stock db P) = None)
      \/ (exists rcs fa,
             rc db = Some rcs /\ In fa (first_alloc (available db) rcs)
             /\ floor_share fa = None)
      \/ (exists sps sp,
             second_pass_rows db = Some sps /\ In sp sps
             /\ 0 < sp_shipment_qty sp
             /\ numeric_to_int4 (sp_shipment_qty sp) = None)).
Proof.
  intros _. split; [apply available_deficit_nonneg|]. split.
  - intros bp n Hle. unfold deficit. apply Q.max_l. lra.
  - unfold distribution_sql, second_pass_rows.
    destruct (rc db) as [rcs|] eqn:Hrc.
    + destruct (first_pass _) as [fps|] eqn:Hfp.
      * intros E. right. right. apply mapM_None in E as [sp [Hsp E]].
        apply filter_In in Hsp as [Hsp Hpos]. apply Qpositive_iff in Hpos.
        eexists. exists sp. split; [reflexivity|].
        split; [exact Hsp|]. split; [exact Hpos|].
        unfold insert_shipment in E.
        now destruct (numeric_to_int4 (sp_shipment_qty sp)).
      * intros _. right. left. apply mapM_None in Hfp as [fa [Hfa E]].
        exists rcs, fa. split; [reflexivity|]. split; [exact Hfa|].
        unfold first_pass_of in E. now destruct (floor_share fa).
    + intros _. left. unfold rc in Hrc.
      apply mapM_None in Hrc as [[k g] [Hg E]].
      apply in_group_by in Hg as [Hk ->]. exists k. split; [exact Hk|].
      simpl in E. unfold total_central_stock.
      rewrite (filter_ext _ (fun x => eqb_of N.eq_dec (rcp_product_id x) k))
        by (intros x; symmetry; apply eqb_of_N).
      now destruct (numeric_to_int8 _).
Qed.

Lemma negative_input_clamped_witness :
  has_negative negative_need_input = true
  /\ (forall a, In a (available negative_need_input) -> 0 <= a_deficit a).
Proof.
  split; [reflexivity|].
  apply (@negative_input_clamped stable_order negative_need_input).
  reflexivity.
Defined.

(** C8 fails on [fractional_deficit_input], whatever the row order: the
    quantity 0.4 passes [WHERE shipment_qty > 0] and is stored as 0. *)
Theorem zero_quantity_row `{RowOrder} :
  option_map (map (fun sp => (sp_product_id sp, sp_shipment_qty sp)))
             (second_pass_rows fractional_deficit_input)
  = Some [(1%N, 4 # 10); (2%N, 5)]
  /\ distribute fractional_deficit_input = [shipment 1 1 0; shipment 1 2 5].
Proof.
  split.
  - now rewrite second_pass_rows_order_free by reflexivity.
  - now rewrite distribute_order_free by reflexivity.
Qed.

(** C9, as stated, fails: on [pruned_branch_input], whose tables satisfy
    their primary keys, the final table holds two rows for branch 2 and
    product 1, the surviving row of 6 and a reallocated unit.  The priorities
    differ, so no row order is involved. *)
Lemma two_rows_for_one_key :
  primary_keys pruned_branch_input = true
  /\ @distribute stable_order pruned_branch_input
     = [shipment 2 1 6; shipment 2 1 1]
  /\ ~ NoDup (map shipment_key (@distribute stable_order pruned_branch_input)).
Proof.
  split; [reflexivity|]. split; [reflexivity|].
  intros Hnd. vm_compute in Hnd. apply NoDup_cons_iff in Hnd as [Hx _].
  apply Hx. simpl. auto.
Qed.

(** C9, amended: [shipments] has no key.  When the input tables satisfy
    their primary keys, the final table is made of the rows of the
    distribution statement that survive the [DELETE], at most one per
    (branch_id, product_id), followed by the rows appended by the leftover
    reallocation, each of quantity 1 and at most one per
    (branch_id, product_id); a reallocated unit is never added to an existing
    row, so a pair has at most two rows. *)
Theorem at_most_two_rows_per_key `{RowOrder} (db : Database) :
  primary_keys db = true ->
  (forall shs,
     distribution_sql db = Some shs ->
     let kept := after_delete (to_zero db shs) shs in
     let added := reallocated db shs in
     distribute db = kept ++ added
     /\ (forall sh, In sh kept -> In sh shs)
     /\ NoDup (map shipment_key kept)
     /\ NoDup (map shipment_key added)
     /\ Forall (fun sh => sh_shipment_qty sh = 1%Z) added)
  /\ forall k,
       (length (filter (fun sh => pair_eqb (shipment_key sh) k)
                       (distribute db)) <= 2)%nat.
Proof.
  intros Hpk.
  assert (G : forall shs,
             distribution_sql db = Some shs ->
             distribute db
             = after_delete (to_zero db shs) shs ++ reallocated db shs
             /\ (forall sh, In sh (after_delete (to_zero db shs) shs) ->
                            In sh shs)
             /\ NoDup (map shipment_key (after_delete (to_zero db shs) shs))
             /\ NoDup (map shipment_key (reallocated db shs))
             /\ Forall (fun sh => sh_shipment_qty sh = 1%Z)
                       (reallocated db shs)).
  { intros shs Hrun. split; [|split; [|split; [|split]]].
    - unfold distribute. now rewrite Hrun.
    - intros sh Hsh. now apply filter_In in Hsh as [Hsh _].
    - apply NoDup_keys_of_products. intros P.
      now apply (after_delete_branches_NoDup db shs Hpk).
    - apply NoDup_keys_of_products. intros P.
      now apply (reallocated_branches_NoDup db shs Hpk).
    - apply reallocated_units. }
  split; [exact G|].
  intros k. destruct (distribution_sql db) as [shs|] eqn:Hrun.
  - destruct (G shs eq_refl) as [-> [_ [Hk [Ha _]]]].
    rewrite filter_app, length_app.
    assert (H1 := key_count_le1 _ k Hk). assert (H2 := key_count_le1 _ k Ha).
    lia.
  - unfold distribute. rewrite Hrun. simpl. lia.
Qed.

Lemma at_most_two_rows_per_key_witness :
  primary_keys pruned_branch_input = true
  /\ (length (filter (fun sh => pair_eqb (shipment_key sh) (2%N, 1%N))
                     (@distribute stable_order pruned_branch_input))
      <= 2)%nat.
Proof.
  split; [reflexivity|].
  apply (@at_most_two_rows_per_key stable_order pruned_branch_input).
  reflexivity.
Defined.

(** C10, as stated, fails: on [scenario_B], where both thresholds are 1, the
    first pass does not ship 4 and 6 and the final shipments are not 4 and
    7.  The priorities differ, so no row order is involved. *)
Lemma scenario_B_not_4_and_7 :
  @distribute stable_order scenario_B = [shipment 2 1 6; shipment 1 1 5]
  /\ ~ (option_map (map fp_shipped) (first_pass_rows scenario_B)
        = Some [4; 6]
        /\ total_shipment (@distribute stable_order scenario_B) 1 = 4%Z
        /\ total_shipment (@distribute stable_order scenario_B) 2 = 7%Z).
Proof.
  split; [reflexivity|].
  vm_compute. intros [E _]. discriminate.
Qed.

(** C10, amended: on scenario B (central stock 11, deficits 5 and 5,
    priorities 2 and 3) with thresholds that do not exceed the resulting
    totals, the first pass ships 4 and 5, the share 6 of the second branch
    being capped by its deficit; 2 units remain and each branch gets one;
    nothing is pruned and the final shipments are 5 and 6, whatever the row
    order. *)
Theorem scenario_B_shipments `{RowOrder} (min1 min2 : Z) :
  (min1 <= 5)%Z -> (min2 <= 6)%Z ->
  option_map (map (fun fp => (fp_branch_id fp, fp_shipped fp)))
             (first_pass_rows (scenario_B_with min1 min2))
  = Some [(1%N, 4); (2%N, 5)]
  /\ option_map (map (fun sp => (sp_branch_id sp, sp_shipment_qty sp)))
                (second_pass_rows (scenario_B_with min1 min2))
     = Some [(2%N, 6); (1%N, 5)]
  /\ distribute (scenario_B_with min1 min2)
     = [shipment 2 1 6; shipment 1 1 5].
Proof.
  intros H1 H2. split; [reflexivity|]. split.
  - now rewrite second_pass_rows_order_free by reflexivity.
  - unfold distribute.
    rewrite distribution_sql_order_free by reflexivity.
    assert (E : @distribution_sql stable_order (scenario_B_with min1 min2)
                = Some [shipment 2 1 6; shipment 1 1 5]) by reflexivity.
    rewrite E. apply adjustment_nothing_pruned.
    destruct (to_zero _ _) as [|b tz] eqn:Etz; [reflexivity|].
    assert (Hb : In b (to_zero (scenario_B_with min1 min2)
                               [shipment 2 1 6; shipment 1 1 5]))
      by (rewrite Etz; simpl; auto).
    apply in_to_zero in Hb as [_ [s [Hs [Eb Hlt]]]].
    destruct Hs as [<-|[<-|[]]]; simpl in Eb; subst b;
      change (s_min_shipment (store _ _ ?m)) with m in Hlt;
      [change (total_shipment [shipment 2 1 6; shipment 1 1 5] 1) with 5%Z
         in Hlt
      |change (total_shipment [shipment 2 1 6; shipment 1 1 5] 2) with 6%Z
         in Hlt];
      lia.
Qed.

Lemma scenario_B_shipments_witness :
  (1 <= 5)%Z /\ (1 <= 6)%Z
  /\ @distribute stable_order (scenario_B_with 1 1)
     = [shipment 2 1 6; shipment 1 1 5].
Proof.
  split; [lia|]. split; [lia|].
  apply (@scenario_B_shipments stable_order 1 1); lia.
Defined.

(** * Further properties of the two statements *)

(** ** Where a row comes from *)

(** A row of the first statement comes from a row of [available] whose
    product has central stock; its quantity is the rounding of a positive
    [NUMERIC] of at most the deficit plus the one-unit bonus. *)
Lemma distribution_row `{RowOrder} (db : Database) shs sh :
  distribution_sql db = Some shs -> In sh shs ->
  exists a q,
    In a (available db)
    /\ a_branch_id a = sh_branch_id sh /\ a_product_id a = sh_product_id sh
    /\ In (sh_product_id sh) (map rcp_product_id (rc_products db))
    /\ 0 < q /\ q <= a_deficit a + 1
    /\ sh_shipment_qty sh = numeric_round q
    /\ (whole_branch_stock db = true -> inject_Z (sh_shipment_qty sh) == q).
Proof.
  unfold distribution_sql, second_pass_rows.
  destruct (rc db) as [rcs|] eqn:Hrc; [|discriminate].
  destruct (first_pass _) as [fps|] eqn:Hfp; [|discriminate].
  intros Hins Hsh. apply insert_second_pass_Forall2 in Hins.
  destruct (Forall2_in_r _ _ _ _ Hins Hsh) as [sp [Hsp Hi]].
  apply insert_shipment_fields in Hi as [Eb [EP Eq]].
  apply filter_In in Hsp as [Hsp Hpos]. apply Qpositive_iff in Hpos.
  assert (Hw : whole_branch_stock db = true ->
               inject_Z (sh_shipment_qty sh) == sp_shipment_qty sp).
  { intros Hw.
    destruct (second_pass_whole db rcs fps _ sp Hw Hfp Hsp) as [w Hz].
    rewrite Eq, (numeric_round_comp _ _ Hz), numeric_round_inject_Z.
    now symmetry. }
  apply in_second_pass in Hsp as [i [p1 [Hp1 [EP1 [Eb1 Eq1]]]]].
  apply in_pass1 in Hp1 as [fp [Hin [EP2 [Es2 Eb2]]]].
  apply mapM_Forall2 in Hfp.
  destruct (Forall2_in_r _ _ _ _ Hfp Hin) as [fa [Hfa E]].
  apply first_pass_of_fields in E as [EP3 [Eb3 [_ [_ [z [_ Es3]]]]]].
  apply in_first_alloc in Hfa as [a [r [Ha [Hr [Er Efa]]]]].
  rewrite Efa in EP3, Eb3, Es3. simpl in EP3, Eb3, Es3.
  exists a, (sp_shipment_qty sp). split; [exact Ha|].
  split; [congruence|]. split; [congruence|]. split.
  - assert (Hk : In (rc_product_id r) (map rc_product_id rcs))
      by now apply in_map.
    rewrite (rc_keys db rcs Hrc), nodup_In in Hk. congruence.
  - split; [exact Hpos|]. split; [|split; [exact Eq|exact Hw]].
    rewrite Eq1, Es2, Es3.
    assert (Hb : inject_Z (bonus i (p1_remaining p1)) <= 1).
    { change 1 with (inject_Z 1). rewrite <- Zle_Qle. unfold bonus.
      destruct (Qle_bool _ _); lia. }
    assert (Hm := Q.le_min_r (inject_Z z) (a_deficit a)). lra.
Qed.

Lemma distribution_row_origin `{RowOrder} (db : Database) shs sh :
  distribution_sql db = Some shs -> In sh shs -> has_input_rows db sh.
Proof.
  intros Hrun Hsh.
  destruct (distribution_row db shs sh Hrun Hsh)
    as [a [q [Ha [Eb [EP [Hr _]]]]]].
  apply in_available in Ha as [bp [n [s [Hbp [Hn [Hs [E1 [E2 [E3 ->]]]]]]]]].
  simpl in Eb, EP. apply in_map_iff in Hr as [r [Er Hr]].
  exists bp, n, s, r. repeat split; congruence || assumption.
Qed.

Lemma reallocated_row_origin `{RowOrder} (db : Database) shs sh :
  distribution_sql db = Some shs -> In sh (reallocated db shs) ->
  has_input_rows db sh.
Proof.
  intros Hrun Hsh. unfold reallocated, insert_alloc in Hsh.
  apply in_map_iff in Hsh as [al [<- Hal]].
  apply filter_In in Hal as [Hal _]. unfold alloc in Hal.
  apply in_map_iff in Hal as [[i [l a]] [<- Hx]].
  assert (Hin : In (l, a)
                   (join (fun l a => (av_product_id a =? l_product_id l)%N)
                         (leftovers (zeroed (to_zero db shs) shs))
                         (avail db))).
  { apply (Permutation_in _
             (row_number_perm
                (fun x : leftovers_row * avail_row => l_product_id (fst x))
                (fun x : leftovers_row * avail_row => av_priority (snd x))
                _)).
    apply in_map_iff. now exists (i, (l, a)). }
  apply in_join in Hin as [Hl [Ha E]]. apply N.eqb_eq in E.
  apply in_leftovers in Hl as [Hl _].
  apply in_map_iff in Hl as [z [Ez Hz]]. unfold zeroed in Hz.
  apply in_map_iff in Hz as [sh' [<- Hsh']]. simpl in Ez.
  apply filter_In in Hsh' as [Hsh' _].
  destruct (distribution_row_origin db shs sh' Hrun Hsh')
    as [_ [_ [_ [r [_ [_ [_ [Hr [_ [_ [_ [_ [_ Er]]]]]]]]]]]]].
  apply in_avail in Ha as [bp [s [n [Hbp [Hs [Hn [E1 [E2 [E3 [_ ->]]]]]]]]]].
  unfold has_input_rows. simpl in *.
  exists bp, n, s, r. repeat split; congruence || assumption.
Qed.

(** ** What a branch can get of a product *)

Lemma Zsum_le1 (B : Q) (l : list Z) :
  (length l <= 1)%nat -> 0 <= B ->
  (forall z, In z l -> inject_Z z <= B) -> inject_Z (Zsum l) <= B.
Proof.
  destruct l as [|z [|z' l]]; simpl; intros Hlen HB Hz.
  - exact HB.
  - rewrite Z.add_0_r. auto.
  - lia.
Qed.

Lemma available_deficit_of (db : Database) bp n a :
  primary_keys db = true ->
  In bp (branch_products db) -> In n (needs db) ->
  bp_branch_id bp = n_branch_id n -> bp_product_id bp = n_product_id n ->
  In a (available db) ->
  a_branch_id a = bp_branch_id bp -> a_product_id a = bp_product_id bp ->
  a_deficit a = deficit bp n.
Proof.
  intros Hpk Hbp Hn E1 E2 Ha Eb EP.
  apply in_available in Ha
    as [bp' [n' [s' [Hbp' [Hn' [_ [E1' [E2' [_ ->]]]]]]]]].
  simpl in *.
  assert (bp' = bp).
  { apply (NoDup_map_in_inj _ _ _ _ (primary_key_branch_products db Hpk));
      auto. congruence. }
  subst bp'.
  assert (n' = n).
  { apply (NoDup_map_in_inj _ _ _ _ (primary_key_needs db Hpk)); auto.
    congruence. }
  now subst n'.
Qed.

(** ** What the first statement ships of a product *)




Section DistributionTotal.
Context `{RowOrder}.
Variables (db : Database) (shs : list Shipment) (P : uuid).
Variables (rcs : list rc_row) (fps : list first_pass_row).
Hypothesis Hrc : rc db = Some rcs.
Hypothesis Hfp : first_pass (first_alloc (available db) rcs) = Some fps.
Hypothesis Hins :
  insert_second_pass (second_pass (pass1 fps (remaining fps rcs))) = Some shs.
Hypothesis Hwhole : whole_branch_stock db = true.
Hypothesis Hprio : forall s, In s (stores db) -> (0 <= s_priority s)%Z.
Variable r : rc_row.
Hypothesis Hr : In r rcs.
Hypothesis HrP : rc_product_id r = P.
Hypothesis HT : (0 <= rc_total_stock r)%Z.

Local Abbreviation sps := (second_pass (pass1 fps (remaining fps rcs))).

End DistributionTotal.

(** ** What the second statement does to a branch and to a product *)

Lemma of_branch_app (b : uuid) (l l' : list Shipment) :
  of_branch b (l ++ l') = of_branch b l ++ of_branch b l'.
Proof. apply filter_app. Qed.

Lemma of_branch_below_threshold (db : Database) (shs : list Shipment)
    (s : Store) :
  In s (stores db) ->
  (total_shipment shs (s_branch_id s) < s_min_shipment s)%Z ->
  of_branch (s_branch_id s) (after_delete (to_zero db shs) shs) = [].
Proof.
  intros Hs Hlt. set (b := s_branch_id s).
  destruct (in_dec N.eq_dec b (map sh_branch_id shs)) as [Hin|Hout].
  - apply after_delete_pruned, in_to_zero. split; [exact Hin|].
    exists s. auto.
  - apply filter_none. intros sh Hsh. apply filter_In in Hsh as [Hsh _].
    apply N.eqb_neq. intros E. apply Hout. rewrite <- E. now apply in_map.
Qed.

Lemma to_zero_none (db : Database) (shs : list Shipment) :
  (forall s, In s (stores db) -> In (s_branch_id s) (map sh_branch_id shs) ->
             (s_min_shipment s <= total_shipment shs (s_branch_id s))%Z) ->
  to_zero db shs = [].
Proof.
  intros Hmet. destruct (to_zero db shs) as [|b tz] eqn:Etz; [reflexivity|].
  assert (Hb : In b (to_zero db shs)) by (rewrite Etz; simpl; auto).
  apply in_to_zero in Hb as [Hin [s [Hs [Eb Hlt]]]]. subst b.
  specialize (Hmet s Hs Hin). lia.
Qed.

Lemma leftover_of_absent (zs : list zeroed_row) (P : uuid) :
  ~ In P (map l_product_id (leftovers zs)) -> leftover_of zs P = 0%Z.
Proof.
  intros Hout. unfold leftover_of.
  rewrite (filter_none (fun z => (z_product_id z =? P)%N) zs); [reflexivity|].
  intros z Hz. apply N.eqb_neq. intros E. apply Hout.
  apply in_map_iff.
  exists {| l_product_id := P; l_leftover := leftover_of zs P |}.
  split; [reflexivity|]. apply in_leftovers. simpl. split; [|reflexivity].
  rewrite <- E. now apply in_map.
Qed.

Lemma adjustment_product_sum `{RowOrder} (db : Database)
    (shs : list Shipment) (P : uuid) :
  (forall sh, In sh shs -> (0 <= sh_shipment_qty sh)%Z) ->
  product_shipment (adjustment_sql db shs) P
  = (product_shipment shs P
     - Z.max 0 (leftover_of (zeroed (to_zero db shs) shs) P
                - Z.of_nat (length (eligible db P))))%Z.
Proof.
  intros Hpos. unfold adjustment_sql.
  rewrite product_shipment_app, (product_split (to_zero db shs) shs P).
  assert (Hl := leftover_of_nonneg (to_zero db shs) shs P Hpos).
  set (zs := zeroed (to_zero db shs) shs) in *.
  destruct (in_dec N.eq_dec P (map l_product_id (leftovers zs)))
    as [Hin|Hout].
  - apply in_map_iff in Hin as [l [El Hin]].
    assert (E := reallocated_sum db shs l Hin). rewrite El in E.
    apply in_leftovers in Hin as [_ Ell]. rewrite Ell in E. simpl in E.
    rewrite El in E. rewrite E. lia.
  - unfold product_shipment at 2.
    rewrite (reallocated_no_leftover db shs P Hout).
    rewrite (leftover_of_absent zs P Hout). simpl. lia.
Qed.

(** ** Stores of pairwise distinct priority *)

Lemma NoDup_unique {K} (eqb : K -> K -> bool) (l : list K) :
  (forall x y, eqb x y = true <-> x = y) ->
  NoDup l -> unique eqb l = true.
Proof.
  intros Heqb. induction 1 as [|x l Hx _ IH]; simpl; [reflexivity|].
  rewrite IH, andb_true_r. apply negb_true_iff.
  destruct (existsb (eqb x) l) eqn:E; [|reflexivity].
  apply existsb_exists in E as [y [Hy E]]. apply Heqb in E. now subst y.
Qed.

Lemma distinct_in_partitions_intro {A} (part : A -> uuid) (key : A -> Z)
    (l : list A) :
  (forall P, NoDup (map key (filter (fun x => (part x =? P)%N) l))) ->
  distinct_in_partitions part key l = true.
Proof.
  intros Hnd. unfold distinct_in_partitions. apply forallb_forall.
  intros [k g] Hg. apply in_group_by in Hg as [_ ->]. simpl.
  apply (NoDup_unique Z.eqb _ Z.eqb_eq).
  rewrite (filter_ext _ (fun x => (part x =? k)%N))
    by (intros x; apply eqb_of_N).
  apply Hnd.
Qed.

Section DistinctPriorities.
Variable db : Database.
Hypothesis Hpk : primary_keys db = true.
Hypothesis Hdp : distinct_priorities db = true.

Lemma store_of_priority (s s' : Store) :
  In s (stores db) -> In s' (stores db) -> s_priority s = s_priority s' ->
  s = s'.
Proof.
  apply NoDup_map_in_inj. now apply unique_Z_NoDup.
Qed.

Lemma available_of_priorities (P : uuid) :
  NoDup (map a_priority (available_of db P)).
Proof.
  assert (Hb := available_of_NoDup db Hpk P).
  apply NoDup_map_of_inj; [exact (NoDup_map_inv _ _ Hb)|].
  intros a a' Ha Ha' E.
  apply (NoDup_map_in_inj _ _ _ _ Hb Ha Ha').
  apply filter_In in Ha as [Ha _]. apply filter_In in Ha' as [Ha' _].
  destruct (available_priority db a Ha) as [s [Hs [Eb Ep]]].
  destruct (available_priority db a' Ha') as [s' [Hs' [Eb' Ep']]].
  assert (s = s') by (apply store_of_priority; congruence).
  congruence.
Qed.

Lemma eligible_priorities (P : uuid) :
  NoDup (map av_priority (eligible db P)).
Proof.
  assert (Hb := eligible_NoDup db Hpk P).
  apply NoDup_map_of_inj; [exact (NoDup_map_inv _ _ Hb)|].
  intros a a' Ha Ha' E.
  apply (NoDup_map_in_inj _ _ _ _ Hb Ha Ha').
  apply filter_In in Ha as [Ha _]. apply filter_In in Ha' as [Ha' _].
  apply in_avail in Ha as [bp [s [n [_ [Hs [_ [Eb [_ [_ [_ ->]]]]]]]]]].
  apply in_avail in Ha'
    as [bp' [s' [n' [_ [Hs' [_ [Eb' [_ [_ [_ ->]]]]]]]]]].
  simpl in *. assert (s = s') by now apply store_of_priority.
  congruence.
Qed.

Lemma distinct_priorities_distribution : distribution_order_free db = true.
Proof.
  unfold distribution_order_free.
  destruct (rc db) as [rcs|] eqn:Hrc; [|reflexivity].
  destruct (first_pass _) as [fps|] eqn:Hfp; [|reflexivity].
  apply distinct_in_partitions_intro. intros P.
  destruct (in_dec N.eq_dec P (map rc_product_id rcs)) as [HP|HP].
  - apply in_map_iff in HP as [r [HrP Hr]].
    rewrite (pass1_of_product rcs fps P (rc_NoDup db rcs Hrc) r Hr HrP).
    rewrite map_map. cbn [pass1_of p1_priority].
    change (NoDup (map fp_priority (first_pass_product P fps))).
    rewrite <- (Forall2_map_eq _ a_priority fp_priority _ _
                  (first_pass_of_product db rcs fps Hrc Hfp P r Hr HrP))
      by (intros a fp E;
          apply first_pass_of_fields in E as [_ [_ [_ [-> _]]]];
          reflexivity).
    apply available_of_priorities.
  - rewrite pass1_no_rows; [constructor|].
    now apply (first_pass_no_stock db rcs fps Hfp).
Qed.

Lemma distinct_priorities_order_free : order_free db = true.
Proof.
  unfold order_free. rewrite distinct_priorities_distribution. simpl.
  destruct (@distribution_sql stable_order db) as [shs|]; [|reflexivity].
  apply distinct_in_partitions_intro. intros P.
  set (ls := leftovers (zeroed (to_zero db shs) shs)).
  rewrite (filter_join _ (fun l => (l_product_id l =? P)%N)) by reflexivity.
  destruct (in_dec N.eq_dec P (map l_product_id ls)) as [Hin|Hout].
  - apply in_map_iff in Hin as [l [El Hl]].
    rewrite (filter_key_single l_product_id _ l ls (leftovers_NoDup _) Hl).
    + unfold join. simpl. rewrite app_nil_r, map_map. simpl. rewrite El.
      apply eligible_priorities.
    + now apply N.eqb_eq.
    + intros y _ Hy. apply N.eqb_eq in Hy. congruence.
  - rewrite (filter_none (fun l => (l_product_id l =? P)%N) ls).
    + constructor.
    + intros l Hl. apply N.eqb_neq. intros E. apply Hout.
      rewrite <- E. now apply in_map.
Qed.
End DistinctPriorities.

(** ** What is read of [rc_products] *)

Lemma mapM_map {A B C} (f : B -> option C) (g : A -> B) (l : list A) :
  mapM f (map g l) = mapM (fun x => f (g x)) l.
Proof.
  induction l as [|x l IH]; [reflexivity|]. simpl. now rewrite IH.
Qed.

Lemma mapM_ext {A B} (f g : A -> option B) (l : list A) :
  (forall x, f x = g x) -> mapM f l = mapM g l.
Proof.
  intros E. induction l as [|x l IH]; [reflexivity|].
  simpl. now rewrite E, IH.
Qed.

Lemma rc_of_stock (db : Database) :
  rc db
  = mapM (fun k =>
            option_map
              (fun t => {| rc_product_id := k; rc_total_stock := t |})
              (numeric_to_int8
                 (Qsum (map snd
                            (filter (fun x : uuid * Q =>
                                       eqb_of N.eq_dec (fst x) k)
                                    (map (fun r =>
                                            (rcp_product_id r, rcp_stock r))
                                         (rc_products db)))))))
         (nodup N.eq_dec
                (map fst
                     (map (fun r => (rcp_product_id r, rcp_stock r))
                          (rc_products db)))).
Proof.
  unfold rc, group_by. rewrite mapM_map, !map_map. cbn [fst snd].
  apply mapM_ext. intros k. now rewrite filter_map_swap, map_map.
Qed.

Lemma rc_same_stock (db db' : Database) :
  map (fun r => (rcp_product_id r, rcp_stock r)) (rc_products db)
  = map (fun r => (rcp_product_id r, rcp_stock r)) (rc_products db') ->
  rc db = rc db'.
Proof.
  intros E. now rewrite !rc_of_stock, E.
Qed.

Lemma distribute_same_input `{RowOrder} (db db' : Database) :
  branch_products db = branch_products db' ->
  stores db = stores db' ->
  needs db = needs db' ->
  rc db = rc db' ->
  distribute db = distribute db'.
Proof.
  intros Ebp Es En Erc.
  assert (Ea : available db = available db')
    by (unfold available; now rewrite Ebp, Es, En).
  assert (Ev : avail db = avail db')
    by (unfold avail; now rewrite Ebp, Es, En).
  assert (Ez : forall shs, to_zero db shs = to_zero db' shs)
    by (intros shs; unfold to_zero; now rewrite Es).
  unfold distribute, distribution_sql, second_pass_rows.
  rewrite Erc, Ea. destruct (rc db') as [rcs|]; [|reflexivity].
  destruct (first_pass _) as [fps|]; [|reflexivity].
  destruct (insert_second_pass _) as [shs|]; [|reflexivity].
  unfold adjustment_sql, reallocated. now rewrite Ez, Ev.
Qed.

(** ** The remainder window, row by row *)

Lemma number_map {A B} (f : A -> B) (l : list A) :
  number (map f l) = map (fun x : Z * A => (fst x, f (snd x))) (number l).
Proof.
  unfold number. rewrite length_map. generalize (seq 1 (length l)).
  induction l as [|x l IH]; intros [|i s]; simpl; try reflexivity.
  now rewrite IH.
Qed.

Lemma StronglySorted_map_inv {A B} (R : B -> B -> Prop) (f : A -> B)
    (l : list A) :
  StronglySorted R (map f l) ->
  StronglySorted (fun x y => R (f x) (f y)) l.
Proof.
  induction l as [|x l IH]; simpl; intros Hs; [constructor|].
  apply StronglySorted_inv in Hs as [Hs Hx]. constructor; [auto|].
  rewrite Forall_forall in *. intros y Hy. apply Hx. now apply in_map.
Qed.

Lemma second_pass_ranked `{RowOrder} (db : Database) (rcs : list rc_row)
    (fps : list first_pass_row) (P : uuid) (r : rc_row) :
  rc db = Some rcs -> In r rcs -> rc_product_id r = P ->
  exists ord,
    Permutation (first_pass_product P fps) ord
    /\ StronglySorted (fun x y => (fp_priority y <= fp_priority x)%Z) ord
    /\ filter (fun sp => (sp_product_id sp =? P)%N)
              (second_pass (pass1 fps (remaining fps rcs)))
       = map (fun x : Z * first_pass_row =>
                {| sp_branch_id := fp_branch_id (snd x);
                   sp_product_id := P;
                   sp_shipment_qty :=
                     fp_shipped (snd x)
                     + inject_Z
                         (if (fst x
                              <=? Qfloor (remaining_of_product fps P r))%Z
                          then 1%Z else 0%Z) |})
             (number ord).
Proof.
  intros Hrc Hr HrP.
  rewrite second_pass_of_product,
    (pass1_of_product rcs fps P (rc_NoDup db rcs Hrc) r Hr HrP).
  set (rem := remaining_of_product fps P r).
  set (l := map (pass1_of rem) (first_pass_product P fps)).
  destruct (Permutation_map_inv (pass1_of rem) (first_pass_product P fps)
              (Permutation_sym (order_by_desc_perm _ p1_priority l)))
    as [ord [Eord Hperm]].
  exists ord. split; [exact Hperm|]. split.
  - assert (Hs := order_by_desc_sorted _ p1_priority l).
    rewrite Eord in Hs. apply StronglySorted_map_inv in Hs. exact Hs.
  - rewrite Eord, number_map, map_map. apply map_ext_in.
    intros [i fp] Hin. cbn [fst snd pass1_of p1_branch_id p1_product_id
                              p1_shipped p1_remaining].
    rewrite bonus_floor. f_equal.
    apply in_number in Hin as [_ Hin].
    apply (Permutation_in _ (Permutation_sym Hperm)) in Hin.
    apply filter_In in Hin as [_ E]. now apply N.eqb_eq in E.
Qed.

(** * Further properties of [distribute] *)

(** X1: every row of the final table, whether written by the first statement
    or appended by the reallocation, belongs to a branch and a product that
    have a row of [branch_products], a row of [needs], a store and a row of
    [rc_products]: the joins are inner joins. *)
Theorem final_rows_have_input_rows `{RowOrder} (db : Database)
    (sh : Shipment) :
  In sh (distribute db) ->
  exists bp n s r,
    In bp (branch_products db) /\ In n (needs db) /\ In s (stores db)
    /\ In r (rc_products db)
    /\ bp_branch_id bp = sh_branch_id sh
    /\ bp_product_id bp = sh_product_id sh
    /\ n_branch_id n = sh_branch_id sh /\ n_product_id n = sh_product_id sh
    /\ s_branch_id s = sh_branch_id sh
    /\ rcp_product_id r = sh_product_id sh.
Proof.
  unfold distribute. destruct (distribution_sql db) as [shs|] eqn:Hrun;
    [|intros []].
  unfold adjustment_sql. intros Hsh. apply in_app_or in Hsh as [Hsh|Hsh].
  - apply filter_In in Hsh as [Hsh _].
    exact (distribution_row_origin db shs sh Hrun Hsh).
  - exact (reallocated_row_origin db shs sh Hrun Hsh).
Qed.

Lemma final_rows_have_input_rows_witness :
  In (shipment 2 1 6) (@distribute stable_order scenario_B)
  /\ exists bp n s r,
       In bp (branch_products scenario_B) /\ In n (needs scenario_B)
       /\ In s (stores scenario_B) /\ In r (rc_products scenario_B)
       /\ bp_branch_id bp = 2%N /\ bp_product_id bp = 1%N
       /\ n_branch_id n = 2%N /\ n_product_id n = 1%N
       /\ s_branch_id s = 2%N /\ rcp_product_id r = 1%N.
Proof.
  assert (E : @distribute stable_order scenario_B
              = [shipment 2 1 6; shipment 1 1 5]) by reflexivity.
  split; [rewrite E; left; reflexivity|].
  apply (@final_rows_have_input_rows stable_order scenario_B
           (shipment 2 1 6)).
  rewrite E. left. reflexivity.
Defined.

(** X2: when one of the four input tables is empty the final table is
    empty. *)
Theorem empty_table_no_shipments `{RowOrder} (db : Database) :
  branch_products db = [] \/ needs db = [] \/ stores db = []
  \/ rc_products db = [] ->
  distribute db = [].
Proof.
  intros Hemp.
  assert (Hnone : forall sh, ~ has_input_rows db sh).
  { intros sh [bp [n [s [r [Hbp [Hn [Hs [Hr _]]]]]]]].
    destruct Hemp as [E|[E|[E|E]]]; rewrite E in *; contradiction. }
  unfold distribute. destruct (distribution_sql db) as [shs|] eqn:Hrun;
    [|reflexivity].
  unfold adjustment_sql.
  destruct shs as [|sh shs];
    [|destruct (Hnone sh);
      apply (distribution_row_origin db (sh :: shs) sh Hrun); now left].
  destruct (reallocated db []) as [|sh added] eqn:Ea; [reflexivity|].
  destruct (Hnone sh).
  apply (reallocated_row_origin db [] sh Hrun). rewrite Ea. now left.
Qed.

Lemma empty_table_no_shipments_witness :
  (branch_products no_central_stock_input = []
   \/ needs no_central_stock_input = []
   \/ stores no_central_stock_input = []
   \/ rc_products no_central_stock_input = [])
  /\ @distribute stable_order no_central_stock_input = [].
Proof.
  split; [right; right; right; reflexivity|].
  apply (@empty_table_no_shipments stable_order no_central_stock_input).
  right. right. right. reflexivity.
Defined.

(** X3: when the input tables satisfy their primary keys and the branch
    stock is whole, the final rows of a branch and product add up to at
    most the deficit of the pair plus 2: the first pass is capped at the
    deficit, the remainder window may add one unit whatever the deficit
    left, and the reallocation may append one more. *)
Theorem pair_within_deficit_plus_two `{RowOrder} (db : Database)
    (bp : BranchProduct) (n : Need) :
  primary_keys db = true -> whole_branch_stock db = true ->
  In bp (branch_products db) -> In n (needs db) ->
  bp_branch_id bp = n_branch_id n -> bp_product_id bp = n_product_id n ->
  inject_Z
    (Zsum (map sh_shipment_qty
               (filter (fun sh =>
                          pair_eqb (shipment_key sh)
                                   (bp_branch_id bp, bp_product_id bp))
                       (distribute db))))
  <= deficit bp n + 2.
Proof.
  intros Hpk Hw Hbp Hn E1 E2. assert (Hd := deficit_nonneg bp n).
  unfold distribute. destruct (distribution_sql db) as [shs|] eqn:Hrun;
    [|change (0 <= deficit bp n + 2); lra].
  unfold adjustment_sql.
  set (k := (bp_branch_id bp, bp_product_id bp)).
  rewrite filter_app, map_app, Zsum_app, inject_Z_plus.
  assert (A : inject_Z
                (Zsum (map sh_shipment_qty
                           (filter (fun sh => pair_eqb (shipment_key sh) k)
                                   (after_delete (to_zero db shs) shs))))
              <= deficit bp n + 1).
  { apply Zsum_le1; [| lra |].
    - rewrite length_map. apply key_count_le1.
      apply NoDup_keys_of_products. intros P.
      now apply (after_delete_branches_NoDup db shs Hpk).
    - intros z Hz. apply in_map_iff in Hz as [sh [<- Hsh]].
      apply filter_In in Hsh as [Hsh Ek]. apply pair_eqb_eq in Ek.
      apply filter_In in Hsh as [Hsh _].
      destruct (distribution_row db shs sh Hrun Hsh)
        as [a [q [Ha [Eb [EP [_ [_ [Hq [_ Hwq]]]]]]]]].
      unfold shipment_key, k in Ek. injection Ek as Ek1 Ek2.
      rewrite (Hwq Hw).
      rewrite (available_deficit_of db bp n a Hpk Hbp Hn E1 E2 Ha) in Hq;
        [exact Hq|congruence|congruence]. }
  assert (B : inject_Z
                (Zsum (map sh_shipment_qty
                           (filter (fun sh => pair_eqb (shipment_key sh) k)
                                   (reallocated db shs))))
              <= 1).
  { apply Zsum_le1; [| lra |].
    - rewrite length_map. apply key_count_le1.
      apply NoDup_keys_of_products. intros P.
      now apply (reallocated_branches_NoDup db shs Hpk).
    - intros z Hz. apply in_map_iff in Hz as [sh [<- Hsh]].
      apply filter_In in Hsh as [Hsh _].
      assert (Hu := reallocated_units db shs).
      rewrite Forall_forall in Hu. rewrite (Hu sh Hsh). apply Qle_refl. }
  lra.
Qed.

Lemma pair_within_deficit_plus_two_witness :
  primary_keys pruned_branch_input = true
  /\ whole_branch_stock pruned_branch_input = true
  /\ deficit (branch_product 1 2 0) (need 2 1 5) == 5
  /\ inject_Z
       (Zsum (map sh_shipment_qty
                  (filter (fun sh => pair_eqb (shipment_key sh) (2%N, 1%N))
                          (@distribute stable_order pruned_branch_input))))
     <= deficit (branch_product 1 2 0) (need 2 1 5) + 2.
Proof.
  split; [reflexivity|]. split; [reflexivity|]. split; [reflexivity|].
  apply (@pair_within_deficit_plus_two stable_order pruned_branch_input
           (branch_product 1 2 0) (need 2 1 5));
    try reflexivity; simpl; auto.
Defined.



(** X5: a branch whose total after the first statement is below its
    [min_shipment] is not shut out of the reallocation: its rows in the
    final table are exactly the rows the reallocation appends for it, each
    of one unit and, under the primary keys, at most one per product. *)
Theorem below_threshold_branch_gets_units `{RowOrder} (db : Database)
    (shs : list Shipment) (s : Store) :
  distribution_sql db = Some shs ->
  In s (stores db) ->
  (total_shipment shs (s_branch_id s) < s_min_shipment s)%Z ->
  let b := s_branch_id s in
  of_branch b (distribute db) = of_branch b (reallocated db shs)
  /\ Forall (fun sh => sh_shipment_qty sh = 1%Z) (of_branch b (distribute db))
  /\ (primary_keys db = true ->
      NoDup (map sh_product_id (of_branch b (distribute db)))).
Proof.
  intros Hrun Hs Hlt b. unfold b. clear b. set (b := s_branch_id s).
  assert (E : of_branch b (distribute db) = of_branch b (reallocated db shs)).
  { unfold distribute. rewrite Hrun. unfold adjustment_sql.
    rewrite of_branch_app. unfold b.
    now rewrite (of_branch_below_threshold db shs s Hs Hlt). }
  split; [exact E|]. rewrite E. split.
  - apply Forall_forall. intros sh Hsh. apply filter_In in Hsh as [Hsh _].
    assert (Hu := reallocated_units db shs). rewrite Forall_forall in Hu.
    now apply Hu.
  - intros Hpk. apply NoDup_of_fixed.
    apply (NoDup_keys_of_products (reallocated db shs)). intros P.
    now apply reallocated_branches_NoDup.
Qed.

Lemma below_threshold_branch_gets_units_witness :
  @distribution_sql stable_order lone_branch_input = Some [shipment 1 1 4]
  /\ In (store 1 1 100) (stores lone_branch_input)
  /\ (total_shipment [shipment 1 1 4] 1 < 100)%Z
  /\ @distribute stable_order lone_branch_input = [shipment 1 1 1]
  /\ of_branch 1 (@distribute stable_order lone_branch_input)
     = of_branch 1 (@reallocated stable_order lone_branch_input
                      [shipment 1 1 4]).
Proof.
  split; [reflexivity|]. split; [left; reflexivity|].
  split; [reflexivity|]. split; [reflexivity|].
  apply (@below_threshold_branch_gets_units stable_order lone_branch_input
           [shipment 1 1 4] (store 1 1 100));
    [reflexivity|left; reflexivity|reflexivity].
Defined.

(** X6: when every branch that has a row after the first statement reaches
    its [min_shipment], the second statement deletes nothing and appends
    nothing: the final table is the table the first statement wrote. *)
Theorem thresholds_met_table_unchanged `{RowOrder} (db : Database)
    (shs : list Shipment) :
  distribution_sql db = Some shs ->
  (forall s, In s (stores db) -> In (s_branch_id s) (map sh_branch_id shs) ->
             (s_min_shipment s <= total_shipment shs (s_branch_id s))%Z) ->
  distribute db = shs.
Proof.
  intros Hrun Hmet. unfold distribute. rewrite Hrun.
  apply adjustment_nothing_pruned. now apply to_zero_none.
Qed.

Lemma thresholds_met_table_unchanged_witness :
  @distribution_sql stable_order scenario_B
  = Some [shipment 2 1 6; shipment 1 1 5]
  /\ @distribute stable_order scenario_B = [shipment 2 1 6; shipment 1 1 5].
Proof.
  split; [reflexivity|].
  apply (@thresholds_met_table_unchanged stable_order scenario_B
           [shipment 2 1 6; shipment 1 1 5]); [reflexivity|].
  intros s [<-|[<-|[]]] _; vm_compute; discriminate.
Defined.

(** X7: the second statement takes from a product exactly the part of its
    leftover pool that exceeds the number of eligible branches; a product
    whose pool does not exceed that number ends with the total the first
    statement gave it. *)
Theorem adjustment_loses_pool_surplus `{RowOrder} (db : Database)
    (shs : list Shipment) (P : uuid) :
  distribution_sql db = Some shs ->
  product_shipment (distribute db) P
  = (product_shipment shs P
     - Z.max 0 (leftover_of (zeroed (to_zero db shs) shs) P
                - Z.of_nat (length (eligible db P))))%Z.
Proof.
  intros Hrun. unfold distribute. rewrite Hrun.
  apply adjustment_product_sum. intros sh.
  now apply (distribution_qty_nonneg db shs).
Qed.

Lemma adjustment_loses_pool_surplus_witness :
  @distribution_sql stable_order lone_branch_input = Some [shipment 1 1 4]
  /\ product_shipment (@distribute stable_order lone_branch_input) 1
     = (product_shipment [shipment 1 1 4] 1
        - Z.max 0 (leftover_of
                     (zeroed (to_zero lone_branch_input [shipment 1 1 4])
                             [shipment 1 1 4]) 1
                   - Z.of_nat (length (eligible lone_branch_input 1))))%Z.
Proof.
  split; [reflexivity|].
  apply (@adjustment_loses_pool_surplus stable_order lone_branch_input
           [shipment 1 1 4] 1).
  reflexivity.
Defined.

(** X8: when the input tables satisfy their primary keys and no two stores
    have the same priority, the final table does not depend on the order
    the engine gives to rows of equal rank: every window partition has
    pairwise distinct priorities. *)
Theorem distinct_priorities_one_result (O1 O2 : RowOrder) (db : Database) :
  primary_keys db = true -> distinct_priorities db = true ->
  @distribute O1 db = @distribute O2 db.
Proof.
  intros Hpk Hdp.
  assert (Hfree := distinct_priorities_order_free db Hpk Hdp).
  rewrite (@distribute_order_free O1 db Hfree).
  now rewrite (@distribute_order_free O2 db Hfree).
Qed.

Lemma distinct_priorities_one_result_witness :
  primary_keys pruned_branch_input = true
  /\ distinct_priorities pruned_branch_input = true
  /\ @distribute stable_order pruned_branch_input
     = @distribute reverse_scan_order pruned_branch_input.
Proof.
  split; [reflexivity|]. split; [reflexivity|].
  apply (distinct_priorities_one_result stable_order reverse_scan_order
           pruned_branch_input); reflexivity.
Defined.

(** X9: of [rc_products] the statements read [product_id] and [stock]
    only: two inputs that agree on these two columns, row by row, and on
    the other tables end with the same final table.  The [reserve] and
    [transit] of the central locations are never subtracted or added. *)
Theorem central_reserve_and_transit_unread `{RowOrder} (db db' : Database) :
  branch_products db = branch_products db' ->
  stores db = stores db' ->
  needs db = needs db' ->
  map (fun r => (rcp_product_id r, rcp_stock r)) (rc_products db)
  = map (fun r => (rcp_product_id r, rcp_stock r)) (rc_products db') ->
  distribute db = distribute db'.
Proof.
  intros Ebp Es En Erc.
  apply distribute_same_input; auto. now apply rc_same_stock.
Qed.

Lemma central_reserve_and_transit_unread_witness :
  total_central_stock central_reserve_input 1 == 11
  /\ @distribute stable_order central_reserve_input
     = @distribute stable_order scenario_B.
Proof.
  split; [reflexivity|].
  apply (@central_reserve_and_transit_unread stable_order
           central_reserve_input scenario_B); reflexivity.
Defined.

(** X10: the remainder window of the first statement ranks every first-pass
    row of a product by priority descending and adds one unit to each row
    whose rank is at most what remains of the rounded total stock, so that
    the units go to the highest priorities first; the deficit a row has
    left plays no part. *)
Theorem remainder_by_rank `{RowOrder} (db : Database)
    (fps : list first_pass_row) (sps : list second_pass_row) (P : uuid) :
  first_pass_rows db = Some fps ->
  second_pass_rows db = Some sps ->
  In P (map rcp_product_id (rc_products db)) ->
  let rem := inject_Z (numeric_round (total_central_stock db P))
             - Qsum (map fp_shipped (first_pass_product P fps)) in
  exists ord,
    Permutation (first_pass_product P fps) ord
    /\ StronglySorted (fun x y => (fp_priority y <= fp_priority x)%Z) ord
    /\ filter (fun sp => (sp_product_id sp =? P)%N) sps
       = map (fun x : Z * first_pass_row =>
                {| sp_branch_id := fp_branch_id (snd x);
                   sp_product_id := P;
                   sp_shipment_qty :=
                     fp_shipped (snd x)
                     + inject_Z (if (fst x <=? Qfloor rem)%Z
                                 then 1%Z else 0%Z) |})
             (number ord).
Proof.
  unfold first_pass_rows, second_pass_rows.
  destruct (rc db) as [rcs|] eqn:Hrc; [|discriminate].
  destruct (first_pass _) as [fps'|] eqn:Hfp; [|discriminate].
  intros Efps Esps HP. injection Efps as ->. injection Esps as <-.
  rewrite <- (nodup_In N.eq_dec), <- (rc_keys db rcs Hrc) in HP.
  apply in_map_iff in HP as [r [HrP Hr]].
  assert (ET := numeric_to_int8_round _ _ (rc_total db rcs r Hrc Hr)).
  rewrite HrP in ET. rewrite <- ET.
  exact (second_pass_ranked db rcs fps P r Hrc Hr HrP).
Qed.

Lemma remainder_by_rank_witness :
  exists ord,
    Permutation
      (first_pass_product 1
         [{| fp_product_id := 1; fp_branch_id := 1; fp_deficit := 0;
             fp_priority := 5; fp_shipped := 0 |};
          {| fp_product_id := 1; fp_branch_id := 2; fp_deficit := 1;
             fp_priority := 1; fp_shipped := 1 |}]) ord
    /\ StronglySorted (fun x y => (fp_priority y <= fp_priority x)%Z) ord.
Proof.
  destruct (@remainder_by_rank stable_order zero_deficit_input
              [{| fp_product_id := 1; fp_branch_id := 1; fp_deficit := 0;
                  fp_priority := 5; fp_shipped := 0 |};
               {| fp_product_id := 1; fp_branch_id := 2; fp_deficit := 1;
                  fp_priority := 1; fp_shipped := 1 |}]
              [{| sp_branch_id := 1; sp_product_id := 1;
                  sp_shipment_qty := 0 + inject_Z 1 |};
               {| sp_branch_id := 2; sp_product_id := 1;
                  sp_shipment_qty := 1 + inject_Z 1 |}] 1)
    as [ord [Hperm [Hsorted _]]];
    [reflexivity|reflexivity|left; reflexivity|].
  exists ord. split; [exact Hperm|exact Hsorted].
Defined.

(** * The tables [populate_db.py] builds *)

(** ** [ON CONFLICT DO NOTHING] *)

Section InsertDoNothing.
Context {A K : Type}.
Variables (eqb : K -> K -> bool) (key : A -> K).
Hypothesis eqb_eq : forall x y, eqb x y = true <-> x = y.

Lemma key_present (t : list A) (x : A) :
  existsb (fun y => eqb (key y) (key x)) t = true <-> In (key x) (map key t).
Proof.
  rewrite existsb_exists, in_map_iff. split.
  - intros [y [Hy E]]. apply eqb_eq in E. now exists y.
  - intros [y [E Hy]]. exists y. split; [exact Hy|]. now apply eqb_eq.
Qed.

Lemma insert_do_nothing_app (rows rows' table : list A) :
  insert_do_nothing eqb key (rows ++ rows') table
  = insert_do_nothing eqb key rows' (insert_do_nothing eqb key rows table).
Proof. apply fold_left_app. Qed.

(** The table grows at its end, by rows of the statement. *)
Lemma insert_do_nothing_added (rows table : list A) :
  exists added,
    insert_do_nothing eqb key rows table = table ++ added
    /\ forall x, In x added -> In x rows.
Proof.
  revert table. induction rows as [|x rows IH]; intros table.
  - exists []. simpl. now rewrite app_nil_r.
  - cbn [insert_do_nothing fold_left].
    destruct (existsb (fun y => eqb (key y) (key x)) table).
    + destruct (IH table) as [added [E Hin]]. exists added.
      split; [exact E|]. intros y Hy. right. auto.
    + destruct (IH (table ++ [x])) as [added [E Hin]].
      exists (x :: added). split.
      * unfold insert_do_nothing in E. rewrite E, <- app_assoc. reflexivity.
      * intros y [<-|Hy]; [now left|right; auto].
Qed.

Lemma insert_do_nothing_NoDup (rows table : list A) :
  NoDup (map key table) ->
  NoDup (map key (insert_do_nothing eqb key rows table)).
Proof.
  revert table. induction rows as [|x rows IH]; intros table Hnd;
    [exact Hnd|].
  cbn [insert_do_nothing fold_left].
  destruct (existsb (fun y => eqb (key y) (key x)) table) eqn:E;
    [now apply IH|].
  apply IH. rewrite map_app. simpl.
  apply (Permutation_NoDup (Permutation_cons_append _ _)).
  constructor; [|exact Hnd].
  intros Hin. apply key_present in Hin. congruence.
Qed.

(** Every key of the statement is in the table afterwards. *)
Lemma insert_do_nothing_covers (rows table : list A) (x : A) :
  In x rows \/ In (key x) (map key table) ->
  In (key x) (map key (insert_do_nothing eqb key rows table)).
Proof.
  revert table. induction rows as [|y rows IH]; intros table.
  - intros [[]|Hin]. exact Hin.
  - cbn [insert_do_nothing fold_left]. intros Hx.
    destruct (existsb (fun z => eqb (key z) (key y)) table) eqn:E.
    + apply IH. destruct Hx as [[->|Hx]|Hx]; auto.
      right. now apply key_present.
    + apply IH. destruct Hx as [[->|Hx]|Hx]; auto; right;
        rewrite map_app, in_app_iff; simpl; auto.
Qed.
End InsertDoNothing.

(** ** [copy_csv] *)

Section CopyRows.
Context {A K : Type}.
Variables (parse : String.string -> option A) (eqb : K -> K -> bool)
  (key : A -> K).

(** The rows a [COPY] loads are the readings of its lines, in order. *)
Lemma copy_rows_loaded (lines : list String.string) (table table' : list A) :
  copy_rows parse eqb key lines table = Some table' ->
  exists rows, mapM parse lines = Some rows /\ table' = table ++ rows.
Proof.
  revert table. induction lines as [|line lines IH]; intros table; simpl.
  - intros E. injection E as <-. exists []. now rewrite app_nil_r.
  - destruct (parse line) as [x|]; [|discriminate].
    destruct (existsb _ table); [discriminate|].
    intros E. destruct (IH _ E) as [rows [-> ->]].
    exists (x :: rows). now rewrite <- app_assoc.
Qed.

Hypothesis eqb_eq : forall x y, eqb x y = true <-> x = y.

Lemma copy_rows_NoDup (lines : list String.string) (table table' : list A) :
  NoDup (map key table) ->
  copy_rows parse eqb key lines table = Some table' ->
  NoDup (map key table').
Proof.
  revert table. induction lines as [|line lines IH]; intros table Hnd; simpl.
  - intros E. now injection E as <-.
  - destruct (parse line) as [x|]; [|discriminate].
    destruct (existsb _ table) eqn:E; [discriminate|].
    apply IH. rewrite map_app. simpl.
    apply (Permutation_NoDup (Permutation_cons_append _ _)).
    constructor; [|exact Hnd].
    intros Hin. apply (key_present eqb key eqb_eq) in Hin. congruence.
Qed.

Lemma copy_csv_NoDup (file : list String.string) (table' : list A) :
  copy_csv parse eqb key file [] = Some table' -> NoDup (map key table').
Proof.
  destruct file as [|header rest]; [discriminate|].
  apply copy_rows_NoDup. constructor.
Qed.
End CopyRows.

(** ** Dictionaries built from rows *)

Section DictGet.
Context {A K V : Type}.
Variables (eqb : K -> K -> bool) (key : A -> K) (val : A -> V).

Lemma dict_get_last (rows : list A) (r : A) (k : K) :
  dict_get eqb key val (rows ++ [r]) k
  = if eqb (key r) k then Some (val r) else dict_get eqb key val rows k.
Proof. unfold dict_get. now rewrite fold_left_app. Qed.

Lemma dict_get_in (rows : list A) (k : K) (v : V) :
  dict_get eqb key val rows k = Some v ->
  exists r, In r rows /\ eqb (key r) k = true /\ val r = v.
Proof.
  induction rows as [|r rows IH] using rev_ind; [discriminate|].
  rewrite dict_get_last. destruct (eqb (key r) k) eqn:E.
  - intros Ev. injection Ev as <-. exists r.
    rewrite in_app_iff. simpl. auto.
  - intros Ev. destruct (IH Ev) as [r' [Hr' H']]. exists r'.
    rewrite in_app_iff. auto.
Qed.

Hypothesis eqb_eq : forall x y, eqb x y = true <-> x = y.

Lemma dict_get_row (rows : list A) (r : A) :
  NoDup (map key rows) -> In r rows ->
  dict_get eqb key val rows (key r) = Some (val r).
Proof.
  induction rows as [|r' rows IH] using rev_ind; [intros _ []|].
  rewrite map_app. simpl. intros Hnd Hin.
  apply (Permutation_NoDup (Permutation_sym (Permutation_cons_append _ _)))
    in Hnd.
  apply NoDup_cons_iff in Hnd as [Hr' Hnd].
  rewrite dict_get_last. apply in_app_or in Hin as [Hin|[->|[]]].
  - destruct (eqb (key r') (key r)) eqn:E; [|auto].
    apply eqb_eq in E. exfalso. apply Hr'. rewrite E. now apply in_map.
  - now rewrite (proj2 (eqb_eq _ _) eq_refl).
Qed.
End DictGet.

(** ** Random integers, stores and needs *)

Lemma random_int_range (k : Z) (r : Q) :
  (0 < k)%Z -> 0 <= r -> r < 1 -> (1 <= random_int k r <= k)%Z.
Proof.
  intros Hk H0 H1. unfold random_int.
  assert (Hk' : 0 < inject_Z k)
    by (change 0 with (inject_Z 0); now rewrite <- Zlt_Qlt).
  assert (Hlo : 0 <= r * inject_Z k)
    by (apply Qmult_le_0_compat; [exact H0|now apply Qlt_le_weak]).
  assert (Hhi : r * inject_Z k < inject_Z k).
  { rewrite <- (Qmult_1_l (inject_Z k)) at 2.
    now apply Qmult_lt_compat_r. }
  assert (F0 : (0 <= Qfloor (r * inject_Z k))%Z).
  { rewrite <- (Qfloor_Z 0). now apply Qfloor_resp_le. }
  assert (F1 : (Qfloor (r * inject_Z k) < k)%Z).
  { rewrite Zlt_Qlt.
    apply Qle_lt_trans with (r * inject_Z k); [apply Qfloor_le|exact Hhi]. }
  lia.
Qed.

Lemma in_combine_seq {A} (l : list A) (x : A) (s : nat) :
  In x l -> exists i, In (i, x) (combine (seq s (length l)) l).
Proof.
  revert s. induction l as [|y l IH]; intros s; [intros []|].
  intros [->|Hx].
  - exists s. now left.
  - destruct (IH (S s) Hx) as [i Hi]. exists i. now right.
Qed.

Lemma in_store_rows (random : nat -> Q) (bps : list BranchProduct)
    (s : Store) :
  In s (store_rows random bps) ->
  exists i bp,
    In bp bps /\ s_branch_id s = bp_branch_id bp
    /\ s_priority s = random_int 5 (random (2 * i)%nat)
    /\ s_min_shipment s = random_int 20 (random (2 * i + 1)%nat).
Proof.
  unfold store_rows. rewrite nodup_In, in_map_iff.
  intros [[i bp] [<- Hin]]. apply in_combine_r in Hin.
  exists i, bp. simpl. auto.
Qed.

Lemma store_rows_cover (random : nat -> Q) (bps : list BranchProduct)
    (bp : BranchProduct) :
  In bp bps ->
  exists s, In s (store_rows random bps) /\ s_branch_id s = bp_branch_id bp.
Proof.
  intros Hbp. destruct (in_combine_seq bps bp 0 Hbp) as [i Hi].
  eexists. split.
  - unfold store_rows. rewrite nodup_In. apply in_map_iff.
    exists (i, bp). split; [reflexivity|exact Hi].
  - reflexivity.
Qed.

Lemma logdays_of_nonneg (products : list Product) (logdays : list Logday)
    (b p : uuid) :
  (forall l, In l logdays -> (0 <= ld_logdays l)%Z) ->
  (0 <= logdays_of products logdays b p)%Z.
Proof.
  intros Hl. unfold logdays_of.
  destruct (dict_get N.eqb _ _ products p) as [c|]; [|lia].
  destruct (dict_get pair_eqb _ _ logdays (b, c)) as [d|] eqn:E; [|lia].
  apply dict_get_in in E as [l [Hin [_ <-]]]. auto.
Qed.

Lemma need_calc_positive (r stock : Q) (ld : Z) :
  0 <= r -> (0 <= ld)%Z -> (1 <= need_calc r stock ld)%Z.
Proof.
  intros Hr Hld. unfold need_calc.
  assert (H150 : 0 <= Qmax 150 stock).
  { apply Qle_trans with 150; [discriminate|apply Q.le_max_l]. }
  assert (Hld' : 0 <= inject_Z ld)
    by (change 0 with (inject_Z 0); now rewrite <- Zle_Qle).
  assert (H0 : 0 <= r * Qmax 150 stock * inject_Z ld)
    by (repeat apply Qmult_le_0_compat; assumption).
  apply Qfloor_resp_le in H0. change (Qfloor 0) with 0%Z in H0. lia.
Qed.

(** ** The loop of [populate_needs] *)

Lemma execute_values_app (batch batch' needs : list Need) :
  execute_values (batch ++ batch') needs
  = match execute_values batch needs with
    | None => None
    | Some needs' => execute_values batch' needs'
    end.
Proof.
  unfold execute_values. rewrite forallb_app.
  destruct (forallb _ batch); [|reflexivity]. simpl.
  destruct (forallb _ batch'); [|reflexivity].
  now rewrite insert_do_nothing_app.
Qed.

Lemma execute_values_nil (needs : list Need) :
  execute_values [] needs = Some needs.
Proof. reflexivity. Qed.

Lemma needs_loop_one_statement (random : nat -> Q) (t : Tables)
    (rows : list (nat * BranchProduct)) (batch needs : list Need) :
  needs_loop random t rows batch needs
  = execute_values (batch ++ map (need_row random t) rows) needs.
Proof.
  revert batch needs. induction rows as [|x rows IH]; intros batch needs.
  - simpl. rewrite app_nil_r. now destruct batch.
  - cbn [needs_loop map].
    replace (batch ++ need_row random t x :: map (need_row random t) rows)
      with ((batch ++ [need_row random t x])
            ++ map (need_row random t) rows)
      by (now rewrite <- app_assoc).
    destruct (10000 <=? N.of_nat (length (batch ++ [need_row random t x])))%N.
    + rewrite (execute_values_app (batch ++ [need_row random t x])
                 (map (need_row random t) rows)).
      destruct (execute_values (batch ++ [need_row random t x]) needs)
        as [needs'|]; [|reflexivity].
      now rewrite IH.
    + apply IH.
Qed.

Lemma execute_values_rows (batch needs needs' : list Need) :
  execute_values batch needs = Some needs' ->
  needs' = insert_do_nothing pair_eqb need_key batch needs
  /\ forall n, In n batch -> (int4_min <= n_need n <= int4_max)%Z.
Proof.
  unfold execute_values. destruct (forallb _ batch) eqn:E; [|discriminate].
  intros E'. injection E' as <-. split; [reflexivity|].
  intros n Hn. rewrite forallb_forall in E. specialize (E n Hn).
  apply andb_true_iff in E as [E1 E2]. apply Z.leb_le in E1, E2. lia.
Qed.

(** The rows [populate_needs] writes. *)
Lemma populate_needs_rows (random : nat -> Q) (t t' : Tables) :
  populate_needs random t = Some t' ->
  t_rc_products t' = t_rc_products t
  /\ t_branch_products t' = t_branch_products t
  /\ t_products t' = t_products t
  /\ t_logdays t' = t_logdays t
  /\ t_stores t' = t_stores t
  /\ execute_values
       (map (need_row random t)
            (combine (seq 0 (length (t_branch_products t)))
                     (t_branch_products t)))
       (t_needs t)
     = Some (t_needs t').
Proof.
  unfold populate_needs. rewrite needs_loop_one_statement. simpl.
  destruct (execute_values _ _) as [needs'|]; [|discriminate].
  intros E. injection E as <-. simpl. auto 10.
Qed.

Lemma need_row_value (random : nat -> Q) (t : Tables)
    (x : nat * BranchProduct) :
  (forall i, 0 <= random i) ->
  (forall l, In l (t_logdays t) -> (0 <= ld_logdays l)%Z) ->
  NoDup (map s_branch_id (t_stores t)) ->
  (1 <= n_need (need_row random t x))%Z
  /\ forall s, In s (t_stores t) ->
               s_branch_id s = bp_branch_id (snd x) ->
               (s_min_shipment s <= n_need (need_row random t x))%Z.
Proof.
  intros Hr Hl Hnd. unfold need_row, need_val. cbn [n_need].
  assert (H1 := need_calc_positive (random (fst x)) (bp_stock (snd x))
                  (logdays_of (t_products t) (t_logdays t)
                              (bp_branch_id (snd x))
                              (bp_product_id (snd x)))
                  (Hr _) (logdays_of_nonneg _ _ _ _ Hl)).
  split; [lia|]. intros s Hs Eb.
  rewrite <- Eb.
  rewrite (dict_get_row N.eqb s_branch_id s_min_shipment N.eqb_eq
             (t_stores t) s Hnd Hs).
  lia.
Qed.

(** ** Complete tables *)

Lemma filter_one {A} (p : A -> bool) (l : list A) (d : A) :
  (length (filter p l) <= 1)%nat ->
  (exists x, In x l /\ p x = true) ->
  filter p l = [hd d (filter p l)].
Proof.
  intros Hlen [x [Hx Hp]].
  assert (Hin : In x (filter p l)) by (apply filter_In; auto).
  destruct (filter p l) as [|y [|z rest]]; simpl in *; [contradiction| |lia].
  reflexivity.
Qed.

(** When every row of [branch_products] has its need and its store, the
    joins of [available] keep each of them once. *)
Lemma available_complete (db : Database) :
  primary_keys db = true ->
  (forall bp, In bp (branch_products db) ->
     exists n, In n (needs db) /\ n_branch_id n = bp_branch_id bp
               /\ n_product_id n = bp_product_id bp) ->
  (forall bp, In bp (branch_products db) ->
     exists s, In s (stores db) /\ s_branch_id s = bp_branch_id bp) ->
  map (fun a => (a_product_id a, a_branch_id a)) (available db)
  = map (fun bp => (bp_product_id bp, bp_branch_id bp)) (branch_products db).
Proof.
  intros Hpk Hneed Hstore. unfold available.
  rewrite (join_single _
             (fun bp => hd (need 0 0 0)
                           (filter (fun n =>
                                      (bp_branch_id bp =? n_branch_id n)%N
                                      && (bp_product_id bp
                                          =? n_product_id n)%N)
                                   (needs db)))
             (branch_products db) (needs db)).
  - rewrite (join_single _
               (fun x : BranchProduct * Need =>
                  hd (store 0 0 0)
                     (filter (fun s =>
                                (bp_branch_id (fst x) =? s_branch_id s)%N)
                             (stores db)))).
    + rewrite !map_map. reflexivity.
    + intros [bp n] Hx. apply in_map_iff in Hx as [bp' [E Hbp]].
      injection E as -> _. simpl.
      apply filter_one; [apply (one_store db Hpk)|].
      destruct (Hstore bp Hbp) as [s [Hs Es]]. exists s.
      split; [exact Hs|]. now apply N.eqb_eq.
  - intros bp Hbp. apply filter_one; [apply (one_need db Hpk)|].
    destruct (Hneed bp Hbp) as [n [Hn [E1 E2]]]. exists n.
    split; [exact Hn|]. apply andb_true_iff. split; now apply N.eqb_eq.
Qed.

(** ** The steps of [main] *)

Section Main.
Variables (parse_rc : String.string -> option RcProduct)
  (parse_bp : String.string -> option BranchProduct)
  (parse_prod : String.string -> option Product)
  (rc_csv bp_csv prod_csv : list String.string)
  (sql_random py_random : nat -> Q)
  (t : Tables).
Hypothesis Hmain :
  main parse_rc parse_bp parse_prod rc_csv bp_csv prod_csv
       sql_random py_random = Some t.

(** The tables on which [populate_needs] runs. *)
Lemma main_before_needs :
  exists t',
    populate_needs py_random t' = Some t
    /\ NoDup (map rc_key (t_rc_products t'))
    /\ NoDup (map bp_key (t_branch_products t'))
    /\ t_logdays t'
       = insert_do_nothing pair_eqb logday_key
           (logday_rows (t_branch_products t') (t_products t')) []
    /\ t_stores t'
       = insert_do_nothing N.eqb s_branch_id
           (store_rows sql_random (t_branch_products t')) []
    /\ t_needs t' = [].
Proof.
  unfold main, load_rc_products, load_branch_products, populate_products
    in Hmain.
  destruct (copy_csv parse_rc _ _ rc_csv _) as [rcs|] eqn:Hrcs;
    [|discriminate].
  cbn [option_map t_branch_products create_tables] in Hmain.
  destruct (copy_csv parse_bp _ _ bp_csv _) as [bps|] eqn:Hbps;
    [|discriminate].
  cbn [option_map] in Hmain.
  destruct (copy_csv parse_prod _ _ prod_csv _) as [tmp|]; [|discriminate].
  eexists. split; [exact Hmain|]. simpl.
  split; [exact (copy_csv_NoDup _ _ _ pair_eqb_eq _ _ Hrcs)|].
  split; [exact (copy_csv_NoDup _ _ _ pair_eqb_eq _ _ Hbps)|].
  auto.
Qed.

Lemma main_stores (s : Store) :
  In s (t_stores t) ->
  exists i bp,
    In bp (t_branch_products t) /\ s_branch_id s = bp_branch_id bp
    /\ s_priority s = random_int 5 (sql_random (2 * i)%nat)
    /\ s_min_shipment s = random_int 20 (sql_random (2 * i + 1)%nat).
Proof.
  destruct main_before_needs as [t' [Hn [_ [_ [_ [Es _]]]]]].
  apply populate_needs_rows in Hn as [_ [-> [_ [_ [-> _]]]]].
  rewrite Es. intros Hs.
  destruct (insert_do_nothing_added N.eqb s_branch_id
              (store_rows sql_random (t_branch_products t')) [])
    as [added [E Hin]].
  rewrite E in Hs. now apply in_store_rows, Hin.
Qed.

Lemma main_stores_NoDup : NoDup (map s_branch_id (t_stores t)).
Proof.
  destruct main_before_needs as [t' [Hn [_ [_ [_ [Es _]]]]]].
  apply populate_needs_rows in Hn as [_ [_ [_ [_ [-> _]]]]].
  rewrite Es. apply (insert_do_nothing_NoDup _ _ N.eqb_eq). constructor.
Qed.

Lemma main_needs (n : Need) :
  In n (t_needs t) ->
  (int4_min <= n_need n <= int4_max)%Z
  /\ exists i bp,
       In bp (t_branch_products t)
       /\ n_branch_id n = bp_branch_id bp
       /\ n_product_id n = bp_product_id bp
       /\ n_need n
          = need_val (py_random i) (bp_stock bp)
              (logdays_of (t_products t) (t_logdays t)
                          (bp_branch_id bp) (bp_product_id bp))
              (dict_get N.eqb s_branch_id s_min_shipment (t_stores t)
                        (bp_branch_id bp)).
Proof.
  destruct main_before_needs as [t' [Hn [_ [_ [_ [_ En]]]]]].
  apply populate_needs_rows in Hn as [_ [-> [-> [-> [-> Hex]]]]].
  rewrite En in Hex. apply execute_values_rows in Hex as [-> Hrange].
  intros Hin.
  destruct (insert_do_nothing_added pair_eqb need_key
              (map (need_row py_random t')
                   (combine (seq 0 (length (t_branch_products t')))
                            (t_branch_products t'))) [])
    as [added [E Hadd]].
  rewrite E in Hin. apply Hadd in Hin. split; [now apply Hrange|].
  apply in_map_iff in Hin as [[i bp] [<- Hx]]. apply in_combine_r in Hx.
  exists i, bp. simpl. auto.
Qed.

Lemma main_primary_keys : primary_keys (database t) = true.
Proof.
  destruct main_before_needs as [t' [Hn [Hrc [Hbp [_ [_ En]]]]]].
  assert (Hs := main_stores_NoDup).
  apply populate_needs_rows in Hn as [Erc [Ebp [_ [_ [_ Hex]]]]].
  rewrite En in Hex. apply execute_values_rows in Hex as [Eneeds _].
  unfold primary_keys, database.
  cbn [branch_products rc_products stores needs].
  rewrite !andb_true_iff. repeat split.
  - apply (NoDup_unique pair_eqb _ pair_eqb_eq). rewrite Ebp. exact Hbp.
  - apply (NoDup_unique pair_eqb _ pair_eqb_eq). rewrite Erc. exact Hrc.
  - apply (NoDup_unique N.eqb _ N.eqb_eq). exact Hs.
  - apply (NoDup_unique pair_eqb _ pair_eqb_eq). rewrite Eneeds.
    apply (insert_do_nothing_NoDup pair_eqb need_key pair_eqb_eq).
    constructor.
Qed.

Lemma main_need_of (bp : BranchProduct) :
  In bp (t_branch_products t) ->
  exists n, In n (t_needs t) /\ n_branch_id n = bp_branch_id bp
            /\ n_product_id n = bp_product_id bp.
Proof.
  destruct main_before_needs as [t' [Hn [_ [_ [_ [_ En]]]]]].
  apply populate_needs_rows in Hn as [_ [-> [_ [_ [_ Hex]]]]].
  rewrite En in Hex. apply execute_values_rows in Hex as [-> _].
  intros Hbp. destruct (in_combine_seq _ bp 0 Hbp) as [i Hi].
  assert (Hk := insert_do_nothing_covers pair_eqb need_key pair_eqb_eq
                  (map (need_row py_random t')
                       (combine (seq 0 (length (t_branch_products t')))
                                (t_branch_products t')))
                  [] (need_row py_random t' (i, bp))
                  (or_introl (in_map _ _ _ Hi))).
  apply in_map_iff in Hk as [n [E Hin]]. exists n.
  split; [exact Hin|]. unfold need_key in E. simpl in E.
  injection E as E1 E2. auto.
Qed.

Lemma main_store_of (bp : BranchProduct) :
  In bp (t_branch_products t) ->
  exists s, In s (t_stores t) /\ s_branch_id s = bp_branch_id bp.
Proof.
  destruct main_before_needs as [t' [Hn [_ [_ [_ [Es _]]]]]].
  apply populate_needs_rows in Hn as [_ [-> [_ [_ [-> _]]]]].
  rewrite Es. intros Hbp.
  destruct (store_rows_cover sql_random _ bp Hbp) as [s [Hs E]].
  assert (Hk := insert_do_nothing_covers N.eqb s_branch_id N.eqb_eq
                  (store_rows sql_random (t_branch_products t')) [] s
                  (or_introl Hs)).
  apply in_map_iff in Hk as [s' [E' Hin]]. exists s'.
  split; [exact Hin|]. congruence.
Qed.
End Main.

(** * Further properties of [populate_db.py] *)

(** X11: [copy_csv] loads the file from its third line on.  [next(f)]
    consumes the header and [COPY .. WITH CSV HEADER] discards the line that
    follows, so the first record of the file is never read, let alone
    loaded; the table receives the readings of the remaining lines, in
    order. *)
Theorem copy_csv_drops_first_record {A K}
    (parse : String.string -> option A) (eqb : K -> K -> bool)
    (key : A -> K) (file : list String.string) (table table' : list A) :
  copy_csv parse eqb key file table = Some table' ->
  file <> []
  /\ exists rows,
       mapM parse (skipn 2 file) = Some rows /\ table' = table ++ rows.
Proof.
  destruct file as [|header rest]; [discriminate|].
  intros E. split; [discriminate|].
  unfold copy_csv, copy_with_header in E.
  apply copy_rows_loaded in E. now destruct rest.
Qed.

Lemma copy_csv_drops_first_record_witness :
  copy_csv parse_rc_example pair_eqb rc_key rc_csv_example []
  = Some [rc_product 1 9 11]
  /\ exists rows,
       mapM parse_rc_example (skipn 2 rc_csv_example) = Some rows
       /\ [rc_product 1 9 11] = [] ++ rows.
Proof.
  split; [reflexivity|].
  apply (copy_csv_drops_first_record parse_rc_example pair_eqb rc_key
           rc_csv_example [] [rc_product 1 9 11]).
  reflexivity.
Defined.

(** X12: the statement of [populate_products] keeps the rows [products]
    had, adds only rows of [tmp_products] whose product has a row in
    [rc_products] or in [branch_products], leaves every such product with a
    row, and keeps [product_id] a key. *)
Theorem products_with_stock_only (rcs : list RcProduct)
    (bps : list BranchProduct) (tmp products : list Product) :
  NoDup (map pr_product_id products) ->
  let products' := insert_products rcs bps tmp products in
  NoDup (map pr_product_id products')
  /\ (forall p, In p products -> In p products')
  /\ (forall p, In p products' ->
        In p products
        \/ (In p tmp
            /\ (In (pr_product_id p) (map rcp_product_id rcs)
                \/ In (pr_product_id p) (map bp_product_id bps))))
  /\ (forall p, In p tmp ->
        In (pr_product_id p) (map rcp_product_id rcs)
        \/ In (pr_product_id p) (map bp_product_id bps) ->
        In (pr_product_id p) (map pr_product_id products')).
Proof.
  intros Hnd products'. unfold products', insert_products.
  assert (Hstock : forall p,
            has_stock rcs bps p = true <->
            In (pr_product_id p) (map rcp_product_id rcs)
            \/ In (pr_product_id p) (map bp_product_id bps)).
  { intros p. unfold has_stock.
    rewrite orb_true_iff, !existsb_exists, !in_map_iff.
    split; (intros [[x Hx]|[x Hx]]; [left|right]; exists x);
      rewrite ?N.eqb_eq in *; tauto. }
  destruct (insert_do_nothing_added N.eqb pr_product_id
              (filter (has_stock rcs bps) tmp) products)
    as [added [E Hadd]].
  split; [|split; [|split]].
  - now apply (insert_do_nothing_NoDup _ _ N.eqb_eq).
  - intros p Hp. rewrite E. apply in_or_app. now left.
  - intros p Hp. rewrite E in Hp. apply in_app_or in Hp as [Hp|Hp];
      [now left|right].
    apply Hadd, filter_In in Hp as [Hp Hs]. split; [exact Hp|].
    now apply Hstock.
  - intros p Hp Hs. apply (insert_do_nothing_covers _ _ N.eqb_eq). left.
    apply filter_In. split; [exact Hp|]. now apply Hstock.
Qed.

Lemma products_with_stock_only_witness :
  NoDup (map pr_product_id (@nil Product))
  /\ NoDup
       (map pr_product_id
            (insert_products [rc_product 1 9 11] [branch_product 1 1 0]
               [{| pr_product_id := 1; pr_category_id := 7 |};
                {| pr_product_id := 5; pr_category_id := 7 |}] [])).
Proof.
  split; [constructor|].
  apply (products_with_stock_only [rc_product 1 9 11] [branch_product 1 1 0]
           [{| pr_product_id := 1; pr_category_id := 7 |};
            {| pr_product_id := 5; pr_category_id := 7 |}] []).
  constructor.
Defined.

(** X13: when the draws of [random()] lie in [0, 1), [populate_auxiliary]
    leaves every branch of [branch_products] with a store, keeps
    [branch_id] a key of [stores], and every store it adds belongs to a
    branch of [branch_products] and has a priority between 1 and 5 and a
    [min_shipment] between 1 and 20. *)
Theorem stores_cover_branches (random : nat -> Q) (t : Tables) :
  (forall i, 0 <= random i /\ random i < 1) ->
  NoDup (map s_branch_id (t_stores t)) ->
  let stores' := t_stores (populate_auxiliary random t) in
  NoDup (map s_branch_id stores')
  /\ (forall bp, In bp (t_branch_products t) ->
        exists s, In s stores' /\ s_branch_id s = bp_branch_id bp)
  /\ (forall s, In s stores' ->
        In s (t_stores t)
        \/ ((1 <= s_priority s <= 5)%Z /\ (1 <= s_min_shipment s <= 20)%Z
            /\ exists bp, In bp (t_branch_products t)
                          /\ bp_branch_id bp = s_branch_id s)).
Proof.
  intros Hr Hnd stores'. unfold stores', populate_auxiliary.
  cbn [t_stores].
  split; [|split].
  - now apply (insert_do_nothing_NoDup _ _ N.eqb_eq).
  - intros bp Hbp.
    destruct (store_rows_cover random _ bp Hbp) as [s [Hs E]].
    assert (Hk := insert_do_nothing_covers N.eqb s_branch_id N.eqb_eq
                    (store_rows random (t_branch_products t)) (t_stores t) s
                    (or_introl Hs)).
    apply in_map_iff in Hk as [s' [E' Hin]]. exists s'.
    split; [exact Hin|congruence].
  - intros s Hs.
    destruct (insert_do_nothing_added N.eqb s_branch_id
                (store_rows random (t_branch_products t)) (t_stores t))
      as [added [E Hadd]].
    rewrite E in Hs. apply in_app_or in Hs as [Hs|Hs]; [now left|right].
    apply Hadd, in_store_rows in Hs as [i [bp [Hbp [Eb [-> ->]]]]].
    split; [|split].
    + apply random_int_range; [lia|apply Hr|apply Hr].
    + apply random_int_range; [lia|apply Hr|apply Hr].
    + exists bp. auto.
Qed.

Lemma stores_cover_branches_witness :
  (forall i, 0 <= half_random i /\ half_random i < 1)
  /\ NoDup (map s_branch_id (@nil Store))
  /\ NoDup
       (map s_branch_id
            (t_stores
               (populate_auxiliary half_random
                  {| t_rc_products := []; 
                     t_branch_products :=
                       [branch_product 1 1 0; branch_product 2 1 0;
                        branch_product 1 2 0];
                     t_products := []; t_logdays := []; t_stores := [];
                     t_needs := [] |}))).
Proof.
  assert (Hr : forall i, 0 <= half_random i /\ half_random i < 1)
    by (intros i; split; [discriminate|reflexivity]).
  split; [exact Hr|]. split; [constructor|].
  apply (stores_cover_branches half_random
           {| t_rc_products := [];
              t_branch_products :=
                [branch_product 1 1 0; branch_product 2 1 0;
                 branch_product 1 2 0];
              t_products := []; t_logdays := []; t_stores := [];
              t_needs := [] |});
    [exact Hr|constructor].
Defined.

(** X14: after [populate_auxiliary] every branch of [branch_products] has a
    row of [logdays] for every category of [products], and every row the
    statement adds has [logdays = 7]. *)
Theorem logdays_cover_pairs (random : nat -> Q) (t : Tables) :
  (forall bp p, In bp (t_branch_products t) -> In p (t_products t) ->
     exists l, In l (t_logdays (populate_auxiliary random t))
               /\ ld_branch_id l = bp_branch_id bp
               /\ ld_category_id l = pr_category_id p)
  /\ (forall l, In l (t_logdays (populate_auxiliary random t)) ->
        In l (t_logdays t) \/ ld_logdays l = 7%Z).
Proof.
  unfold populate_auxiliary. cbn [t_logdays]. split.
  - intros bp p Hbp Hp.
    set (l := {| ld_branch_id := bp_branch_id bp;
                 ld_category_id := pr_category_id p; ld_logdays := 7 |}).
    assert (Hl : In l (logday_rows (t_branch_products t) (t_products t))).
    { unfold logday_rows. apply in_flat_map. exists (bp_branch_id bp).
      split; [apply nodup_In; now apply in_map|].
      apply in_map_iff. exists (pr_category_id p).
      split; [reflexivity|]. apply nodup_In. now apply in_map. }
    assert (Hk := insert_do_nothing_covers pair_eqb logday_key pair_eqb_eq
                    _ (t_logdays t) l (or_introl Hl)).
    apply in_map_iff in Hk as [l' [E Hin]]. exists l'.
    split; [exact Hin|]. unfold logday_key in E. simpl in E.
    injection E as E1 E2. auto.
  - intros l Hl.
    destruct (insert_do_nothing_added pair_eqb logday_key
                (logday_rows (t_branch_products t) (t_products t))
                (t_logdays t))
      as [added [E Hadd]].
    rewrite E in Hl. apply in_app_or in Hl as [Hl|Hl]; [now left|right].
    apply Hadd in Hl. unfold logday_rows in Hl.
    apply in_flat_map in Hl as [b [_ Hl]].
    now apply in_map_iff in Hl as [c [<- _]].
Qed.

(** X15: the batches of [populate_needs] lose and repeat nothing: writing a
    batch at every 10000th row and the rest after the loop leaves the table
    a single [INSERT .. ON CONFLICT DO NOTHING] of the tuples of all rows
    of [branch_products] would leave, and raises when that would raise. *)
Theorem populate_needs_one_statement (random : nat -> Q) (t : Tables) :
  option_map t_needs (populate_needs random t)
  = execute_values
      (map (need_row random t)
           (combine (seq 0 (length (t_branch_products t)))
                    (t_branch_products t)))
      (t_needs t).
Proof.
  unfold populate_needs. rewrite needs_loop_one_statement. simpl.
  now destruct (execute_values _ _).
Qed.

(** X16: when the draws of [random.random()] are not negative, no row of
    [logdays] is negative and [branch_id] is a key of [stores], every need
    [populate_needs] adds is at least 1 and at least the [min_shipment] of
    the store of its branch, fits [INT], and belongs to a row of
    [branch_products]; every row of [branch_products] ends with a need, and
    (branch_id, product_id) stays a key of [needs]. *)
Theorem needs_reach_min_shipment (random : nat -> Q) (t t' : Tables) :
  populate_needs random t = Some t' ->
  (forall i, 0 <= random i) ->
  (forall l, In l (t_logdays t) -> (0 <= ld_logdays l)%Z) ->
  NoDup (map s_branch_id (t_stores t)) ->
  NoDup (map need_key (t_needs t)) ->
  NoDup (map need_key (t_needs t'))
  /\ (forall bp, In bp (t_branch_products t) ->
        exists n, In n (t_needs t') /\ n_branch_id n = bp_branch_id bp
                  /\ n_product_id n = bp_product_id bp)
  /\ (forall n, In n (t_needs t') ->
        In n (t_needs t)
        \/ ((1 <= n_need n <= int4_max)%Z
            /\ (forall s, In s (t_stores t) ->
                  s_branch_id s = n_branch_id n ->
                  (s_min_shipment s <= n_need n)%Z)
            /\ exists bp, In bp (t_branch_products t)
                          /\ bp_branch_id bp = n_branch_id n
                          /\ bp_product_id bp = n_product_id n)).
Proof.
  intros Hrun Hr Hl Hs Hn.
  apply populate_needs_rows in Hrun as [_ [_ [_ [_ [_ Hex]]]]].
  apply execute_values_rows in Hex as [-> Hrange].
  set (rows := map (need_row random t)
                   (combine (seq 0 (length (t_branch_products t)))
                            (t_branch_products t))) in *.
  split; [|split].
  - now apply (insert_do_nothing_NoDup _ _ pair_eqb_eq).
  - intros bp Hbp. destruct (in_combine_seq _ bp 0 Hbp) as [i Hi].
    assert (Hk := insert_do_nothing_covers pair_eqb need_key pair_eqb_eq
                    rows (t_needs t) (need_row random t (i, bp))
                    (or_introl (in_map _ _ _ Hi))).
    apply in_map_iff in Hk as [n [E Hin]]. exists n.
    split; [exact Hin|]. unfold need_key in E. simpl in E.
    injection E as E1 E2. auto.
  - intros n Hin.
    destruct (insert_do_nothing_added pair_eqb need_key rows (t_needs t))
      as [added [E Hadd]].
    rewrite E in Hin. apply in_app_or in Hin as [Hin|Hin]; [now left|right].
    apply Hadd in Hin. assert (Hb := Hrange n Hin).
    apply in_map_iff in Hin as [[i bp] [<- Hx]].
    destruct (need_row_value random t (i, bp) Hr Hl Hs) as [H1 Hmin].
    split; [lia|]. split; [exact Hmin|].
    apply in_combine_r in Hx. exists bp. simpl. auto.
Qed.

Lemma needs_reach_min_shipment_witness :
  exists t',
    populate_needs half_random
      {| t_rc_products := [];
         t_branch_products := [branch_product 1 1 0; branch_product 1 2 200];
         t_products := []; t_logdays := [];
         t_stores := [store 1 3 11; store 2 3 5000];
         t_needs := [] |}
    = Some t'
    /\ t_needs t' = [need 1 1 526; need 2 1 5000]
    /\ NoDup (map need_key (t_needs t')).
Proof.
  eexists. split; [reflexivity|]. split; [reflexivity|].
  apply (needs_reach_min_shipment half_random
           {| t_rc_products := [];
              t_branch_products :=
                [branch_product 1 1 0; branch_product 1 2 200];
              t_products := []; t_logdays := [];
              t_stores := [store 1 3 11; store 2 3 5000];
              t_needs := [] |}).
  - reflexivity.
  - intros i. discriminate.
  - intros l [].
  - repeat constructor; simpl; intuition discriminate.
  - constructor.
Defined.

(** X17: the tables a successful run of [main] leaves satisfy the primary
    keys [distribute_products.py] relies on, and every row of
    [branch_products] has its need and its store, so that the joins of
    [available] keep each row of [branch_products] exactly once, in
    order. *)
Theorem populated_tables_join_completely
    (parse_rc : String.string -> option RcProduct)
    (parse_bp : String.string -> option BranchProduct)
    (parse_prod : String.string -> option Product)
    (rc_csv bp_csv prod_csv : list String.string)
    (sql_random py_random : nat -> Q) (t : Tables) :
  main parse_rc parse_bp parse_prod rc_csv bp_csv prod_csv
       sql_random py_random = Some t ->
  primary_keys (database t) = true
  /\ map (fun a => (a_product_id a, a_branch_id a)) (available (database t))
     = map bp_key (t_branch_products t).
Proof.
  intros Hmain.
  assert (Hpk := main_primary_keys _ _ _ _ _ _ _ _ _ Hmain).
  split; [exact Hpk|].
  apply (available_complete (database t) Hpk).
  - exact (main_need_of _ _ _ _ _ _ _ _ _ Hmain).
  - exact (main_store_of _ _ _ _ _ _ _ _ _ Hmain).
Qed.

Lemma populated_tables_join_completely_witness :
  exists t,
    main parse_rc_example parse_bp_example parse_prod_example
         rc_csv_example bp_csv_example prod_csv_example
         half_random half_random = Some t
    /\ t_branch_products t = [branch_product 1 1 0; branch_product 1 2 0]
    /\ primary_keys (database t) = true
    /\ map (fun a => (a_product_id a, a_branch_id a)) (available (database t))
       = map bp_key (t_branch_products t).
Proof.
  eexists. split; [reflexivity|]. split; [reflexivity|].
  apply (populated_tables_join_completely parse_rc_example parse_bp_example
           parse_prod_example rc_csv_example bp_csv_example prod_csv_example
           half_random half_random).
  reflexivity.
Defined.

(** X18: when the draws of [random()] lie in [0, 1) and those of
    [random.random()] are not negative, the tables a successful run of
    [main] leaves have priorities between 1 and 5 and [min_shipment]
    between 1 and 20, and every need is at least the [min_shipment] of the
    store of its branch, hence at least 1, and fits [INT]. *)
Theorem populated_values
    (parse_rc : String.string -> option RcProduct)
    (parse_bp : String.string -> option BranchProduct)
    (parse_prod : String.string -> option Product)
    (rc_csv bp_csv prod_csv : list String.string)
    (sql_random py_random : nat -> Q) (t : Tables) :
  main parse_rc parse_bp parse_prod rc_csv bp_csv prod_csv
       sql_random py_random = Some t ->
  (forall i, 0 <= sql_random i /\ sql_random i < 1) ->
  (forall i, 0 <= py_random i) ->
  positive_priority (database t) = true
  /\ (forall s, In s (t_stores t) ->
        (1 <= s_priority s <= 5)%Z /\ (1 <= s_min_shipment s <= 20)%Z)
  /\ (forall n, In n (t_needs t) ->
        (1 <= n_need n <= int4_max)%Z
        /\ exists s, In s (t_stores t) /\ s_branch_id s = n_branch_id n
                     /\ (s_min_shipment s <= n_need n)%Z).
Proof.
  intros Hmain Hsql Hpy.
  assert (Hst : forall s, In s (t_stores t) ->
                  (1 <= s_priority s <= 5)%Z
                  /\ (1 <= s_min_shipment s <= 20)%Z).
  { intros s Hs.
    destruct (main_stores _ _ _ _ _ _ _ _ _ Hmain s Hs)
      as [i [bp [_ [_ [-> ->]]]]].
    split; apply random_int_range; try lia; apply Hsql. }
  split; [|split; [exact Hst|]].
  - unfold positive_priority, database. cbn [stores].
    apply forallb_forall. intros s Hs. apply Z.ltb_lt.
    destruct (Hst s Hs). lia.
  - intros n Hn.
    destruct (main_needs _ _ _ _ _ _ _ _ _ Hmain n Hn)
      as [Hrange [i [bp [Hbp [Eb [_ En]]]]]].
    destruct (main_store_of _ _ _ _ _ _ _ _ _ Hmain bp Hbp) as [s [Hs Es]].
    assert (Hm : (s_min_shipment s <= n_need n)%Z).
    { rewrite En, <- Es.
      rewrite (dict_get_row N.eqb s_branch_id s_min_shipment N.eqb_eq
                 (t_stores t) s
                 (main_stores_NoDup _ _ _ _ _ _ _ _ _ Hmain) Hs).
      unfold need_val. lia. }
    destruct (Hst s Hs) as [_ Hmin].
    split; [lia|]. exists s. split; [exact Hs|]. split; [congruence|exact Hm].
Qed.

Lemma populated_values_witness :
  exists t,
    main parse_rc_example parse_bp_example parse_prod_example
         rc_csv_example bp_csv_example prod_csv_example
         half_random half_random = Some t
    /\ t_stores t = [store 1 3 11; store 2 3 11]
    /\ t_needs t = [need 1 1 526; need 2 1 526]
    /\ positive_priority (database t) = true.
Proof.
  eexists. split; [reflexivity|]. split; [reflexivity|].
  split; [reflexivity|].
  apply (populated_values parse_rc_example parse_bp_example
           parse_prod_example rc_csv_example bp_csv_example prod_csv_example
           half_random half_random).
  - reflexivity.
  - intros i. split; [discriminate|reflexivity].
  - intros i. discriminate.
Defined.
